(** * Flash Attention v2 (Triton kernels): a shallow embedding

    The development follows [Triton/flash_attention_triton.py]: the four
    Triton kernels ([flash_attn_v2_forward],
    [flash_attn_v2_backward_preprocess], [flash_attn_v2_backward_dq],
    [flash_attn_v2_backward_dkv]) and the dispatcher
    ([FlashAttentionV2.forward] and [FlashAttentionV2.backward]).

    Conventions of the embedding.
    - A float32 value is a real number or one of the three IEEE special
      values; arithmetic on finite values is exact (no rounding, no
      overflow), arithmetic on special values follows IEEE 754.
    - A device allocation is a buffer [Z -> fval] addressed by the element
      offset from its base pointer.  Pointer arithmetic stays inside the
      allocation it starts from, so two distinct allocations never alias.
    - A Triton block of shape [[n]] is a function from the lane [r < n];
      a block of shape [[n, k]] a function of two lanes.
    - The programs of one launch run one after the other, in lexicographic
      order of their program ids. *)

From Stdlib Require Import ZArith List Bool Reals Lra Lia.
Import ListNotations.

Local Open Scope Z_scope.

(** ** Float values *)

Inductive fval : Type :=
| Fin (x : R)
| PInf
| NInf
| NaN.

Module FP.

Definition zero : fval := Fin 0%R.

Definition is_finite (a : fval) : Prop :=
  match a with Fin _ => True | _ => False end.

Definition neg (a : fval) : fval :=
  match a with
  | Fin x => Fin (- x)%R
  | PInf => NInf
  | NInf => PInf
  | NaN => NaN
  end.

Definition add (a b : fval) : fval :=
  match a, b with
  | NaN, _ | _, NaN => NaN
  | Fin x, Fin y => Fin (x + y)%R
  | PInf, NInf | NInf, PInf => NaN
  | PInf, _ | _, PInf => PInf
  | NInf, _ | _, NInf => NInf
  end.

Definition sub (a b : fval) : fval := add a (neg b).

(** The sign of a finite factor decides an infinite product; a zero
    factor makes it NaN. *)
Definition signed_inf (x : R) (pos : bool) : fval :=
  if Req_dec_T x 0%R then NaN
  else if Rlt_dec 0%R x then (if pos then PInf else NInf)
       else (if pos then NInf else PInf).

Definition mul (a b : fval) : fval :=
  match a, b with
  | NaN, _ | _, NaN => NaN
  | Fin x, Fin y => Fin (x * y)%R
  | Fin x, PInf | PInf, Fin x => signed_inf x true
  | Fin x, NInf | NInf, Fin x => signed_inf x false
  | PInf, PInf | NInf, NInf => PInf
  | PInf, NInf | NInf, PInf => NInf
  end.

Definition div (a b : fval) : fval :=
  match a, b with
  | NaN, _ | _, NaN => NaN
  | Fin x, Fin y =>
      if Req_dec_T y 0%R then signed_inf x true else Fin (x / y)%R
  | Fin _, PInf | Fin _, NInf => Fin 0%R
  | PInf, Fin y =>
      if Req_dec_T y 0%R then PInf else signed_inf y true
  | NInf, Fin y =>
      if Req_dec_T y 0%R then NInf else signed_inf y false
  | PInf, _ | NInf, _ => NaN
  end.

Definition exp (a : fval) : fval :=
  match a with
  | Fin x => Fin (Rtrigo_def.exp x)
  | PInf => PInf
  | NInf => Fin 0%R
  | NaN => NaN
  end.

(** [tl.maximum]: a NaN operand gives NaN. *)
Definition max (a b : fval) : fval :=
  match a, b with
  | NaN, _ | _, NaN => NaN
  | PInf, _ | _, PInf => PInf
  | NInf, x | x, NInf => x
  | Fin x, Fin y => Fin (Rmax x y)
  end.

End FP.

(** ** Blocks *)

Definition vec := nat -> fval.
Definition tile := nat -> nat -> fval.

(** [tl.sum(_, axis=1)] over the [n] lanes of a row, from a zero
    accumulator. *)
Fixpoint tl_sum (n : nat) (f : vec) : fval :=
  match n with
  | O => FP.zero
  | S k => FP.add (tl_sum k f) (f k)
  end.

(** [tl.max(_, axis=1)] over the [n] lanes of a row. *)
Fixpoint tl_max (n : nat) (f : vec) : fval :=
  match n with
  | O => NInf
  | S k => FP.max (tl_max k f) (f k)
  end.

(** [tl.dot(a, tl.trans(b))] at one position: both operands are rows of
    [n] lanes. *)
Definition tl_dot (n : nat) (a b : vec) : fval :=
  tl_sum n (fun j => FP.mul (a j) (b j)).

Definition tl_where (c : bool) (a b : fval) : fval := if c then a else b.

(** ** Buffers *)

Definition buf := Z -> fval.

(** [tl.load(ptr + off, mask=mask, other=other)] on one lane. *)
Definition tl_load (ptr : buf) (off : Z) (mask : bool) (other : fval) : fval :=
  if mask then ptr off else other.

Definition upd (ptr : buf) (off : Z) (x : fval) : buf :=
  fun a => if a =? off then x else ptr a.

(** [tl.store(ptr + off, x, mask=mask)] on one lane. *)
Definition tl_store (ptr : buf) (off : Z) (x : fval) (mask : bool) : buf :=
  if mask then upd ptr off x else ptr.

(** A masked store of a block of [n] lanes, lane by lane. *)
Fixpoint store_vec (n : nat) (off : nat -> Z) (x : vec) (mask : nat -> bool)
    (ptr : buf) : buf :=
  match n with
  | O => ptr
  | S k => tl_store (store_vec k off x mask ptr) (off k) (x k) (mask k)
  end.

(** A masked store of a block of [n] by [k] lanes. *)
Fixpoint store_tile (n k : nat) (off : nat -> nat -> Z) (x : tile)
    (mask : nat -> nat -> bool) (ptr : buf) : buf :=
  match n with
  | O => ptr
  | S n' =>
      store_vec k (off n') (x n') (mask n') (store_tile n' k off x mask ptr)
  end.

Record Strides : Type := mkStrides {
  batch_stride : Z;
  head_stride : Z;
  seq_stride : Z;
  head_dim_stride : Z
}.

(** The load of a [rows x BLOCK_SIZE_K] block of a tensor, as every kernel
    writes it:
    [tl.load(ptr + batch_offset + head_offset + idx[:, None] * seq_stride
             + tl.arange(0, BLOCK_SIZE_K)[None, :] * head_dim_stride,
             mask=msk[:, None] & (tl.arange(0, BLOCK_SIZE_K)[None, :] < head_dim),
             other=0.0)]. *)
Definition load_block (ptr : buf) (batch_offset head_offset : Z)
    (st : Strides) (idx : nat -> Z) (msk : nat -> bool) (head_dim : Z) : tile :=
  fun r j =>
    tl_load ptr
      (batch_offset + head_offset + idx r * seq_stride st
       + Z.of_nat j * head_dim_stride st)
      (msk r && (Z.of_nat j <? head_dim))
      FP.zero.

(** The offsets and the mask of the matching store. *)
Definition block_offset (batch_offset head_offset : Z) (st : Strides)
    (idx : nat -> Z) : nat -> nat -> Z :=
  fun r j =>
    batch_offset + head_offset + idx r * seq_stride st
    + Z.of_nat j * head_dim_stride st.

Definition block_mask (msk : nat -> bool) (head_dim : Z) : nat -> nat -> bool :=
  fun r j => msk r && (Z.of_nat j <? head_dim).

(** [range(0, stop, step)] for a positive step. *)
Definition py_range (stop step : Z) : list Z :=
  map (fun t => Z.of_nat t * step) (seq 0 (Z.to_nat ((stop + step - 1) / step))).

(** ** The forward kernel *)

(** The loop-carried state of [flash_attn_v2_forward]. *)
Record fwd_state : Type := mkFwd {
  m_i : vec;
  l_i : vec;
  acc : tile
}.

Section ForwardKernel.

Variables q_ptr k_ptr v_ptr : buf.
Variables batch_size seq_len num_heads head_dim : Z.
Variables q_st k_st v_st o_st : Strides.
Variable scale : fval.
Variables BLOCK_SIZE_M BLOCK_SIZE_N BLOCK_SIZE_K : nat.
Variable IS_CAUSAL : bool.
Variables batch_id head_id m_id : Z.

Definition fwd_start_m : Z := m_id * Z.of_nat BLOCK_SIZE_M.
Definition fwd_row_indices (r : nat) : Z := fwd_start_m + Z.of_nat r.
Definition fwd_row_mask (r : nat) : bool := fwd_row_indices r <? seq_len.

Definition fwd_init : fwd_state :=
  {| m_i := fun _ => FP.sub FP.zero PInf;
     l_i := fun _ => FP.zero;
     acc := fun _ _ => FP.zero |}.

Definition fwd_q_block : tile :=
  load_block q_ptr (batch_id * batch_stride q_st) (head_id * head_stride q_st)
    q_st fwd_row_indices fwd_row_mask head_dim.

(** One iteration of [for start_n in range(0, seq_len, BLOCK_SIZE_N)]. *)
Definition fwd_step (st : fwd_state) (start_n : Z) : fwd_state :=
  let col_indices := fun c : nat => start_n + Z.of_nat c in
  let col_mask := fun c : nat => col_indices c <? seq_len in
  let causal_mask := fun r c : nat => fwd_row_indices r >=? col_indices c in
  let k_block :=
    load_block k_ptr (batch_id * batch_stride k_st)
      (head_id * head_stride k_st) k_st col_indices col_mask head_dim in
  let scores := fun r c : nat =>
    FP.mul (tl_dot BLOCK_SIZE_K (fwd_q_block r) (k_block c)) scale in
  let scores := fun r c : nat =>
    if IS_CAUSAL then tl_where (causal_mask r c) (scores r c) NInf
    else scores r c in
  let m_i_new := fun r : nat =>
    FP.max (m_i st r) (tl_max BLOCK_SIZE_N (scores r)) in
  let alpha := fun r : nat => FP.exp (FP.sub (m_i st r) (m_i_new r)) in
  let p := fun r c : nat => FP.exp (FP.sub (scores r c) (m_i_new r)) in
  let v_block :=
    load_block v_ptr (batch_id * batch_stride v_st)
      (head_id * head_stride v_st) v_st col_indices col_mask head_dim in
  let l_i_new := fun r : nat =>
    FP.add (FP.mul (alpha r) (l_i st r)) (tl_sum BLOCK_SIZE_N (p r)) in
  let acc_new := fun r j : nat =>
    FP.add (FP.mul (alpha r) (acc st r j))
           (tl_sum BLOCK_SIZE_N (fun c => FP.mul (p r c) (v_block c j))) in
  {| m_i := m_i_new; l_i := l_i_new; acc := acc_new |}.

(** The state after the loop over the key/value tiles. *)
Definition fwd_loop : fwd_state :=
  fold_left fwd_step (py_range seq_len (Z.of_nat BLOCK_SIZE_N)) fwd_init.

(** [out = acc / l_i[:, None]] *)
Definition fwd_out : tile :=
  fun r j => FP.div (acc fwd_loop r j) (l_i fwd_loop r).

(** The statistics are addressed from the output pointer. *)
Definition fwd_m_off : Z := seq_len * head_dim * num_heads * head_dim.
Definition fwd_l_off : Z := fwd_m_off + seq_len * head_dim * num_heads.

(** One program of the kernel: its three stores, in the order of the
    source, all into the allocation of [o_ptr]. *)
Definition flash_attn_v2_forward (o_ptr : buf) : buf :=
  let stat_off := fun r : nat =>
    batch_id * (num_heads * seq_len) + head_id * seq_len
    + fwd_row_indices r in
  let o1 :=
    store_vec BLOCK_SIZE_M (fun r => fwd_m_off + stat_off r)
      (m_i fwd_loop) fwd_row_mask o_ptr in
  let o2 :=
    store_vec BLOCK_SIZE_M (fun r => fwd_l_off + stat_off r)
      (l_i fwd_loop) fwd_row_mask o1 in
  store_tile BLOCK_SIZE_M BLOCK_SIZE_K
    (block_offset (batch_id * batch_stride o_st) (head_id * head_stride o_st)
       o_st fwd_row_indices)
    fwd_out (block_mask fwd_row_mask head_dim) o2.

End ForwardKernel.

(** ** The backward kernels *)

Section PreprocessKernel.

Variables o_ptr do_ptr : buf.
Variables batch_size seq_len num_heads head_dim : Z.
Variables o_st do_st : Strides.
Variable BLOCK_SIZE : nat.
Variables batch_id head_id block_id : Z.

Definition pre_row_indices (r : nat) : Z :=
  block_id * Z.of_nat BLOCK_SIZE + Z.of_nat r.
Definition pre_row_mask (r : nat) : bool := pre_row_indices r <? seq_len.

(** The feature lanes are [tl.arange(0, head_dim)]. *)
Definition pre_o_block : tile :=
  load_block o_ptr (batch_id * batch_stride o_st) (head_id * head_stride o_st)
    o_st pre_row_indices pre_row_mask head_dim.

Definition pre_do_block : tile :=
  load_block do_ptr (batch_id * batch_stride do_st)
    (head_id * head_stride do_st) do_st pre_row_indices pre_row_mask head_dim.

Definition pre_d_block : vec :=
  fun r =>
    tl_sum (Z.to_nat head_dim)
      (fun j => FP.mul (pre_o_block r j) (pre_do_block r j)).

Definition flash_attn_v2_backward_preprocess (d_ptr : buf) : buf :=
  let d_offset := batch_id * (num_heads * seq_len) + head_id * seq_len in
  store_vec BLOCK_SIZE (fun r => d_offset + pre_row_indices r)
    pre_d_block pre_row_mask d_ptr.

End PreprocessKernel.

Section DqKernel.

Variables q_ptr k_ptr v_ptr do_ptr : buf.
Variables m_ptr l_ptr d_ptr : buf.
Variables seq_len num_heads head_dim : Z.
Variables q_st k_st v_st do_st dq_st : Strides.
Variable scale : fval.
Variables BLOCK_SIZE_M BLOCK_SIZE_N BLOCK_SIZE_K : nat.
Variable IS_CAUSAL : bool.
Variables batch_id head_id m_id : Z.

Definition dq_row_indices (r : nat) : Z :=
  m_id * Z.of_nat BLOCK_SIZE_M + Z.of_nat r.
Definition dq_row_mask (r : nat) : bool := dq_row_indices r <? seq_len.

Definition dq_m_offset : Z :=
  batch_id * (num_heads * seq_len) + head_id * seq_len.

Definition dq_m_i : vec :=
  fun r => tl_load m_ptr (dq_m_offset + dq_row_indices r) (dq_row_mask r) NInf.
Definition dq_l_i : vec :=
  fun r =>
    tl_load l_ptr (dq_m_offset + dq_row_indices r) (dq_row_mask r) FP.zero.
Definition dq_d_i : vec :=
  fun r =>
    tl_load d_ptr (dq_m_offset + dq_row_indices r) (dq_row_mask r) FP.zero.

Definition dq_q_block : tile :=
  load_block q_ptr (batch_id * batch_stride q_st) (head_id * head_stride q_st)
    q_st dq_row_indices dq_row_mask head_dim.

Definition dq_do_block : tile :=
  load_block do_ptr (batch_id * batch_stride do_st)
    (head_id * head_stride do_st) do_st dq_row_indices dq_row_mask head_dim.

(** One iteration of the loop over the key/value tiles. *)
Definition dq_step (dq_block : tile) (start_n : Z) : tile :=
  let m_i := dq_m_i in
  let l_i := dq_l_i in
  let d_i := dq_d_i in
  let q_block := dq_q_block in
  let do_block := dq_do_block in
  let col_indices := fun c : nat => start_n + Z.of_nat c in
  let col_mask := fun c : nat => col_indices c <? seq_len in
  let causal_mask := fun r c : nat => dq_row_indices r >=? col_indices c in
  let k_block :=
    load_block k_ptr (batch_id * batch_stride k_st)
      (head_id * head_stride k_st) k_st col_indices col_mask head_dim in
  let v_block :=
    load_block v_ptr (batch_id * batch_stride v_st)
      (head_id * head_stride v_st) v_st col_indices col_mask head_dim in
  let scores := fun r c : nat =>
    FP.mul (tl_dot BLOCK_SIZE_K (q_block r) (k_block c)) scale in
  let scores := fun r c : nat =>
    if IS_CAUSAL then tl_where (causal_mask r c) (scores r c) NInf
    else scores r c in
  let p := fun r c : nat => FP.exp (FP.sub (scores r c) (m_i r)) in
  let dv := fun r j : nat =>
    tl_sum BLOCK_SIZE_N (fun c => FP.mul (p r c) (do_block c j)) in
  let dp := fun r c : nat => tl_dot BLOCK_SIZE_K (do_block r) (v_block c) in
  let ds := fun r c : nat => FP.mul (p r c) (FP.sub (dp r c) (d_i r)) in
  fun r j =>
    FP.add (dq_block r j)
      (FP.mul (tl_sum BLOCK_SIZE_N (fun c => FP.mul (ds r c) (k_block c j)))
         scale).

Definition dq_loop : tile :=
  fold_left dq_step (py_range seq_len (Z.of_nat BLOCK_SIZE_N))
    (fun _ _ => FP.zero).

Definition flash_attn_v2_backward_dq (dq_ptr : buf) : buf :=
  store_tile BLOCK_SIZE_M BLOCK_SIZE_K
    (block_offset (batch_id * batch_stride dq_st)
       (head_id * head_stride dq_st) dq_st dq_row_indices)
    dq_loop (block_mask dq_row_mask head_dim) dq_ptr.

End DqKernel.

(** The loop-carried state of [flash_attn_v2_backward_dkv]. *)
Record dkv_state : Type := mkDkv {
  dk_block : tile;
  dv_block : tile
}.

Section DkvKernel.

Variables q_ptr k_ptr v_ptr do_ptr : buf.
Variables m_ptr d_ptr : buf.
Variables seq_len num_heads head_dim : Z.
Variables q_st k_st v_st do_st dk_st dv_st : Strides.
Variable scale : fval.
Variables BLOCK_SIZE_M BLOCK_SIZE_N BLOCK_SIZE_K : nat.
Variable IS_CAUSAL : bool.
Variables batch_id head_id n_id : Z.

Definition dkv_col_indices (c : nat) : Z :=
  n_id * Z.of_nat BLOCK_SIZE_N + Z.of_nat c.
Definition dkv_col_mask (c : nat) : bool := dkv_col_indices c <? seq_len.

Definition dkv_offset_ml : Z :=
  batch_id * (num_heads * seq_len) + head_id * seq_len.

Definition dkv_k_block : tile :=
  load_block k_ptr (batch_id * batch_stride k_st) (head_id * head_stride k_st)
    k_st dkv_col_indices dkv_col_mask head_dim.

Definition dkv_v_block : tile :=
  load_block v_ptr (batch_id * batch_stride v_st) (head_id * head_stride v_st)
    v_st dkv_col_indices dkv_col_mask head_dim.

(** One iteration of [for start_m in range(0, seq_len, BLOCK_SIZE_M)]. *)
Definition dkv_step (st : dkv_state) (start_m : Z) : dkv_state :=
  let k_block := dkv_k_block in
  let v_block := dkv_v_block in
  let row_indices := fun r : nat => start_m + Z.of_nat r in
  let row_mask := fun r : nat => row_indices r <? seq_len in
  let causal_mask := fun r c : nat => row_indices r >=? dkv_col_indices c in
  let q_block :=
    load_block q_ptr (batch_id * batch_stride q_st)
      (head_id * head_stride q_st) q_st row_indices row_mask head_dim in
  let do_block :=
    load_block do_ptr (batch_id * batch_stride do_st)
      (head_id * head_stride do_st) do_st row_indices row_mask head_dim in
  let m_i := fun r : nat =>
    tl_load m_ptr (dkv_offset_ml + row_indices r) (row_mask r) NInf in
  let d_i := fun r : nat =>
    tl_load d_ptr (dkv_offset_ml + row_indices r) (row_mask r) FP.zero in
  let qk_t := fun c r : nat =>
    FP.mul (tl_dot BLOCK_SIZE_K (k_block c) (q_block r)) scale in
  let qk_t := fun c r : nat =>
    if IS_CAUSAL then tl_where (causal_mask r c) (qk_t c r) NInf
    else qk_t c r in
  let p_t := fun c r : nat => FP.exp (FP.sub (qk_t c r) (m_i r)) in
  let dv_new := fun c j : nat =>
    FP.add (dv_block st c j)
      (tl_sum BLOCK_SIZE_M (fun r => FP.mul (p_t c r) (do_block r j))) in
  let dp_t := fun c r : nat => tl_dot BLOCK_SIZE_K (v_block c) (do_block r) in
  let ds_t := fun c r : nat => FP.mul (p_t c r) (FP.sub (dp_t c r) (d_i r)) in
  let dk_new := fun c j : nat =>
    FP.add (dk_block st c j)
      (FP.mul (tl_sum BLOCK_SIZE_M (fun r => FP.mul (ds_t c r) (q_block r j)))
         scale) in
  {| dk_block := dk_new; dv_block := dv_new |}.

Definition dkv_loop : dkv_state :=
  fold_left dkv_step (py_range seq_len (Z.of_nat BLOCK_SIZE_M))
    {| dk_block := fun _ _ => FP.zero; dv_block := fun _ _ => FP.zero |}.

(** One program: the stores of [dk_block] and [dv_block].  The kernel
    receives [l_ptr] and never reads it. *)
Definition flash_attn_v2_backward_dkv (l_ptr : buf) (dk_ptr dv_ptr : buf)
    : buf * buf :=
  (store_tile BLOCK_SIZE_N BLOCK_SIZE_K
     (block_offset (batch_id * batch_stride dk_st)
        (head_id * head_stride dk_st) dk_st dkv_col_indices)
     (dk_block dkv_loop) (block_mask dkv_col_mask head_dim) dk_ptr,
   store_tile BLOCK_SIZE_N BLOCK_SIZE_K
     (block_offset (batch_id * batch_stride dv_st)
        (head_id * head_stride dv_st) dv_st dkv_col_indices)
     (dv_block dkv_loop) (block_mask dkv_col_mask head_dim) dv_ptr).

End DkvKernel.

(** ** Tensors and the dispatcher *)

Inductive exn : Type :=
| ValueError          (* unpacking a shape that has not four entries *)
| ZeroDivisionError   (* [triton.cdiv] by zero *)
| IndexError          (* [stride(i)] past the number of dimensions *)
| FuelExhausted.      (* the loop bound of the embedding was reached *)

Inductive result (A : Type) : Type :=
| Ok (a : A)
| Raise (e : exn).

Arguments Ok {A} a.
Arguments Raise {A} e.

Definition bind {A B : Type} (x : result A) (f : A -> result B) : result B :=
  match x with
  | Ok a => f a
  | Raise e => Raise e
  end.

Notation "x <- e1 ;; e2" := (bind e1 (fun x => e2))
  (at level 61, e1 at next level, right associativity).
Notation "' p <- e1 ;; e2" := (bind e1 (fun p => e2))
  (at level 61, p pattern, e1 at next level, right associativity).

Record Tensor : Type := mkTensor {
  data : buf;
  shape : list Z;
  strides : list Z
}.

(** [a, b, c, d = t.shape] *)
Definition unpack4 (s : list Z) : result (Z * Z * Z * Z) :=
  match s with
  | [a; b; c; d] => Ok (a, b, c, d)
  | _ => Raise ValueError
  end.

(** [t.stride(i)] *)
Definition stride (t : Tensor) (i : nat) : result Z :=
  match nth_error (strides t) i with
  | Some s => Ok s
  | None => Raise IndexError
  end.

(** [t.stride(0), t.stride(1), t.stride(2), t.stride(3)] *)
Definition strides4 (t : Tensor) : result Strides :=
  s0 <- stride t 0 ;;
  s1 <- stride t 1 ;;
  s2 <- stride t 2 ;;
  s3 <- stride t 3 ;;
  Ok (mkStrides s0 s1 s2 s3).

(** [triton.cdiv(x, y)], that is [(x + y - 1) // y]. *)
Definition cdiv (x y : Z) : result Z :=
  if y =? 0 then Raise ZeroDivisionError else Ok ((x + y - 1) / y).

Fixpoint contiguous_strides (s : list Z) : list Z :=
  match s with
  | [] => []
  | _ :: tl =>
      fold_right (fun d a => Z.max d 1 * a) 1 tl :: contiguous_strides tl
  end.

Definition numel (s : list Z) : Z := fold_right Z.mul 1 s.

(** The offset, under the strides [rstrides], of the element whose
    row-major position is [a]; both lists are given last dimension first. *)
Fixpoint strided_offset (rshape rstrides : list Z) (a : Z) : Z :=
  match rshape, rstrides with
  | d :: ds, s :: ss => (a mod d) * s + strided_offset ds ss (a / d)
  | _, _ => 0
  end.

(** [torch.empty(shape)]: the contents are whatever the allocation held,
    [raw]. *)
Definition torch_empty (s : list Z) (raw : buf) : Tensor :=
  {| data := raw; shape := s; strides := contiguous_strides s |}.

(** [torch.empty_like(t)], with the layout of a dense [t] preserved. *)
Definition torch_empty_like (t : Tensor) (raw : buf) : Tensor :=
  {| data := raw; shape := shape t; strides := strides t |}.

(** [torch.zeros_like(t)] *)
Definition torch_zeros_like (t : Tensor) : Tensor :=
  {| data := fun _ => FP.zero; shape := shape t; strides := strides t |}.

(** [t.contiguous()]: [t] itself when it is contiguous already, otherwise a
    row-major copy of its elements into a new allocation. *)
Definition contiguous (t : Tensor) (raw : buf) : Tensor :=
  if list_eq_dec Z.eq_dec (strides t) (contiguous_strides (shape t)) then t
  else
    {| data := fun a =>
         if (0 <=? a) && (a <? numel (shape t))
         then data t (strided_offset (rev (shape t)) (rev (strides t)) a)
         else raw a;
       shape := shape t;
       strides := contiguous_strides (shape t) |}.

(** The program ids of a launch over [grid], in lexicographic order. *)
Definition zrange (n : Z) : list Z := map Z.of_nat (seq 0 (Z.to_nat n)).

Definition program_ids (grid : Z * Z * Z) : list (Z * Z * Z) :=
  let '(g0, g1, g2) := grid in
  flat_map (fun a =>
    flat_map (fun b => map (fun c => (a, b, c)) (zrange g2)) (zrange g1))
    (zrange g0).

(** [kernel[grid](...)]: [prog a b c] is the program with ids [(a, b, c)],
    acting on the memory the kernel writes. *)
Definition launch {S : Type} (grid : Z * Z * Z) (prog : Z -> Z -> Z -> S -> S)
    (s : S) : S :=
  fold_left (fun s id => let '(a, b, c) := id in prog a b c s)
    (program_ids grid) s.

(** [while block_k < head_dim: block_k *= 2] *)
Fixpoint double_until (fuel : nat) (block_k head_dim : Z) : option Z :=
  if block_k <? head_dim then
    match fuel with
    | O => None
    | S fuel' => double_until fuel' (block_k * 2) head_dim
    end
  else Some block_k.

(** The rounding of the feature tile, as both entry points write it:
    [block_k = head_dim
     if block_k & (block_k - 1) != 0:
         block_k = 1
         while block_k < head_dim: block_k *= 2]. *)
Definition round_block_k (fuel : nat) (head_dim : Z) : option Z :=
  let block_k := head_dim in
  if negb (Z.land block_k (block_k - 1) =? 0)
  then double_until fuel 1 head_dim
  else Some block_k.

Definition block_k_fuel (head_dim : Z) : nat := Z.to_nat head_dim.

Definition run_block_k (head_dim : Z) : result Z :=
  match round_block_k (block_k_fuel head_dim) head_dim with
  | Some b => Ok b
  | None => Raise FuelExhausted
  end.

(** What [ctx] holds between the two calls. *)
Record Ctx : Type := mkCtx {
  saved_q : Tensor;
  saved_k : Tensor;
  saved_v : Tensor;
  saved_o : Tensor;
  saved_m : Tensor;
  saved_l : Tensor;
  ctx_scale : fval;
  ctx_causal : bool;
  ctx_block_size : Z
}.

(** The contents of the allocations that the entry points obtain
    uninitialised. *)
Record Uninit : Type := mkUninit {
  raw_o : buf;
  raw_m : buf;
  raw_l : buf;
  raw_d : buf;
  raw_do : buf
}.

Definition with_data (t : Tensor) (b : buf) : Tensor :=
  {| data := b; shape := shape t; strides := strides t |}.

(** [FlashAttentionV2.forward(ctx, q, k, v, scale, causal, block_size)]:
    the returned tensor [o] and the saved context. *)
Definition FlashAttentionV2_forward (raw : Uninit) (q k v : Tensor)
    (scale : fval) (causal : bool) (block_size : Z) : result (Tensor * Ctx) :=
  '(batch_size, num_heads, seq_len, head_dim) <- unpack4 (shape q) ;;
  let o := torch_empty_like q (raw_o raw) in
  let m := torch_empty [batch_size; num_heads; seq_len] (raw_m raw) in
  let l := torch_empty [batch_size; num_heads; seq_len] (raw_l raw) in
  g2 <- cdiv seq_len block_size ;;
  let grid := (batch_size, num_heads, g2) in
  block_k <- run_block_k head_dim ;;
  q_st <- strides4 q ;;
  k_st <- strides4 k ;;
  v_st <- strides4 v ;;
  o_st <- strides4 o ;;
  let o' :=
    launch grid
      (flash_attn_v2_forward (data q) (data k) (data v)
         seq_len num_heads head_dim q_st k_st v_st o_st scale
         (Z.to_nat block_size) (Z.to_nat block_size) (Z.to_nat block_k)
         causal)
      (data o) in
  let o := with_data o o' in
  Ok (o, mkCtx q k v o m l scale causal block_size).

(** [FlashAttentionV2.backward(ctx, do)], with the buffer [d] it fills on
    the way kept in the result. *)
Definition FlashAttentionV2_backward_d (raw : Uninit) (ctx : Ctx)
    (do : Tensor) : result (Tensor * Tensor * Tensor * Tensor) :=
  let q := saved_q ctx in
  let k := saved_k ctx in
  let v := saved_v ctx in
  let o := saved_o ctx in
  let m := saved_m ctx in
  let l := saved_l ctx in
  let scale := ctx_scale ctx in
  let causal := ctx_causal ctx in
  let block_size := ctx_block_size ctx in
  '(batch_size, num_heads, seq_len, head_dim) <- unpack4 (shape q) ;;
  let dq := torch_zeros_like q in
  let dk := torch_zeros_like k in
  let dv := torch_zeros_like v in
  let do := contiguous do (raw_do raw) in
  let d := torch_empty [batch_size; num_heads; seq_len] (raw_d raw) in
  block_k <- run_block_k head_dim ;;
  g2 <- cdiv seq_len block_size ;;
  let grid_preprocess := (batch_size, num_heads, g2) in
  o_st <- strides4 o ;;
  do_st <- strides4 do ;;
  (* the call passes (batch_size, num_heads, seq_len, head_dim) to the
     parameters (batch_size, seq_len, num_heads, head_dim) *)
  let d' :=
    launch grid_preprocess
      (flash_attn_v2_backward_preprocess (data o) (data do)
         num_heads seq_len head_dim o_st do_st (Z.to_nat block_size))
      (data d) in
  g2 <- cdiv seq_len block_size ;;
  let grid_dq := (batch_size, num_heads, g2) in
  q_st <- strides4 q ;;
  k_st <- strides4 k ;;
  v_st <- strides4 v ;;
  o_st <- strides4 o ;;
  do_st <- strides4 do ;;
  dq_st <- strides4 dq ;;
  let dq' :=
    launch grid_dq
      (flash_attn_v2_backward_dq (data q) (data k) (data v) (data do)
         (data m) (data l) d'
         seq_len num_heads head_dim q_st k_st v_st do_st dq_st scale
         (Z.to_nat block_size) (Z.to_nat block_size) (Z.to_nat block_k)
         causal)
      (data dq) in
  g2 <- cdiv seq_len block_size ;;
  let grid_dkv := (batch_size, num_heads, g2) in
  q_st <- strides4 q ;;
  k_st <- strides4 k ;;
  v_st <- strides4 v ;;
  o_st <- strides4 o ;;
  do_st <- strides4 do ;;
  dk_st <- strides4 dk ;;
  dv_st <- strides4 dv ;;
  let dkv' :=
    launch grid_dkv
      (fun a b c s =>
         flash_attn_v2_backward_dkv (data q) (data k) (data v) (data do)
           (data m) d'
           seq_len num_heads head_dim q_st k_st v_st do_st dk_st dv_st scale
           (Z.to_nat block_size) (Z.to_nat block_size) (Z.to_nat block_k)
           causal a b c (data l) (fst s) (snd s))
      (data dk, data dv) in
  Ok (with_data dq dq', with_data dk (fst dkv'), with_data dv (snd dkv'),
      with_data d d').

(** [return dq, dk, dv, None, None, None] *)
Definition FlashAttentionV2_backward (raw : Uninit) (ctx : Ctx)
    (do : Tensor) : result (Tensor * Tensor * Tensor) :=
  '(dq, dk, dv, _) <- FlashAttentionV2_backward_d raw ctx do ;;
  Ok (dq, dk, dv).

(** ** The reference: direct softmax attention over the reals

    These definitions follow the formula
    [softmax(scale * Q * K^T) * V] of one (batch, head) slice, with the
    standard max-subtraction; they are what the kernels are compared
    with. *)

Fixpoint rsum (n : nat) (f : nat -> R) : R :=
  match n with
  | O => 0%R
  | S k => (rsum k f + f k)%R
  end.

Fixpoint rmaxn (n : nat) (f : nat -> R) : R :=
  match n with
  | O => 0%R
  | S k =>
      match k with
      | O => f O
      | S _ => Rmax (rmaxn k f) (f k)
      end
  end.

Section Reference.

Variable scale : R.
Variables seq dim : nat.
Variables Q K V : nat -> nat -> R.

Definition ref_scores (i j : nat) : R :=
  (scale * rsum dim (fun c => Q i c * K j c))%R.

Definition ref_weight (i j : nat) : R :=
  exp (ref_scores i j - rmaxn seq (ref_scores i)).

Definition ref_softmax (i j : nat) : R :=
  (ref_weight i j / rsum seq (ref_weight i))%R.

Definition attention_ref (i c : nat) : R :=
  rsum seq (fun j => ref_softmax i j * V j c)%R.

(** The scalar whose gradient the backward call returns: the output
    paired with the output gradient [dO]. *)
Definition ref_loss (dO : nat -> nat -> R) : R :=
  rsum seq (fun i => rsum dim (fun c => dO i c * attention_ref i c))%R.

End Reference.

(** ** Notions used by the statements *)

Definition is_pow2 (p : Z) : Prop := exists n : Z, 0 <= n /\ p = 2 ^ n.

Definition least_pow2_ge (h p : Z) : Prop :=
  is_pow2 p /\ h <= p /\ forall q : Z, is_pow2 q -> h <= q -> p <= q.

(** The elements of one (batch, head) slice that the masked loads can
    reach are finite. *)
Definition finite_slice (ptr : buf) (batch_offset head_offset : Z)
    (st : Strides) (seq_len head_dim : Z) : Prop :=
  forall i c : Z,
    0 <= i < seq_len -> 0 <= c < head_dim ->
    FP.is_finite
      (ptr (batch_offset + head_offset + i * seq_stride st
            + c * head_dim_stride st)).

(** Two buffers hold the same values at the positions [0 .. i] of one
    (batch, head) slice. *)
Definition agree_upto (p1 p2 : buf) (batch_offset head_offset : Z)
    (st : Strides) (i seq_len head_dim : Z) : Prop :=
  forall j c : Z,
    0 <= j -> j <= i -> j < seq_len -> 0 <= c < head_dim ->
    p1 (batch_offset + head_offset + j * seq_stride st
        + c * head_dim_stride st)
    = p2 (batch_offset + head_offset + j * seq_stride st
          + c * head_dim_stride st).

(** A buffer holds finite values at the positions after [i] of one
    (batch, head) slice. *)
Definition finite_after (p : buf) (batch_offset head_offset : Z)
    (st : Strides) (i seq_len head_dim : Z) : Prop :=
  forall j c : Z,
    i < j -> j < seq_len -> 0 <= c < head_dim ->
    FP.is_finite
      (p (batch_offset + head_offset + j * seq_stride st
          + c * head_dim_stride st)).

Definition fin_or_ninf (a : fval) : Prop := a = NInf \/ FP.is_finite a.

Section ForwardBlocks.

Variables q_ptr k_ptr : buf.
Variables seq_len head_dim : Z.
Variables q_st k_st : Strides.
Variable scale : fval.
Variables BLOCK_SIZE_M BLOCK_SIZE_K : nat.
Variable IS_CAUSAL : bool.
Variables batch_id head_id m_id : Z.

(** The [scores] block of the iteration of [fwd_step] that starts at
    [start_n], after the causal [tl.where]. *)
Definition fwd_scores (start_n : Z) : tile :=
  fun r c =>
    let col_indices := fun c : nat => start_n + Z.of_nat c in
    let col_mask := fun c : nat => col_indices c <? seq_len in
    let k_block :=
      load_block k_ptr (batch_id * batch_stride k_st)
        (head_id * head_stride k_st) k_st col_indices col_mask head_dim in
    let scores :=
      FP.mul
        (tl_dot BLOCK_SIZE_K
           (fwd_q_block q_ptr seq_len head_dim q_st BLOCK_SIZE_M
              batch_id head_id m_id r)
           (k_block c)) scale in
    if IS_CAUSAL
    then tl_where (fwd_row_indices BLOCK_SIZE_M m_id r >=? col_indices c)
           scores NInf
    else scores.

End ForwardBlocks.

(** The [v_block] of the iteration of [fwd_step] that starts at
    [start_n]. *)
Definition fwd_v_block (v_ptr : buf) (seq_len head_dim : Z) (v_st : Strides)
    (batch_id head_id : Z) (start_n : Z) : tile :=
  load_block v_ptr (batch_id * batch_stride v_st) (head_id * head_stride v_st)
    v_st (fun c : nat => start_n + Z.of_nat c)
    (fun c : nat => start_n + Z.of_nat c <? seq_len) head_dim.

(** A row of the loop state once a finite score has been seen. *)
Definition row_good (st : fwd_state) (r : nat) : Prop :=
  exists m l, m_i st r = Fin m /\ l_i st r = Fin l /\ (1 <= l)%R /\
    forall j, FP.is_finite (acc st r j).

Definition to_R (a : fval) : R :=
  match a with Fin x => x | _ => 0%R end.

(** The (batch 0, head 0) slice of a tensor as a real matrix. *)
Definition slice0 (t : Tensor) : nat -> nat -> R :=
  fun i c =>
    to_R (data t (Z.of_nat i * nth 2 (strides t) 0
                  + Z.of_nat c * nth 3 (strides t) 0)).

(** The context with the tensor L replaced. *)
Definition with_saved_l (ctx : Ctx) (l : Tensor) : Ctx :=
  {| saved_q := saved_q ctx; saved_k := saved_k ctx; saved_v := saved_v ctx;
     saved_o := saved_o ctx; saved_m := saved_m ctx; saved_l := l;
     ctx_scale := ctx_scale ctx; ctx_causal := ctx_causal ctx;
     ctx_block_size := ctx_block_size ctx |}.

(** ** Concrete inputs *)

Definition const_buf (x : fval) : buf := fun _ => x.

Definition dense (b : buf) (s : list Z) : Tensor :=
  {| data := b; shape := s; strides := contiguous_strides s |}.

Module Inputs.

(** One batch, one head, one position, one feature; tile size 2. *)
Definition shape_1111 : list Z := [1; 1; 1; 1].
Definition q_zero : Tensor := dense (const_buf (Fin 0)) shape_1111.
Definition v_one : Tensor := dense (const_buf (Fin 1)) shape_1111.
Definition q_one : Tensor := dense (const_buf (Fin 1)) shape_1111.

(** One batch, one head, two positions, one feature. *)
Definition shape_1121 : list Z := [1; 1; 2; 1].
Definition zeros_1121 : Tensor := dense (const_buf (Fin 0)) shape_1121.
Definition ones_1121 : Tensor := dense (const_buf (Fin 1)) shape_1121.
Definition halves_1121 : Tensor := dense (const_buf (Fin (1 / 2))) shape_1121.
Definition twos_112 : Tensor := dense (const_buf (Fin 2)) [1; 1; 2].
Definition zeros_112 : Tensor := dense (const_buf (Fin 0)) [1; 1; 2].

(** The Value tensor [ones_1121] with position 1 replaced. *)
Definition v_with (x : fval) : Tensor :=
  dense (upd (const_buf (Fin 1)) 1 x) shape_1121.

(** One batch, two heads, one position, one feature. *)
Definition shape_1211 : list Z := [1; 2; 1; 1].
Definition ones_1211 : Tensor := dense (const_buf (Fin 1)) shape_1211.

(** Output buffers equal on the two elements of a [1, 2, 1, 1] tensor and
    holding [x] right after them. *)
Definition o_past (x : fval) : Tensor :=
  dense (upd (const_buf (Fin 1)) 2 x) shape_1211.

(** A Key tensor with one position where Query has two. *)
Definition k_short : Tensor := dense (const_buf (Fin 1)) shape_1111.

(** The context a forward call over [zeros, zeros, ones] of shape
    [1, 1, 2, 1] would leave if the statistics held the kernel's final
    running maximum (0) and running sum (2). *)
Definition ctx_exact : Ctx :=
  {| saved_q := zeros_1121; saved_k := zeros_1121; saved_v := ones_1121;
     saved_o := ones_1121; saved_m := zeros_112; saved_l := twos_112;
     ctx_scale := Fin 1; ctx_causal := false; ctx_block_size := 2 |}.

(** A context over shape [1, 1, 2, 1] with all-ones Output. *)
Definition ctx_1121 (m l : Tensor) : Ctx :=
  {| saved_q := ones_1121; saved_k := ones_1121; saved_v := ones_1121;
     saved_o := ones_1121; saved_m := m; saved_l := l;
     ctx_scale := Fin 1; ctx_causal := false; ctx_block_size := 2 |}.

(** A context over shape [1, 2, 1, 1] with Output [o]. *)
Definition ctx_1211 (o m l : Tensor) : Ctx :=
  {| saved_q := ones_1211; saved_k := ones_1211; saved_v := ones_1211;
     saved_o := o; saved_m := m; saved_l := l;
     ctx_scale := Fin 1; ctx_causal := false; ctx_block_size := 2 |}.

(** Allocations that hold zeros before they are written. *)
Definition raw0 : Uninit :=
  {| raw_o := const_buf (Fin 0); raw_m := const_buf (Fin 0);
     raw_l := const_buf (Fin 0); raw_d := const_buf (Fin 0);
     raw_do := const_buf (Fin 0) |}.

(** The Value matrix of [ones_1121] with entry (0, 0) set to [x]. *)
Definition v_at (x : R) : nat -> nat -> R :=
  fun i _ => match i with O => x | S _ => 1%R end.

(** The strides of dense tensors of shapes [1, 1, 2, 1], [1, 2, 1, 1] and
    [1, 1, 1, 1]. *)
Definition st_1121 : Strides := mkStrides 2 2 1 1.
Definition st_1211 : Strides := mkStrides 2 1 1 1.
Definition st_1111 : Strides := mkStrides 1 1 1 1.

(** Key and Value buffers that differ from all-ones at position 1 only. *)
Definition k_late : buf := upd (const_buf (Fin 1)) 1 (Fin 7).
Definition v_late : buf := upd (const_buf (Fin 1)) 1 (Fin 9).

End Inputs.

(** ** Notions used by the further statements *)

(** The score lane of key position [j] in a row whose valid key positions
    are [0 .. P-1] and carry the real scores [sR]. *)
Definition lane_score (P : nat) (sR : nat -> R) (j : nat) : fval :=
  if (j <? P)%nat then Fin (sR j) else NInf.

(** The weight of key position [j] under the running maximum [M]. *)
Definition row_weight (P : nat) (sR : nat -> R) (M : R) (j : nat) : R :=
  if (j <? P)%nat then exp (sR j - M) else 0%R.

(** The loop-carried values of one row after the key positions below [N]:
    the maximum of the valid scores seen, the sum of their weights and the
    weighted sum of the Value rows. *)
Definition row_sums (P : nat) (sR : nat -> R) (Vv : nat -> nat -> R)
    (N : nat) (m l : fval) (a : vec) : Prop :=
  exists M : R,
    m = Fin M /\
    (forall j, (j < N)%nat -> (j < P)%nat -> (sR j <= M)%R) /\
    (exists j, (j < N)%nat /\ (j < P)%nat /\ sR j = M) /\
    l = Fin (rsum N (row_weight P sR M)) /\
    forall c, a c = Fin (rsum N (fun j => row_weight P sR M j * Vv j c)%R).

(** One (batch, head) slice of a buffer as a real matrix (position,
    feature). *)
Definition slice_R (ptr : buf) (batch_offset head_offset : Z) (st : Strides)
    : nat -> nat -> R :=
  fun i c =>
    to_R (ptr (batch_offset + head_offset + Z.of_nat i * seq_stride st
               + Z.of_nat c * head_dim_stride st)).

(** The matrix [A] with everything outside [rows x cols] set to zero. *)
Definition zero_padded (rows cols : nat) (A : nat -> nat -> R)
    : nat -> nat -> R :=
  fun i c => if ((i <? rows) && (c <? cols))%nat then A i c else 0%R.

(** Two buffers hold the same values at every element of one
    (batch, head) slice of [seq_len] positions and [head_dim] features. *)
Definition agree_slice (p1 p2 : buf) (batch_offset head_offset : Z)
    (st : Strides) (seq_len head_dim : Z) : Prop :=
  forall i c : Z,
    0 <= i < seq_len -> 0 <= c < head_dim ->
    p1 (batch_offset + head_offset + i * seq_stride st
        + c * head_dim_stride st)
    = p2 (batch_offset + head_offset + i * seq_stride st
          + c * head_dim_stride st).

(** The strides of a dense row-major tensor of shape [B, H, S, D]. *)
Definition dense_strides (H S D : Z) : Strides :=
  mkStrides (H * S * D) (S * D) D 1.

(** The offset of element [(b, h, i, c)] in such a tensor. *)
Definition dense_offset (H S D : Z) (b h i c : Z) : Z :=
  b * (H * S * D) + h * (S * D) + i * D + c.

(** The weight that [flash_attn_v2_backward_dq] gives to key position
    [col] in row [i]: [exp(score - M)] where the position is visible. *)
Definition dq_weight (causal : bool) (i : nat) (sR : nat -> R) (mR : R)
    (col : nat) : R :=
  if (if causal then (col <=? i)%nat else true)
  then exp (sR col - mR) else 0%R.

(** The term of key position [col] in feature [j] of the query gradient of
    row [i]. *)
Definition dq_term (causal : bool) (dim : nat) (i : nat)
    (sR : nat -> R) (mR dR : R) (dO V K : nat -> nat -> R) (j col : nat) : R :=
  (dq_weight causal i sR mR col
   * (rsum dim (fun c => dO i c * V col c) - dR) * K col j)%R.

(** The term of query row [i] in feature [j] of the Value gradient of key
    position [n]. *)
Definition dv_term (causal : bool) (dim : nat) (s : R)
    (Q K dO : nat -> nat -> R) (mR : nat -> R) (n j i : nat) : R :=
  (dq_weight causal i (ref_scores s dim Q K i) (mR i) n * dO i j)%R.

(** The term of query row [i] in feature [j] of the Key gradient of key
    position [n]. *)
Definition dk_term (causal : bool) (dim : nat) (s : R)
    (Q K V dO : nat -> nat -> R) (mR dR : nat -> R) (n j i : nat) : R :=
  (dq_weight causal i (ref_scores s dim Q K i) (mR i) n
   * (rsum dim (fun c => dO i c * V n c) - dR i) * Q i j)%R.

(** The weights [p_t] of the iteration of [dkv_step] that starts at
    [start_m], by key lane and query lane. *)
Definition dkv_p_t (k_ptr q_ptr m_ptr : buf) (seq_len num_heads head_dim : Z)
    (q_st k_st : Strides) (scale : fval) (BLOCK_SIZE_N BLOCK_SIZE_K : nat)
    (IS_CAUSAL : bool) (batch_id head_id n_id : Z) (start_m : Z)
    (c r : nat) : fval :=
  let raw :=
    FP.mul
      (tl_dot BLOCK_SIZE_K
         (dkv_k_block k_ptr seq_len head_dim k_st BLOCK_SIZE_N batch_id
            head_id n_id c)
         (fwd_v_block q_ptr seq_len head_dim q_st batch_id head_id
            start_m r))
      scale in
  FP.exp
    (FP.sub
       (if IS_CAUSAL
        then tl_where (start_m + Z.of_nat r
                       >=? dkv_col_indices BLOCK_SIZE_N n_id c) raw NInf
        else raw)
       (tl_load m_ptr
          (dkv_offset_ml seq_len num_heads batch_id head_id
           + (start_m + Z.of_nat r))
          (start_m + Z.of_nat r <? seq_len) NInf)).

(** * Proofs *)

Import Inputs.

Lemma land_pred_pow2 (n : Z) : 0 <= n -> Z.land (2 ^ n) (2 ^ n - 1) = 0.
Proof.
  intros Hn.
  replace (2 ^ n - 1) with (Z.ones n) by (rewrite Z.ones_equiv; lia).
  rewrite Z.land_ones by assumption.
  apply Z.mod_same. apply Z.pow_nonzero; lia.
Qed.

Lemma land_pred_halves (a b : Z) :
  Z.land a b = 0 -> Z.land (a / 2) (b / 2) = 0.
Proof.
  intros H.
  rewrite <- !Z.div2_div, !Z.div2_spec, <- Z.shiftr_land, H.
  reflexivity.
Qed.

Lemma pow2_of_land_pred (p : positive) :
  Z.land (Z.pos p) (Z.pos p - 1) = 0 -> is_pow2 (Z.pos p).
Proof.
  induction p as [p IH | p IH |]; intros H.
  - exfalso. apply land_pred_halves in H.
    replace (Z.pos p~1 / 2) with (Z.pos p) in H
      by (apply Z.div_unique with (r := 1); lia).
    replace ((Z.pos p~1 - 1) / 2) with (Z.pos p) in H
      by (apply Z.div_unique with (r := 0); lia).
    rewrite Z.land_diag in H. lia.
  - apply land_pred_halves in H.
    replace (Z.pos p~0 / 2) with (Z.pos p) in H
      by (apply Z.div_unique with (r := 0); lia).
    replace ((Z.pos p~0 - 1) / 2) with (Z.pos p - 1) in H
      by (apply Z.div_unique with (r := 1); lia).
    destruct (IH H) as [n [Hn E]].
    exists (n + 1). split; [lia |].
    rewrite Z.pow_add_r by lia. change (2 ^ 1) with 2. lia.
  - exists 0. split; [lia | reflexivity].
Qed.

Lemma land_pred_iff (h : Z) :
  0 < h -> (Z.land h (h - 1) = 0 <-> is_pow2 h).
Proof.
  intros Hh. split.
  - destruct h as [| p | p]; try lia. apply pow2_of_land_pred.
  - intros [n [Hn ->]]. now apply land_pred_pow2.
Qed.

Lemma double_until_spec (fuel : nat) :
  forall b h : Z,
    1 <= b -> (Z.to_nat (h - b) <= fuel)%nat ->
    exists p n : Z,
      double_until fuel b h = Some p /\ 0 <= n /\ p = b * 2 ^ n /\
      h <= p /\ (p = b \/ p < 2 * h).
Proof.
  induction fuel as [| fuel IH]; intros b h Hb Hf;
    cbn [double_until]; destruct (Z.ltb_spec b h) as [Hlt | Hge].
  - lia.
  - exists b, 0. rewrite Z.pow_0_r. repeat split; try lia.
  - destruct (IH (b * 2) h) as (p & n & E & Hn & Hp & Hle & Hmin); try lia.
    exists p, (n + 1). rewrite E.
    assert (2 ^ (n + 1) = 2 * 2 ^ n) as E2
      by (rewrite Z.pow_add_r by lia; change (2 ^ 1) with 2; lia).
    rewrite E2. repeat split; lia.
  - exists b, 0. rewrite Z.pow_0_r. repeat split; try lia.
Qed.

Lemma pow2_least (h n : Z) :
  0 < h -> 0 <= n -> h <= 2 ^ n -> (2 ^ n = 1 \/ 2 ^ n < 2 * h) ->
  least_pow2_ge h (2 ^ n).
Proof.
  intros Hh Hn Hle Hmin. split; [| split].
  - exists n. now split.
  - assumption.
  - intros q [k [Hk ->]] Hq.
    destruct Hmin as [E | Hlt].
    + rewrite E. assert (0 < 2 ^ k) by (apply Z.pow_pos_nonneg; lia). lia.
    + apply Z.pow_le_mono_r; [lia |].
      assert (2 ^ n < 2 ^ (k + 1)) as Hlt'.
      { rewrite Z.pow_add_r by lia. change (2 ^ 1) with 2. lia. }
      apply Z.pow_lt_mono_r_iff in Hlt'; lia.
Qed.

Lemma round_block_k_spec (head_dim : Z) (fuel : nat) :
  0 < head_dim -> (block_k_fuel head_dim <= fuel)%nat ->
  exists p : Z,
    round_block_k fuel head_dim = Some p /\ least_pow2_ge head_dim p.
Proof.
  intros Hh Hf. unfold round_block_k, block_k_fuel in *.
  destruct (Z.eqb_spec (Z.land head_dim (head_dim - 1)) 0) as [E | E];
    cbn [negb].
  - exists head_dim. split; [reflexivity |].
    apply land_pred_iff in E; [| assumption].
    destruct E as [n [Hn ->]].
    assert (0 < 2 ^ n) by (apply Z.pow_pos_nonneg; lia).
    apply pow2_least; lia.
  - destruct (double_until_spec fuel 1 head_dim)
      as (p & n & Ep & Hn & Hp & Hle & Hmin); try lia.
    exists p. split; [assumption |].
    rewrite Z.mul_1_l in Hp. subst p.
    apply pow2_least; lia.
Qed.

Lemma run_block_k_total (head_dim : Z) : exists p, run_block_k head_dim = Ok p.
Proof.
  unfold run_block_k, round_block_k.
  destruct (negb (Z.land head_dim (head_dim - 1) =? 0)).
  - destruct (Z.le_gt_cases head_dim 1) as [H | H].
    + unfold block_k_fuel.
      destruct (Z.to_nat head_dim); cbn [double_until];
        destruct (Z.ltb_spec 1 head_dim); try lia; eauto.
    + destruct (double_until_spec (block_k_fuel head_dim) 1 head_dim)
        as (p & n & Ep & _); [lia | unfold block_k_fuel; lia |].
      rewrite Ep. eauto.
  - eauto.
Qed.





Lemma is_finite_inv (a : fval) : FP.is_finite a -> exists x, a = Fin x.
Proof. destruct a; cbn; intros H; try contradiction; eauto. Qed.

Lemma tl_sum_finite (n : nat) (f : vec) :
  (forall c, (c < n)%nat -> FP.is_finite (f c)) -> FP.is_finite (tl_sum n f).
Proof.
  induction n as [| n IH]; intros H; cbn [tl_sum].
  - exact I.
  - destruct (is_finite_inv _ (IH (fun c Hc => H c (Nat.lt_lt_succ_r _ _ Hc))))
      as [s ->].
    destruct (is_finite_inv _ (H n (Nat.lt_succ_diag_r n))) as [x ->].
    exact I.
Qed.

Lemma mul_finite (a b : fval) :
  FP.is_finite a -> FP.is_finite b -> FP.is_finite (FP.mul a b).
Proof. destruct a, b; cbn; tauto. Qed.

Lemma tl_dot_finite (n : nat) (a b : vec) :
  (forall j, FP.is_finite (a j)) -> (forall j, FP.is_finite (b j)) ->
  FP.is_finite (tl_dot n a b).
Proof.
  intros Ha Hb. apply tl_sum_finite. intros c _. now apply mul_finite.
Qed.

Lemma load_block_finite ptr boff hoff st idx msk seq_len head_dim :
  finite_slice ptr boff hoff st seq_len head_dim ->
  (forall r, msk r = true -> 0 <= idx r < seq_len) ->
  forall r j, FP.is_finite (load_block ptr boff hoff st idx msk head_dim r j).
Proof.
  intros Hf Hm r j. unfold load_block, tl_load.
  destruct (msk r) eqn:Em; cbn [andb]; [| exact I].
  destruct (Z.ltb_spec (Z.of_nat j) head_dim); [| exact I].
  apply Hf; [now apply Hm | lia].
Qed.

(** A sum of non-negative finite terms is finite and bounds each term. *)
Lemma tl_sum_nonneg (n : nat) (f : vec) :
  (forall c, (c < n)%nat -> exists x, f c = Fin x /\ (0 <= x)%R) ->
  exists s, tl_sum n f = Fin s /\ (0 <= s)%R /\
    forall c x, (c < n)%nat -> f c = Fin x -> (x <= s)%R.
Proof.
  induction n as [| n IH]; intros H; cbn [tl_sum].
  - exists 0%R. split; [reflexivity | split; [lra | intros; lia]].
  - destruct IH as (s & Es & Hs & Hb); [intros c Hc; apply H; lia |].
    destruct (H n (Nat.lt_succ_diag_r n)) as (x & Ex & Hx).
    rewrite Es, Ex. exists (s + x)%R. split; [reflexivity | split; [lra |]].
    intros c y Hc Ey. destruct (Nat.eq_dec c n) as [-> | Hne].
    + rewrite Ex in Ey. injection Ey as ->. lra.
    + assert (y <= s)%R by (apply (Hb c); [lia | assumption]). lra.
Qed.

(** The row maximum of scores that are finite or masked. *)
Lemma tl_max_cases (n : nat) (f : vec) :
  (forall c, (c < n)%nat -> fin_or_ninf (f c)) ->
  (tl_max n f = NInf /\ forall c, (c < n)%nat -> f c = NInf) \/
  (exists M, tl_max n f = Fin M /\
     (exists c, (c < n)%nat /\ f c = Fin M) /\
     (forall c x, (c < n)%nat -> f c = Fin x -> (x <= M)%R)).
Proof.
  induction n as [| n IH]; intros H; cbn [tl_max].
  - left. split; [reflexivity | intros; lia].
  - specialize (IH (fun c Hc => H c (Nat.lt_lt_succ_r _ _ Hc))).
    destruct (H n (Nat.lt_succ_diag_r n)) as [En | Hfin].
    + rewrite En. destruct IH as [[E Hall] | (M & E & (c & Hc & Ec) & Hb)].
      * left. rewrite E. split; [reflexivity |].
        intros c Hc. destruct (Nat.eq_dec c n) as [-> | ?];
          [assumption | apply Hall; lia].
      * right. exists M. rewrite E. split; [reflexivity | split].
        -- exists c. split; [lia | assumption].
        -- intros c' x Hc' Ex. destruct (Nat.eq_dec c' n) as [-> | ?];
             [congruence | apply (Hb c'); [lia | assumption]].
    + destruct (is_finite_inv _ Hfin) as [y Ey]. rewrite Ey.
      destruct IH as [[E Hall] | (M & E & (c & Hc & Ec) & Hb)].
      * right. exists y. rewrite E. split; [reflexivity | split].
        -- exists n. split; [lia | assumption].
        -- intros c' x Hc' Ex. destruct (Nat.eq_dec c' n) as [-> | ?].
           ++ rewrite Ey in Ex. injection Ex as ->. lra.
           ++ rewrite Hall in Ex by lia. discriminate.
      * right. exists (Rmax M y). rewrite E. split; [reflexivity | split].
        -- unfold Rmax. destruct (Rle_dec M y).
           ++ exists n. split; [lia | assumption].
           ++ exists c. split; [lia | assumption].
        -- intros c' x Hc' Ex. destruct (Nat.eq_dec c' n) as [-> | ?].
           ++ rewrite Ey in Ex. injection Ex as ->. apply Rmax_r.
           ++ apply Rle_trans with M; [| apply Rmax_l].
              apply (Hb c'); [lia | assumption].
Qed.



Lemma exp_sub_fin (s : fval) (a : R) :
  fin_or_ninf s ->
  exists x, FP.exp (FP.sub s (Fin a)) = Fin x /\ (0 <= x)%R /\
    (s = Fin a -> x = 1%R).
Proof.
  intros [-> | Hf].
  - exists 0%R. cbn. split; [reflexivity | split; [lra | discriminate]].
  - destruct (is_finite_inv _ Hf) as [y ->]. cbn.
    exists (exp (y + - a)). split; [reflexivity | split].
    + left. apply exp_pos.
    + intros E. injection E as ->.
      replace (a + - a)%R with 0%R by lra. apply exp_0.
Qed.

(** One rescaling step on one row: once a finite score has been seen the
    running maximum is finite and the running sum is at least 1. *)
Lemma online_step_good (m l : fval) (sc : vec) (n : nat) :
  (forall c, (c < n)%nat -> fin_or_ninf (sc c)) ->
  ((m = NInf /\ l = Fin 0 /\ exists c0, (c0 < n)%nat /\ FP.is_finite (sc c0))
   \/ (exists a x, m = Fin a /\ l = Fin x /\ (1 <= x)%R)) ->
  exists a' x' al,
    FP.max m (tl_max n sc) = Fin a' /\
    FP.add (FP.mul (FP.exp (FP.sub m (FP.max m (tl_max n sc)))) l)
      (tl_sum n (fun c => FP.exp (FP.sub (sc c) (FP.max m (tl_max n sc)))))
    = Fin x' /\
    (1 <= x')%R /\
    FP.exp (FP.sub m (FP.max m (tl_max n sc))) = Fin al /\
    forall c, (c < n)%nat ->
      FP.is_finite (FP.exp (FP.sub (sc c) (FP.max m (tl_max n sc)))).
Proof.
  intros Hsc Hst.
  assert (forall a', FP.max m (tl_max n sc) = Fin a' ->
          exists s, tl_sum n (fun c => FP.exp (FP.sub (sc c) (Fin a'))) = Fin s
            /\ (0 <= s)%R
            /\ ((exists c, (c < n)%nat /\ sc c = Fin a') -> (1 <= s)%R)
            /\ forall c, (c < n)%nat ->
                 FP.is_finite (FP.exp (FP.sub (sc c) (Fin a')))) as Hsum.
  { intros a' _.
    destruct (tl_sum_nonneg n (fun c => FP.exp (FP.sub (sc c) (Fin a'))))
      as (s & Es & Hs & Hb).
    { intros c Hc. destruct (exp_sub_fin (sc c) a' (Hsc c Hc)) as (x & E & Hx & _).
      eauto. }
    exists s. split; [assumption | split; [assumption | split]].
    - intros (c & Hc & Ec).
      destruct (exp_sub_fin (sc c) a' (Hsc c Hc)) as (x & E & _ & H1).
      rewrite (H1 Ec) in E. apply (Hb c 1%R Hc E).
    - intros c Hc. destruct (exp_sub_fin (sc c) a' (Hsc c Hc)) as (x & E & _).
      rewrite E. exact I. }
  destruct (tl_max_cases n sc Hsc) as [[ET Hall] | (M & ET & Harg & Hb)].
  - (* the whole tile is masked *)
    destruct Hst as [(_ & _ & c0 & Hc0 & Hf) | (a & x & -> & -> & Hx)].
    + rewrite (Hall c0 Hc0) in Hf. contradiction.
    + rewrite ET. cbn [FP.max].
      destruct (Hsum a) as (s & Es & Hs & _ & Hp);
        [now rewrite ET |].
      rewrite Es. cbn.
      exists a, (exp (a + - a) * x + s)%R, (exp (a + - a)).
      replace (a + - a)%R with 0%R by lra. rewrite exp_0.
      repeat split; try reflexivity; [lra | assumption].
  - rewrite ET.
    destruct Hst as [(-> & -> & _) | (a & x & -> & -> & Hx)].
    + cbn [FP.max].
      destruct (Hsum M) as (s & Es & Hs & H1 & Hp); [now rewrite ET |].
      rewrite Es. cbn.
      exists M, (0 * 0 + s)%R, 0%R.
      repeat split; try reflexivity; [| assumption].
      specialize (H1 Harg). lra.
    + cbn [FP.max].
      destruct (Hsum (Rmax a M)) as (s & Es & Hs & H1 & Hp);
        [now rewrite ET |].
      rewrite Es. cbn.
      exists (Rmax a M), (exp (a + - Rmax a M) * x + s)%R,
        (exp (a + - Rmax a M)).
      repeat split; try reflexivity; [| assumption].
      unfold Rmax in *. destruct (Rle_dec a M) as [Hle | Hgt].
      * specialize (H1 Harg).
        assert (0 < exp (a + - M))%R by apply exp_pos. nra.
      * replace (a + - a)%R with 0%R by lra. rewrite exp_0. lra.
Qed.


Section ForwardDefined.

Variables q_ptr k_ptr v_ptr : buf.
Variables seq_len head_dim : Z.
Variables q_st k_st v_st : Strides.
Variable s : R.
Variables BLOCK_SIZE_M BLOCK_SIZE_N BLOCK_SIZE_K : nat.
Variable IS_CAUSAL : bool.
Variables batch_id head_id m_id : Z.

Hypothesis Hmid : 0 <= m_id.
Hypothesis Hq :
  finite_slice q_ptr (batch_id * batch_stride q_st)
    (head_id * head_stride q_st) q_st seq_len head_dim.
Hypothesis Hk :
  finite_slice k_ptr (batch_id * batch_stride k_st)
    (head_id * head_stride k_st) k_st seq_len head_dim.
Hypothesis Hv :
  finite_slice v_ptr (batch_id * batch_stride v_st)
    (head_id * head_stride v_st) v_st seq_len head_dim.

Local Notation "'step'" :=
  (fwd_step q_ptr k_ptr v_ptr seq_len head_dim q_st k_st v_st (Fin s)
     BLOCK_SIZE_M BLOCK_SIZE_N BLOCK_SIZE_K IS_CAUSAL batch_id head_id m_id).
Local Notation "'scores'" :=
  (fwd_scores q_ptr k_ptr seq_len head_dim q_st k_st (Fin s)
     BLOCK_SIZE_M BLOCK_SIZE_K IS_CAUSAL batch_id head_id m_id).
Local Notation "'v_block'" :=
  (fwd_v_block v_ptr seq_len head_dim v_st batch_id head_id).

Lemma fwd_q_block_finite r j :
  FP.is_finite
    (fwd_q_block q_ptr seq_len head_dim q_st BLOCK_SIZE_M
       batch_id head_id m_id r j).
Proof.
  apply load_block_finite with (seq_len := seq_len); [assumption |].
  intros r'. unfold fwd_row_mask, fwd_row_indices, fwd_start_m.
  intros H. apply Z.ltb_lt in H. nia.
Qed.

Lemma fwd_scores_fin_or_ninf start_n r c :
  0 <= start_n -> fin_or_ninf (scores start_n r c).
Proof.
  intros Hs. unfold fwd_scores.
  assert (FP.is_finite
    (FP.mul
       (tl_dot BLOCK_SIZE_K
          (fwd_q_block q_ptr seq_len head_dim q_st BLOCK_SIZE_M batch_id
             head_id m_id r)
          (load_block k_ptr (batch_id * batch_stride k_st)
             (head_id * head_stride k_st) k_st
             (fun c0 : nat => start_n + Z.of_nat c0)
             (fun c0 : nat => start_n + Z.of_nat c0 <? seq_len) head_dim c))
       (Fin s))) as Hfin.
  { apply mul_finite; [| exact I]. apply tl_dot_finite.
    - apply fwd_q_block_finite.
    - apply load_block_finite with (seq_len := seq_len); [assumption |].
      intros c' H. apply Z.ltb_lt in H. lia. }
  destruct IS_CAUSAL; [| now right].
  unfold tl_where.
  destruct (_ >=? _); [now right | now left].
Qed.

Lemma fwd_scores_first_finite r : FP.is_finite (scores 0 r 0%nat).
Proof.
  destruct (fwd_scores_fin_or_ninf 0 r 0%nat (Z.le_refl 0)) as [E | H];
    [| assumption].
  exfalso. revert E. unfold fwd_scores.
  destruct IS_CAUSAL.
  - unfold tl_where, fwd_row_indices, fwd_start_m.
    destruct (Z.geb_spec (m_id * Z.of_nat BLOCK_SIZE_M + Z.of_nat r)
                (0 + Z.of_nat 0)) as [_ | Hlt]; [| cbn in Hlt; nia].
    intros E.
    pose proof (fwd_scores_fin_or_ninf 0 r 0%nat (Z.le_refl 0)) as H.
    assert (FP.is_finite NInf) as Hbad; [| exact Hbad].
    rewrite <- E. apply mul_finite; [| exact I]. apply tl_dot_finite.
    + apply fwd_q_block_finite.
    + apply load_block_finite with (seq_len := seq_len); [assumption |].
      intros c' H'. apply Z.ltb_lt in H'. lia.
  - intros E. assert (FP.is_finite NInf) as Hbad; [| exact Hbad].
    rewrite <- E. apply mul_finite; [| exact I]. apply tl_dot_finite.
    + apply fwd_q_block_finite.
    + apply load_block_finite with (seq_len := seq_len); [assumption |].
      intros c' H'. apply Z.ltb_lt in H'. lia.
Qed.

Lemma fwd_v_block_finite start_n c j :
  0 <= start_n -> FP.is_finite (v_block start_n c j).
Proof.
  intros Hs. apply load_block_finite with (seq_len := seq_len);
    [assumption |].
  intros c' H. apply Z.ltb_lt in H. lia.
Qed.

Lemma fwd_step_row_good st start_n r :
  0 <= start_n ->
  ((m_i st r = NInf /\ l_i st r = Fin 0 /\ (forall j, acc st r j = Fin 0) /\
    start_n = 0 /\ (0 < BLOCK_SIZE_N)%nat)
   \/ row_good st r) ->
  row_good (step st start_n) r.
Proof.
  intros Hs Hst.
  assert (forall j, FP.is_finite (acc st r j)) as Hacc.
  { destruct Hst as [(_ & _ & H0 & _) | (m & l & _ & _ & _ & H)];
      [intros j; rewrite H0; exact I | assumption]. }
  destruct (online_step_good (m_i st r) (l_i st r) (scores start_n r)
              BLOCK_SIZE_N) as (a' & x' & al & Em & El & Hx & Eal & Hp).
  - intros c _. now apply fwd_scores_fin_or_ninf.
  - destruct Hst as [(Em & El & _ & -> & HBN) | (m & l & Em & El & Hl & _)].
    + left. split; [assumption | split; [assumption |]].
      exists 0%nat. split; [assumption | apply fwd_scores_first_finite].
    + right. eauto.
  - exists a', x'. split; [exact Em | split; [exact El | split; [exact Hx |]]].
    intros j. cbn [fwd_step acc].
    change (FP.is_finite
      (FP.add
         (FP.mul
            (FP.exp (FP.sub (m_i st r)
               (FP.max (m_i st r) (tl_max BLOCK_SIZE_N (scores start_n r)))))
            (acc st r j))
         (tl_sum BLOCK_SIZE_N
            (fun c =>
               FP.mul
                 (FP.exp (FP.sub (scores start_n r c)
                    (FP.max (m_i st r)
                       (tl_max BLOCK_SIZE_N (scores start_n r)))))
                 (v_block start_n c j))))).
    rewrite Eal.
    destruct (is_finite_inv _ (Hacc j)) as [y ->].
    match goal with
    | |- FP.is_finite (FP.add _ ?t) =>
        assert (FP.is_finite t) as Hsum
    end.
    { apply tl_sum_finite. intros c Hc. apply mul_finite;
        [now apply Hp | now apply fwd_v_block_finite]. }
    destruct (is_finite_inv _ Hsum) as [z ->]. exact I.
Qed.

End ForwardDefined.



Lemma py_range_nonneg (stop step x : Z) :
  0 <= step -> In x (py_range stop step) -> 0 <= x.
Proof.
  intros Hs Hin. unfold py_range in Hin.
  apply in_map_iff in Hin. destruct Hin as (t & <- & _). nia.
Qed.

Lemma py_range_head (stop step : Z) :
  0 < stop -> 0 < step -> exists tl, py_range stop step = 0 :: tl.
Proof.
  intros H1 H2. unfold py_range.
  assert (1 <= (stop + step - 1) / step) as Hc.
  { apply Z.div_le_lower_bound; lia. }
  destruct (Z.to_nat ((stop + step - 1) / step)) as [| n] eqn:E; [lia |].
  cbn [seq map]. eexists. reflexivity.
Qed.

Lemma div_fin_pos (a l : R) :
  (0 < l)%R -> FP.div (Fin a) (Fin l) = Fin (a / l).
Proof.
  intros H. cbn. destruct (Req_dec_T l 0) as [E | _]; [lra | reflexivity].
Qed.

Section ForwardLoop.

Variables q_ptr k_ptr v_ptr : buf.
Variables seq_len head_dim : Z.
Variables q_st k_st v_st : Strides.
Variable s : R.
Variables BLOCK_SIZE_M BLOCK_SIZE_N BLOCK_SIZE_K : nat.
Variable IS_CAUSAL : bool.
Variables batch_id head_id m_id : Z.

Hypothesis Hseq : 0 < seq_len.
Hypothesis HBN : (0 < BLOCK_SIZE_N)%nat.
Hypothesis Hmid : 0 <= m_id.
Hypothesis Hq :
  finite_slice q_ptr (batch_id * batch_stride q_st)
    (head_id * head_stride q_st) q_st seq_len head_dim.
Hypothesis Hk :
  finite_slice k_ptr (batch_id * batch_stride k_st)
    (head_id * head_stride k_st) k_st seq_len head_dim.
Hypothesis Hv :
  finite_slice v_ptr (batch_id * batch_stride v_st)
    (head_id * head_stride v_st) v_st seq_len head_dim.

Local Notation "'step'" :=
  (fwd_step q_ptr k_ptr v_ptr seq_len head_dim q_st k_st v_st (Fin s)
     BLOCK_SIZE_M BLOCK_SIZE_N BLOCK_SIZE_K IS_CAUSAL batch_id head_id m_id).
Local Notation "'loop'" :=
  (fwd_loop q_ptr k_ptr v_ptr seq_len head_dim q_st k_st v_st (Fin s)
     BLOCK_SIZE_M BLOCK_SIZE_N BLOCK_SIZE_K IS_CAUSAL batch_id head_id m_id).
Local Notation "'out'" :=
  (fwd_out q_ptr k_ptr v_ptr seq_len head_dim q_st k_st v_st (Fin s)
     BLOCK_SIZE_M BLOCK_SIZE_N BLOCK_SIZE_K IS_CAUSAL batch_id head_id m_id).

Lemma fwd_fold_row_good (l : list Z) :
  forall st r,
    (forall x, In x l -> 0 <= x) ->
    row_good st r -> row_good (fold_left step l st) r.
Proof.
  induction l as [| x l IH]; intros st r Hl Hg; cbn [fold_left].
  - assumption.
  - apply IH; [intros y Hy; apply Hl; now right |].
    apply fwd_step_row_good; try assumption.
    + apply Hl. now left.
    + now right.
Qed.

Lemma fwd_loop_row_good (r : nat) : row_good loop r.
Proof.
  unfold fwd_loop.
  destruct (py_range_head seq_len (Z.of_nat BLOCK_SIZE_N)) as [tl E];
    [assumption | lia |].
  assert (forall x, In x tl -> 0 <= x) as Htl.
  { intros x Hx. apply (py_range_nonneg seq_len (Z.of_nat BLOCK_SIZE_N));
      [lia | rewrite E; now right]. }
  rewrite E. cbn [fold_left].
  apply fwd_fold_row_good; [assumption |].
  apply fwd_step_row_good; try assumption; [lia |].
  left. cbn. repeat split; try reflexivity; assumption.
Qed.

End ForwardLoop.




Lemma tl_sum_ext (n : nat) (f g : vec) :
  (forall c, (c < n)%nat -> f c = g c) -> tl_sum n f = tl_sum n g.
Proof.
  induction n as [| n IH]; intros H; cbn [tl_sum]; [reflexivity |].
  rewrite IH by (intros; apply H; lia). now rewrite H by lia.
Qed.

Lemma tl_max_ext (n : nat) (f g : vec) :
  (forall c, (c < n)%nat -> f c = g c) -> tl_max n f = tl_max n g.
Proof.
  induction n as [| n IH]; intros H; cbn [tl_max]; [reflexivity |].
  rewrite IH by (intros; apply H; lia). now rewrite H by lia.
Qed.

(** A masked score meets every finite Value entry the same way. *)
Lemma masked_weight_mul (m x y : fval) :
  FP.is_finite x -> FP.is_finite y ->
  FP.mul (FP.exp (FP.sub NInf m)) x = FP.mul (FP.exp (FP.sub NInf m)) y.
Proof.
  intros Hx Hy.
  destruct (is_finite_inv _ Hx) as [a ->], (is_finite_inv _ Hy) as [b ->].
  destruct m; cbn; try reflexivity; f_equal; lra.
Qed.

Section ForwardStep.

Variables q_ptr k_ptr v_ptr : buf.
Variables seq_len head_dim : Z.
Variables q_st k_st v_st : Strides.
Variable scale : fval.
Variables BLOCK_SIZE_M BLOCK_SIZE_N BLOCK_SIZE_K : nat.
Variable IS_CAUSAL : bool.
Variables batch_id head_id m_id : Z.

Local Notation "'step'" :=
  (fwd_step q_ptr k_ptr v_ptr seq_len head_dim q_st k_st v_st scale
     BLOCK_SIZE_M BLOCK_SIZE_N BLOCK_SIZE_K IS_CAUSAL batch_id head_id m_id).
Local Notation "'scores'" :=
  (fwd_scores q_ptr k_ptr seq_len head_dim q_st k_st scale
     BLOCK_SIZE_M BLOCK_SIZE_K IS_CAUSAL batch_id head_id m_id).
Local Notation "'v_block'" :=
  (fwd_v_block v_ptr seq_len head_dim v_st batch_id head_id).

Lemma fwd_step_m_i st start_n r :
  m_i (step st start_n) r
  = FP.max (m_i st r) (tl_max BLOCK_SIZE_N (scores start_n r)).
Proof. reflexivity. Qed.

Lemma fwd_step_l_i st start_n r :
  l_i (step st start_n) r
  = FP.add
      (FP.mul (FP.exp (FP.sub (m_i st r) (m_i (step st start_n) r)))
         (l_i st r))
      (tl_sum BLOCK_SIZE_N
         (fun c =>
            FP.exp (FP.sub (scores start_n r c) (m_i (step st start_n) r)))).
Proof. reflexivity. Qed.

Lemma fwd_step_acc st start_n r j :
  acc (step st start_n) r j
  = FP.add
      (FP.mul (FP.exp (FP.sub (m_i st r) (m_i (step st start_n) r)))
         (acc st r j))
      (tl_sum BLOCK_SIZE_N
         (fun c =>
            FP.mul
              (FP.exp
                 (FP.sub (scores start_n r c) (m_i (step st start_n) r)))
              (v_block start_n c j))).
Proof. reflexivity. Qed.

End ForwardStep.

Section CausalInvariance.

Variables q_ptr k1 k2 v1 v2 : buf.
Variables seq_len head_dim : Z.
Variables q_st k_st v_st : Strides.
Variable scale : fval.
Variables BLOCK_SIZE_M BLOCK_SIZE_N BLOCK_SIZE_K : nat.
Variables batch_id head_id m_id : Z.
Variable r : nat.

Local Notation "'row'" := (fwd_row_indices BLOCK_SIZE_M m_id r).

Hypothesis Hk :
  agree_upto k1 k2 (batch_id * batch_stride k_st)
    (head_id * head_stride k_st) k_st row seq_len head_dim.
Hypothesis Hv :
  agree_upto v1 v2 (batch_id * batch_stride v_st)
    (head_id * head_stride v_st) v_st row seq_len head_dim.
Hypothesis Hv1 :
  finite_after v1 (batch_id * batch_stride v_st)
    (head_id * head_stride v_st) v_st row seq_len head_dim.
Hypothesis Hv2 :
  finite_after v2 (batch_id * batch_stride v_st)
    (head_id * head_stride v_st) v_st row seq_len head_dim.

Local Notation "'step1'" :=
  (fwd_step q_ptr k1 v1 seq_len head_dim q_st k_st v_st scale
     BLOCK_SIZE_M BLOCK_SIZE_N BLOCK_SIZE_K true batch_id head_id m_id).
Local Notation "'step2'" :=
  (fwd_step q_ptr k2 v2 seq_len head_dim q_st k_st v_st scale
     BLOCK_SIZE_M BLOCK_SIZE_N BLOCK_SIZE_K true batch_id head_id m_id).
Local Notation "'scores1'" :=
  (fwd_scores q_ptr k1 seq_len head_dim q_st k_st scale
     BLOCK_SIZE_M BLOCK_SIZE_K true batch_id head_id m_id).
Local Notation "'scores2'" :=
  (fwd_scores q_ptr k2 seq_len head_dim q_st k_st scale
     BLOCK_SIZE_M BLOCK_SIZE_K true batch_id head_id m_id).

Lemma causal_scores_eq start_n c :
  0 <= start_n -> scores1 start_n r c = scores2 start_n r c.
Proof.
  intros Hs. unfold fwd_scores, tl_where.
  destruct (Z.geb_spec row (start_n + Z.of_nat c)) as [Hge | Hlt];
    [| reflexivity].
  f_equal. apply tl_sum_ext. intros j _. f_equal.
  unfold load_block, tl_load.
  destruct (Z.ltb_spec (start_n + Z.of_nat c) seq_len) as [Hc | Hc];
    cbn [andb]; [| reflexivity].
  destruct (Z.ltb_spec (Z.of_nat j) head_dim); [| reflexivity].
  apply Hk; lia.
Qed.

Lemma causal_scores_masked start_n c :
  row < start_n + Z.of_nat c -> scores1 start_n r c = NInf.
Proof.
  intros Hlt. unfold fwd_scores, tl_where.
  destruct (Z.geb_spec row (start_n + Z.of_nat c)); [lia | reflexivity].
Qed.

Lemma causal_step_row_eq st1 st2 start_n :
  0 <= start_n ->
  m_i st1 r = m_i st2 r -> l_i st1 r = l_i st2 r ->
  (forall j, acc st1 r j = acc st2 r j) ->
  m_i (step1 st1 start_n) r = m_i (step2 st2 start_n) r /\
  l_i (step1 st1 start_n) r = l_i (step2 st2 start_n) r /\
  (forall j, acc (step1 st1 start_n) r j = acc (step2 st2 start_n) r j).
Proof.
  intros Hs Em El Eacc.
  assert (m_i (step1 st1 start_n) r = m_i (step2 st2 start_n) r) as Em'.
  { rewrite !fwd_step_m_i, Em. f_equal. apply tl_max_ext.
    intros c _. now apply causal_scores_eq. }
  split; [exact Em' | split].
  - rewrite !fwd_step_l_i, Em', Em, El. f_equal. apply tl_sum_ext.
    intros c _. now rewrite causal_scores_eq.
  - intros j. rewrite !fwd_step_acc, Em', Em, Eacc. f_equal.
    apply tl_sum_ext. intros c _.
    rewrite <- causal_scores_eq by assumption.
    destruct (Z.le_gt_cases (start_n + Z.of_nat c) row) as [Hle | Hgt].
    + f_equal. unfold fwd_v_block, load_block, tl_load.
      destruct (Z.ltb_spec (start_n + Z.of_nat c) seq_len); cbn [andb];
        [| reflexivity].
      destruct (Z.ltb_spec (Z.of_nat j) head_dim); [| reflexivity].
      apply Hv; lia.
    + rewrite causal_scores_masked by lia.
      apply masked_weight_mul;
        unfold fwd_v_block, load_block, tl_load;
        (destruct (Z.ltb_spec (start_n + Z.of_nat c) seq_len); cbn [andb];
         [| exact I]);
        (destruct (Z.ltb_spec (Z.of_nat j) head_dim); [| exact I]).
      * apply Hv1; lia.
      * apply Hv2; lia.
Qed.

Lemma causal_fold_row_eq (l : list Z) :
  forall st1 st2,
    (forall x, In x l -> 0 <= x) ->
    m_i st1 r = m_i st2 r -> l_i st1 r = l_i st2 r ->
    (forall j, acc st1 r j = acc st2 r j) ->
    m_i (fold_left step1 l st1) r = m_i (fold_left step2 l st2) r /\
    l_i (fold_left step1 l st1) r = l_i (fold_left step2 l st2) r /\
    (forall j, acc (fold_left step1 l st1) r j
               = acc (fold_left step2 l st2) r j).
Proof.
  induction l as [| x l IH]; intros st1 st2 Hl Em El Eacc; cbn [fold_left].
  - auto.
  - destruct (causal_step_row_eq st1 st2 x) as (Em' & El' & Eacc');
      try assumption; [apply Hl; now left |].
    apply IH; try assumption. intros y Hy. apply Hl. now right.
Qed.

(** C6 (amended): with [IS_CAUSAL] set, the running maximum, the running
    sum and the output row that [flash_attn_v2_forward] computes for a row
    are the same for two Key buffers and two Value buffers that agree at
    the positions up to the row's own, whatever the Key entries at later
    positions are, provided the Value entries at later positions are
    finite in both. *)
Theorem causal_output_ignores_later_positions :
  m_i (fwd_loop q_ptr k1 v1 seq_len head_dim q_st k_st v_st scale
         BLOCK_SIZE_M BLOCK_SIZE_N BLOCK_SIZE_K true batch_id head_id m_id) r
  = m_i (fwd_loop q_ptr k2 v2 seq_len head_dim q_st k_st v_st scale
           BLOCK_SIZE_M BLOCK_SIZE_N BLOCK_SIZE_K true batch_id head_id m_id) r
  /\
  l_i (fwd_loop q_ptr k1 v1 seq_len head_dim q_st k_st v_st scale
         BLOCK_SIZE_M BLOCK_SIZE_N BLOCK_SIZE_K true batch_id head_id m_id) r
  = l_i (fwd_loop q_ptr k2 v2 seq_len head_dim q_st k_st v_st scale
           BLOCK_SIZE_M BLOCK_SIZE_N BLOCK_SIZE_K true batch_id head_id m_id) r
  /\
  forall j : nat,
    fwd_out q_ptr k1 v1 seq_len head_dim q_st k_st v_st scale
      BLOCK_SIZE_M BLOCK_SIZE_N BLOCK_SIZE_K true batch_id head_id m_id r j
    = fwd_out q_ptr k2 v2 seq_len head_dim q_st k_st v_st scale
        BLOCK_SIZE_M BLOCK_SIZE_N BLOCK_SIZE_K true batch_id head_id m_id r j.
Proof.
  destruct (Z.le_gt_cases 0 (Z.of_nat BLOCK_SIZE_N)) as [HBN | HBN]; [| lia].
  destruct (causal_fold_row_eq (py_range seq_len (Z.of_nat BLOCK_SIZE_N))
              (fwd_init) (fwd_init)) as (Em & El & Eacc);
    try reflexivity.
  { intros x Hx. now apply (py_range_nonneg seq_len (Z.of_nat BLOCK_SIZE_N)). }
  split; [exact Em | split; [exact El |]].
  intros j. unfold fwd_out, fwd_loop. now rewrite El, Eacc.
Qed.

End CausalInvariance.


Ltac fp_eval :=
  cbv -[Rplus Rmult Rminus Ropp Rdiv Rinv exp Rmax IZR Req_dec_T Rlt_dec].

Ltac fp_norm :=
  repeat match goal with
  | |- context [Rmax ?a ?b] => rewrite (Rmax_left a b) by lra
  | |- context [Rmax ?a ?b] => rewrite (Rmax_right a b) by lra
  | |- context [exp ?a] =>
      replace (exp a) with 1%R
        by (replace a with 0%R by lra; symmetry; apply exp_0)
  end.

Ltac fp_dec :=
  repeat match goal with
  | |- context [Req_dec_T ?a ?b] =>
      destruct (Req_dec_T a b); [exfalso; lra |]
  | |- context [Req_dec_T ?a ?b] =>
      destruct (Req_dec_T a b); [| exfalso; lra]
  end.

Ltac fp_crush := fp_eval; fp_norm; fp_dec; try reflexivity; try (f_equal; lra).

(** C2 (the code at a failing input): one position, one feature, tile size
    2, [causal = false], Query = Key = 0, Value = 1.  The padded key lane
    has score 0 and is counted in the running sum, so the forward call
    stores Output = 1/2; the reference softmax attention is 1. *)
Theorem forward_padded_tile_differs_from_reference :
  forall raw : Uninit,
  exists (o : Tensor) (ctx : Ctx),
    FlashAttentionV2_forward raw q_zero q_zero v_one (Fin 1) false 2
    = Ok (o, ctx) /\
    data o 0 = Fin (1 / 2) /\
    attention_ref 1 1%nat 1%nat (slice0 q_zero) (slice0 q_zero) (slice0 v_one) 0%nat 0%nat
    = 1%R.
Proof.
  intros raw. eexists. eexists. split; [| split].
  - cbv -[Rplus Rmult Rminus Ropp Rdiv Rinv exp Rmax IZR Req_dec_T Rlt_dec
           flash_attn_v2_forward launch].
    reflexivity.
  - fp_crush.
  - fp_eval. fp_norm. lra.
Qed.

(** C1 (the code at a failing input): whatever the allocations held
    before, after the forward call the retained tensors M and L still hold
    exactly that, while the kernel's final running maximum and running sum
    for row (0, 0, 0) are both 1; the kernel stored them at offsets 1 and 2
    of the allocation of the output tensor instead. *)
Theorem forward_statistics_never_stored :
  forall raw : Uninit,
  exists (o : Tensor) (ctx : Ctx),
    FlashAttentionV2_forward raw q_one q_one v_one (Fin 1) false 1
    = Ok (o, ctx) /\
    data (saved_m ctx) = raw_m raw /\
    data (saved_l ctx) = raw_l raw /\
    m_i (fwd_loop (data q_one) (data q_one) (data v_one) 1 1
           (mkStrides 1 1 1 1) (mkStrides 1 1 1 1) (mkStrides 1 1 1 1)
           (Fin 1) 1%nat 1%nat 1%nat false 0 0 0) 0%nat = Fin 1 /\
    l_i (fwd_loop (data q_one) (data q_one) (data v_one) 1 1
           (mkStrides 1 1 1 1) (mkStrides 1 1 1 1) (mkStrides 1 1 1 1)
           (Fin 1) 1%nat 1%nat 1%nat false 0 0 0) 0%nat = Fin 1 /\
    data o 1 = Fin 1 /\ data o 2 = Fin 1.
Proof.
  intros raw. eexists. eexists. split.
  - cbv -[Rplus Rmult Rminus Ropp Rdiv Rinv exp Rmax IZR Req_dec_T Rlt_dec
           flash_attn_v2_forward launch].
    reflexivity.
  - repeat split; fp_crush.
Qed.

Ltac run_dispatch :=
  cbv -[Rplus Rmult Rminus Ropp Rdiv Rinv exp Rmax IZR Req_dec_T Rlt_dec
         flash_attn_v2_forward flash_attn_v2_backward_preprocess
         flash_attn_v2_backward_dq flash_attn_v2_backward_dkv launch];
  reflexivity.

Lemma ref_loss_in_v00 (x : R) :
  ref_loss 1 2 1 (slice0 zeros_1121) (slice0 zeros_1121) (v_at x)
    (slice0 ones_1121) = (x + 1)%R.
Proof. fp_eval. fp_norm. lra. Qed.




(** C6 (counterexample): shape [1, 1, 2, 1], tile size 2, [causal = true].
    Replacing Value at position 1 by NaN changes Output at row 0 from 1 to
    NaN: the masked score gives the weight 0, and 0 * NaN = NaN reaches
    the accumulator. *)
Lemma causal_output_changes_with_later_nan :
  exists o1 o2 : Tensor, exists c1 c2 : Ctx,
    FlashAttentionV2_forward raw0 zeros_1121 zeros_1121 (v_with (Fin 1))
      (Fin 1) true 2 = Ok (o1, c1) /\
    FlashAttentionV2_forward raw0 zeros_1121 zeros_1121 (v_with NaN)
      (Fin 1) true 2 = Ok (o2, c2) /\
    (forall a : Z, a <> 1 -> data (v_with (Fin 1)) a = data (v_with NaN) a) /\
    data o1 0 = Fin 1 /\
    data o2 0 = NaN.
Proof.
  do 4 eexists.
  split; [run_dispatch |]. split; [run_dispatch |].
  split.
  - intros a Ha. unfold v_with, dense, data, upd.
    destruct (Z.eqb_spec a 1); [contradiction | reflexivity].
  - split; fp_crush.
Qed.



(** C10: replacing the tensor L held in the context by any other tensor
    leaves the three gradients returned by the backward call unchanged. *)
Theorem backward_ignores_l (raw : Uninit) (ctx : Ctx) (do l' : Tensor) :
  FlashAttentionV2_backward raw (with_saved_l ctx l') do
  = FlashAttentionV2_backward raw ctx do.
Proof. reflexivity. Qed.

(** ** Instances *)


(** ** The running sum over arbitrary values *)

Lemma tl_sum_nan (n : nat) (f : vec) (c : nat) :
  (c < n)%nat -> f c = NaN -> tl_sum n f = NaN.
Proof.
  induction n as [| n IH]; intros Hc E; [lia |]. cbn [tl_sum].
  destruct (Nat.eq_dec c n) as [-> | Hne].
  - rewrite E. now destruct (tl_sum n f).
  - rewrite IH by (assumption || lia). reflexivity.
Qed.

Lemma tl_max_nan (n : nat) (f : vec) (c : nat) :
  (c < n)%nat -> f c = NaN -> tl_max n f = NaN.
Proof.
  induction n as [| n IH]; intros Hc E; [lia |]. cbn [tl_max].
  destruct (Nat.eq_dec c n) as [-> | Hne].
  - rewrite E. now destruct (tl_max n f).
  - rewrite IH by (assumption || lia). reflexivity.
Qed.

Lemma tl_max_pinf (n : nat) (f : vec) (c : nat) :
  (c < n)%nat -> f c = PInf -> tl_max n f = PInf \/ tl_max n f = NaN.
Proof.
  induction n as [| n IH]; intros Hc E; [lia |]. cbn [tl_max].
  destruct (Nat.eq_dec c n) as [-> | Hne].
  - rewrite E. destruct (tl_max n f); auto.
  - destruct IH as [-> | ->]; try (assumption || lia);
      destruct (f n); auto.
Qed.

(** The lanes of a row are all finite or masked, or one of them is NaN or
    plus infinity. *)
Lemma lanes_cases (n : nat) (f : vec) :
  (forall c, (c < n)%nat -> fin_or_ninf (f c)) \/
  (exists c, (c < n)%nat /\ (f c = NaN \/ f c = PInf)).
Proof.
  induction n as [| n [IH | (c & Hc & H)]].
  - left. intros; lia.
  - destruct (f n) eqn:E.
    + left. intros c Hc. destruct (Nat.eq_dec c n) as [-> | ?];
        [rewrite E; now right | apply IH; lia].
    + right. exists n. split; [lia | now right].
    + left. intros c Hc. destruct (Nat.eq_dec c n) as [-> | ?];
        [rewrite E; now left | apply IH; lia].
    + right. exists n. split; [lia | now left].
  - right. exists c. split; [lia | assumption].
Qed.

(** One rescaling step on one row, whatever the scores are: the running
    sum becomes NaN, or it is finite and at least 1 beside a finite
    running maximum. *)
Lemma online_step_any (m l : fval) (sc : vec) (n : nat) :
  (0 < n)%nat ->
  (l = NaN \/ (m = NInf /\ l = Fin 0) \/
   (exists a x, m = Fin a /\ l = Fin x /\ (1 <= x)%R)) ->
  FP.add (FP.mul (FP.exp (FP.sub m (FP.max m (tl_max n sc)))) l)
    (tl_sum n (fun c => FP.exp (FP.sub (sc c) (FP.max m (tl_max n sc)))))
  = NaN \/
  exists a' x',
    FP.max m (tl_max n sc) = Fin a' /\
    FP.add (FP.mul (FP.exp (FP.sub m (FP.max m (tl_max n sc)))) l)
      (tl_sum n (fun c => FP.exp (FP.sub (sc c) (FP.max m (tl_max n sc)))))
    = Fin x' /\ (1 <= x')%R.
Proof.
  intros Hn Hst.
  assert (forall a b : fval, FP.add a NaN = NaN) as add_nan
    by (intros a _; now destruct a).
  assert (forall a : fval, FP.mul a NaN = NaN) as mul_nan
    by (intros a; now destruct a).
  destruct Hst as [-> | Hst].
  { left. now rewrite mul_nan. }
  destruct (lanes_cases n sc) as [Hsc | (c & Hc & Hbad)].
  - destruct (tl_max_cases n sc Hsc) as [[ET Hall] | (M & ET & (c & Hc & Ec) & _)].
    + destruct Hst as [(-> & ->) | Hgood].
      * left. rewrite ET. cbn [FP.max].
        rewrite (tl_sum_nan n _ 0%nat Hn); [apply (add_nan _ NaN) |].
        now rewrite Hall.
      * destruct (online_step_good m l sc n Hsc (or_intror Hgood))
          as (a' & x' & al & E1 & E2 & Hx & _).
        right. eauto.
    + destruct (online_step_good m l sc n Hsc) as (a' & x' & al & E1 & E2 & Hx & _).
      * destruct Hst as [(-> & ->) | Hgood]; [left | now right].
        split; [reflexivity | split; [reflexivity |]].
        exists c. split; [assumption | rewrite Ec; exact I].
      * right. eauto.
  - left.
    assert (exists c' , (c' < n)%nat /\
              FP.exp (FP.sub (sc c') (FP.max m (tl_max n sc))) = NaN)
      as (c' & Hc' & E).
    { destruct Hbad as [E | E].
      - rewrite (tl_max_nan n sc c Hc E).
        exists c. split; [assumption |]. rewrite E. now destruct m.
      - destruct (tl_max_pinf n sc c Hc E) as [-> | ->];
          exists c; (split; [assumption |]); rewrite E;
          destruct Hst as [(-> & _) | (a & x & -> & _)]; reflexivity. }
    rewrite (tl_sum_nan n _ c' Hc' E). apply (add_nan _ NaN).
Qed.

Section RunningSumNeverZero.

Variables q_ptr k_ptr v_ptr : buf.
Variables seq_len head_dim : Z.
Variables q_st k_st v_st : Strides.
Variable scale : fval.
Variables BLOCK_SIZE_M BLOCK_SIZE_N BLOCK_SIZE_K : nat.
Variable IS_CAUSAL : bool.
Variables batch_id head_id m_id : Z.

Hypothesis Hseq : 0 < seq_len.
Hypothesis HBN : (0 < BLOCK_SIZE_N)%nat.

Local Notation "'step'" :=
  (fwd_step q_ptr k_ptr v_ptr seq_len head_dim q_st k_st v_st scale
     BLOCK_SIZE_M BLOCK_SIZE_N BLOCK_SIZE_K IS_CAUSAL batch_id head_id m_id).

Lemma fwd_step_sum_any st start_n r :
  (l_i st r = NaN \/ (m_i st r = NInf /\ l_i st r = Fin 0) \/
   (exists a x, m_i st r = Fin a /\ l_i st r = Fin x /\ (1 <= x)%R)) ->
  l_i (step st start_n) r = NaN \/
  exists a x,
    m_i (step st start_n) r = Fin a /\ l_i (step st start_n) r = Fin x /\
    (1 <= x)%R.
Proof.
  intros Hst. rewrite fwd_step_l_i, fwd_step_m_i.
  now apply online_step_any.
Qed.

Lemma fwd_fold_sum_any (l : list Z) :
  forall st r,
    (l_i st r = NaN \/
     exists a x, m_i st r = Fin a /\ l_i st r = Fin x /\ (1 <= x)%R) ->
    l_i (fold_left step l st) r = NaN \/
    exists a x,
      m_i (fold_left step l st) r = Fin a /\
      l_i (fold_left step l st) r = Fin x /\ (1 <= x)%R.
Proof.
  induction l as [| x l IH]; intros st r Hst; cbn [fold_left].
  - assumption.
  - apply IH. apply fwd_step_sum_any. tauto.
Qed.

(** For arbitrary contents of the Query, Key and Value buffers and an
    arbitrary scale, non-finite values included, the running sum by which
    [flash_attn_v2_forward] divides is never zero: it is NaN, or finite and
    at least 1 beside a finite running maximum. *)
Theorem forward_running_sum_never_zero (r : nat) :
  l_i (fwd_loop q_ptr k_ptr v_ptr seq_len head_dim q_st k_st v_st scale
         BLOCK_SIZE_M BLOCK_SIZE_N BLOCK_SIZE_K IS_CAUSAL
         batch_id head_id m_id) r = NaN \/
  exists a x : R,
    m_i (fwd_loop q_ptr k_ptr v_ptr seq_len head_dim q_st k_st v_st scale
           BLOCK_SIZE_M BLOCK_SIZE_N BLOCK_SIZE_K IS_CAUSAL
           batch_id head_id m_id) r = Fin a /\
    l_i (fwd_loop q_ptr k_ptr v_ptr seq_len head_dim q_st k_st v_st scale
           BLOCK_SIZE_M BLOCK_SIZE_N BLOCK_SIZE_K IS_CAUSAL
           batch_id head_id m_id) r = Fin x /\
    (1 <= x)%R.
Proof.
  unfold fwd_loop.
  destruct (py_range_head seq_len (Z.of_nat BLOCK_SIZE_N)) as [tl E];
    [assumption | lia |].
  rewrite E. cbn [fold_left].
  apply fwd_fold_sum_any. apply fwd_step_sum_any.
  right. left. split; reflexivity.
Qed.

End RunningSumNeverZero.


Lemma causal_output_ignores_later_positions_witness :
  agree_upto (const_buf (Fin 1)) k_late (0 * batch_stride st_1121)
    (0 * head_stride st_1121) st_1121 (fwd_row_indices 2 0 0) 2 1 /\
  agree_upto (const_buf (Fin 1)) v_late (0 * batch_stride st_1121)
    (0 * head_stride st_1121) st_1121 (fwd_row_indices 2 0 0) 2 1 /\
  finite_after (const_buf (Fin 1)) (0 * batch_stride st_1121)
    (0 * head_stride st_1121) st_1121 (fwd_row_indices 2 0 0) 2 1 /\
  finite_after v_late (0 * batch_stride st_1121)
    (0 * head_stride st_1121) st_1121 (fwd_row_indices 2 0 0) 2 1 /\
  k_late 1 <> const_buf (Fin 1) 1 /\
  forall j : nat,
    fwd_out (const_buf (Fin 1)) (const_buf (Fin 1)) (const_buf (Fin 1))
      2 1 st_1121 st_1121 st_1121 (Fin 1) 2 2 1 true 0 0 0 0%nat j
    = fwd_out (const_buf (Fin 1)) k_late v_late
        2 1 st_1121 st_1121 st_1121 (Fin 1) 2 2 1 true 0 0 0 0%nat j.
Proof.
  assert (forall b : buf, b 0 = Fin 1 ->
          agree_upto (const_buf (Fin 1)) b (0 * batch_stride st_1121)
            (0 * head_stride st_1121) st_1121 (fwd_row_indices 2 0 0) 2 1)
    as Hagree.
  { intros b Hb j c H1 H2 H3 H4.
    change (fwd_row_indices 2 0 0) with 0 in H2.
    assert (j = 0) as -> by lia. assert (c = 0) as -> by lia.
    symmetry. exact Hb. }
  assert (finite_after (const_buf (Fin 1)) (0 * batch_stride st_1121)
            (0 * head_stride st_1121) st_1121 (fwd_row_indices 2 0 0) 2 1)
    as Hf1 by (intros j c _ _ _; exact I).
  assert (finite_after v_late (0 * batch_stride st_1121)
            (0 * head_stride st_1121) st_1121 (fwd_row_indices 2 0 0) 2 1)
    as Hf2.
  { intros j c _ _ _. unfold v_late, upd. destruct (_ =? 1); exact I. }
  split; [apply Hagree; reflexivity |].
  split; [apply Hagree; reflexivity |].
  split; [exact Hf1 |]. split; [exact Hf2 |].
  split.
  - unfold k_late, upd, const_buf. cbn. intros E. injection E as E. lra.
  - apply (causal_output_ignores_later_positions (const_buf (Fin 1))
             (const_buf (Fin 1)) k_late (const_buf (Fin 1)) v_late 2 1
             st_1121 st_1121 st_1121 (Fin 1) 2 2 1 0 0 0 0
             (Hagree k_late eq_refl) (Hagree v_late eq_refl) Hf1 Hf2).
Defined.


(** * Further properties of the kernels and the dispatcher *)

(** ** Real sums and the streaming softmax on one row *)

Lemma rsum_ext (n : nat) (f g : nat -> R) :
  (forall j, (j < n)%nat -> f j = g j) -> rsum n f = rsum n g.
Proof.
  induction n as [| n IH]; intros H; cbn [rsum]; [reflexivity |].
  rewrite IH by (intros; apply H; lia). now rewrite H by lia.
Qed.

Lemma rsum_split (n m : nat) (f : nat -> R) :
  rsum (n + m) f = (rsum n f + rsum m (fun c => f (n + c)%nat))%R.
Proof.
  induction m as [| m IH].
  - rewrite Nat.add_0_r. cbn [rsum]. lra.
  - replace (n + S m)%nat with (S (n + m)) by lia. cbn [rsum].
    rewrite IH. lra.
Qed.

Lemma rsum_scal (a : R) (n : nat) (f : nat -> R) :
  (a * rsum n f)%R = rsum n (fun j => a * f j)%R.
Proof.
  induction n as [| n IH]; cbn [rsum]; [lra |]. rewrite <- IH. lra.
Qed.

Lemma rsum_zero_tail (n m : nat) (f : nat -> R) :
  (n <= m)%nat -> (forall j, (n <= j)%nat -> f j = 0%R) ->
  rsum m f = rsum n f.
Proof.
  intros Hle Hz. induction m as [| m IH].
  - now replace n with 0%nat by lia.
  - destruct (Nat.eq_dec n (S m)) as [-> | Hne]; [reflexivity |].
    cbn [rsum]. rewrite IH by lia. rewrite Hz by lia. lra.
Qed.

Lemma rsum_nonneg (n : nat) (f : nat -> R) :
  (forall j, (j < n)%nat -> (0 <= f j)%R) -> (0 <= rsum n f)%R.
Proof.
  induction n as [| n IH]; intros H; cbn [rsum]; [lra |].
  specialize (IH (fun j Hj => H j (Nat.lt_lt_succ_r _ _ Hj))).
  specialize (H n (Nat.lt_succ_diag_r n)). lra.
Qed.

Lemma rsum_ge_term (n : nat) (f : nat -> R) (j : nat) :
  (forall k, (k < n)%nat -> (0 <= f k)%R) -> (j < n)%nat ->
  (f j <= rsum n f)%R.
Proof.
  induction n as [| n IH]; intros H Hj; [lia |]. cbn [rsum].
  destruct (Nat.eq_dec j n) as [-> | Hne].
  - assert (0 <= rsum n f)%R by (apply rsum_nonneg; intros; apply H; lia).
    lra.
  - assert (f j <= rsum n f)%R by (apply IH; [intros; apply H; lia | lia]).
    specialize (H n (Nat.lt_succ_diag_r n)). lra.
Qed.

(** [rmaxn] is the one upper bound of the first [n] values that is
    attained. *)
Lemma rmaxn_unique (n : nat) (f : nat -> R) (M : R) :
  (forall j, (j < n)%nat -> (f j <= M)%R) ->
  (exists j, (j < n)%nat /\ f j = M) ->
  rmaxn n f = M.
Proof.
  revert M. induction n as [| n IH]; intros M Hub (j & Hj & Ej); [lia |].
  cbn [rmaxn]. destruct n as [| n'].
  - now replace j with 0%nat in Ej by lia.
  - set (n := S n') in *.
    assert (exists j0, (j0 < n)%nat /\
              forall k, (k < n)%nat -> (f k <= f j0)%R) as (j0 & Hj0 & Hmax).
    { clear. subst n. induction n' as [| n' (j0 & Hj0 & Hmax)].
      - exists 0%nat. split; [lia |]. intros k Hk.
        replace k with 0%nat by lia. lra.
      - destruct (Rle_dec (f (S n')) (f j0)) as [Hle | Hgt].
        + exists j0. split; [lia |]. intros k Hk.
          destruct (Nat.eq_dec k (S n')) as [-> | ?];
            [assumption | apply Hmax; lia].
        + exists (S n'). split; [lia |]. intros k Hk.
          destruct (Nat.eq_dec k (S n')) as [-> | ?]; [lra |].
          assert (f k <= f j0)%R by (apply Hmax; lia). lra. }
    rewrite (IH (f j0)); [| assumption | eauto].
    assert (f j0 <= M)%R by (apply Hub; lia).
    assert (f n <= M)%R by (apply Hub; lia).
    destruct (Nat.eq_dec j n) as [-> | Hne].
    + rewrite Rmax_right by lra. assumption.
    + assert (f j <= f j0)%R by (apply Hmax; lia).
      rewrite Rmax_left by lra. lra.
Qed.

Lemma tl_sum_fin (n : nat) (f : vec) (g : nat -> R) :
  (forall c, (c < n)%nat -> f c = Fin (g c)) -> tl_sum n f = Fin (rsum n g).
Proof.
  induction n as [| n IH]; intros H; cbn [tl_sum rsum]; [reflexivity |].
  rewrite IH by (intros; apply H; lia). now rewrite H by lia.
Qed.

Lemma row_weight_rescale (P : nat) (sR : nat -> R) (M M' : R) (j : nat) :
  (exp (M + - M') * row_weight P sR M j)%R = row_weight P sR M' j.
Proof.
  unfold row_weight. destruct (j <? P)%nat; [| lra].
  rewrite <- exp_plus. f_equal. lra.
Qed.

Lemma lane_weight (P : nat) (sR : nat -> R) (M : R) (j : nat) :
  FP.exp (FP.sub (lane_score P sR j) (Fin M)) = Fin (row_weight P sR M j).
Proof.
  unfold lane_score, row_weight. destruct (j <? P)%nat; reflexivity.
Qed.

Lemma lane_score_fin_or_ninf (P : nat) (sR : nat -> R) (j : nat) :
  fin_or_ninf (lane_score P sR j).
Proof.
  unfold lane_score. destruct (j <? P)%nat; [now right | now left].
Qed.

Section OnlineSoftmax.

Variable P : nat.
Variable sR : nat -> R.
Variable Vv : nat -> nat -> R.
Variables N n : nat.
Variables m l : fval.
Variable a : vec.
Variable sc : vec.
Variable vb : tile.

Hypothesis Hsc : forall c, (c < n)%nat -> sc c = lane_score P sR (N + c).
Hypothesis Hvb : forall c j, (c < n)%nat -> vb c j = Fin (Vv (N + c)%nat j).

Let m' : fval := FP.max m (tl_max n sc).
Let alpha : fval := FP.exp (FP.sub m m').
Let p : vec := fun c => FP.exp (FP.sub (sc c) m').
Let l' : fval := FP.add (FP.mul alpha l) (tl_sum n p).
Let a' : vec := fun j =>
  FP.add (FP.mul alpha (a j)) (tl_sum n (fun c => FP.mul (p c) (vb c j))).

Lemma online_tile_sums (M' : R) :
  m' = Fin M' ->
  tl_sum n p = Fin (rsum n (fun c => row_weight P sR M' (N + c))) /\
  forall j,
    tl_sum n (fun c => FP.mul (p c) (vb c j))
    = Fin (rsum n (fun c =>
             row_weight P sR M' (N + c) * Vv (N + c)%nat j)%R).
Proof.
  intros Em. split.
  - apply tl_sum_fin. intros c Hc. unfold p. rewrite Em, Hsc by assumption.
    apply lane_weight.
  - intros j. apply tl_sum_fin. intros c Hc. unfold p.
    rewrite Em, Hsc, Hvb by assumption. now rewrite lane_weight.
Qed.

(** The maximum after the tile: an attained upper bound of the valid
    scores below [N + n]. *)
Lemma online_max_first :
  (0 < n)%nat -> (0 < P)%nat -> N = 0%nat -> m = NInf ->
  exists M', m' = Fin M' /\
    (forall j, (j < N + n)%nat -> (j < P)%nat -> (sR j <= M')%R) /\
    (exists j, (j < N + n)%nat /\ (j < P)%nat /\ sR j = M').
Proof.
  intros Hn HP -> ->. unfold m'.
  assert (forall c, (c < n)%nat -> fin_or_ninf (sc c)) as Hf
    by (intros c Hc; rewrite Hsc by assumption; apply lane_score_fin_or_ninf).
  destruct (tl_max_cases n sc Hf) as [[_ Hall] | (T & -> & (c & Hc & Ec) & Hb)].
  - specialize (Hall 0%nat Hn). rewrite Hsc in Hall by assumption.
    unfold lane_score in Hall. cbn [Nat.add] in Hall.
    destruct (Nat.ltb_spec 0 P); [discriminate | lia].
  - exists T. split; [reflexivity | split].
    + intros j Hj HjP. apply (Hb j); [lia |].
      rewrite Hsc by lia. unfold lane_score. cbn [Nat.add].
      destruct (Nat.ltb_spec j P); [reflexivity | lia].
    + exists c. rewrite Hsc in Ec by assumption. unfold lane_score in Ec.
      cbn [Nat.add] in Ec. destruct (Nat.ltb_spec c P); [| discriminate].
      injection Ec as Ec. repeat split; (lia || assumption).
Qed.

Lemma online_max_next (M : R) :
  m = Fin M ->
  (forall j, (j < N)%nat -> (j < P)%nat -> (sR j <= M)%R) ->
  (exists j, (j < N)%nat /\ (j < P)%nat /\ sR j = M) ->
  exists M', m' = Fin M' /\ (M <= M')%R /\
    (forall j, (j < N + n)%nat -> (j < P)%nat -> (sR j <= M')%R) /\
    (exists j, (j < N + n)%nat /\ (j < P)%nat /\ sR j = M').
Proof.
  intros -> Hub (j0 & Hj0 & Hj0P & Ej0). unfold m'.
  assert (forall c, (c < n)%nat -> fin_or_ninf (sc c)) as Hf
    by (intros c Hc; rewrite Hsc by assumption; apply lane_score_fin_or_ninf).
  assert (forall j, (N <= j)%nat -> (j < N + n)%nat -> (j < P)%nat ->
          sc (j - N)%nat = Fin (sR j)) as Hlane.
  { intros j H1 H2 H3. rewrite Hsc by lia.
    replace (N + (j - N))%nat with j by lia. unfold lane_score.
    destruct (Nat.ltb_spec j P); [reflexivity | lia]. }
  destruct (tl_max_cases n sc Hf) as [[-> Hall] | (T & -> & (c & Hc & Ec) & Hb)].
  - exists M. cbn [FP.max]. split; [reflexivity | split; [lra | split]].
    + intros j Hj HjP. destruct (Nat.lt_ge_cases j N) as [? | Hge];
        [now apply Hub |].
      specialize (Hall (j - N)%nat ltac:(lia)).
      rewrite (Hlane j) in Hall by lia. discriminate.
    + exists j0. repeat split; (lia || assumption).
  - exists (Rmax M T). cbn [FP.max].
    split; [reflexivity | split; [apply Rmax_l | split]].
    + intros j Hj HjP. destruct (Nat.lt_ge_cases j N) as [? | Hge].
      * apply Rle_trans with M; [now apply Hub | apply Rmax_l].
      * apply Rle_trans with T; [| apply Rmax_r].
        apply (Hb (j - N)%nat); [lia |]. apply (Hlane j); lia.
    + unfold Rmax. destruct (Rle_dec M T).
      * exists (N + c)%nat. rewrite Hsc in Ec by assumption.
        unfold lane_score in Ec.
        destruct (Nat.ltb_spec (N + c) P); [| discriminate].
        injection Ec as Ec. repeat split; (lia || assumption).
      * exists j0. repeat split; (lia || assumption).
Qed.

(** One iteration of the loop keeps the sums of the row. *)
Lemma online_softmax_step :
  ((0 < n)%nat /\ (0 < P)%nat /\ N = 0%nat /\ m = NInf /\ l = Fin 0 /\
   (forall j, a j = Fin 0))
  \/ row_sums P sR Vv N m l a ->
  row_sums P sR Vv (N + n) m' l' a'.
Proof.
  intros [(Hn & HP & EN & Em & El & Ea) | (M & Em & Hub & Hatt & El & Ea)].
  - destruct (online_max_first Hn HP EN Em) as (M' & Em' & Hub' & Hatt').
    destruct (online_tile_sums M' Em') as (Ep & Epv).
    exists M'. split; [assumption | split; [assumption | split; [assumption |]]].
    assert (alpha = Fin 0) as Ealpha by (unfold alpha; now rewrite Em', Em).
    subst N. split.
    + unfold l'. rewrite Ealpha, El, Ep. cbn [FP.mul FP.add].
      f_equal. rewrite rsum_split. cbn [rsum]. lra.
    + intros j. unfold a'. rewrite Ealpha, Ea, Epv. cbn [FP.mul FP.add].
      f_equal. rewrite rsum_split. cbn [rsum]. lra.
  - destruct (online_max_next M Em Hub Hatt) as (M' & Em' & Hle & Hub' & Hatt').
    destruct (online_tile_sums M' Em') as (Ep & Epv).
    exists M'. split; [assumption | split; [assumption | split; [assumption |]]].
    assert (alpha = Fin (exp (M + - M'))) as Ealpha
      by (unfold alpha; now rewrite Em', Em).
    split.
    + unfold l'. rewrite Ealpha, El, Ep. cbn [FP.mul FP.add].
      f_equal. rewrite rsum_split, rsum_scal. f_equal.
      apply rsum_ext. intros j _. apply row_weight_rescale.
    + intros j. unfold a'. rewrite Ealpha, Ea, Epv. cbn [FP.mul FP.add].
      f_equal. rewrite rsum_split, rsum_scal. f_equal.
      apply rsum_ext. intros k _. rewrite <- Rmult_assoc.
      now rewrite row_weight_rescale.
Qed.

End OnlineSoftmax.

Lemma load_block_real ptr boff hoff st idx msk (S D : nat) (r j : nat) :
  finite_slice ptr boff hoff st (Z.of_nat S) (Z.of_nat D) ->
  (msk r = true -> exists i, idx r = Z.of_nat i /\ (i < S)%nat) ->
  load_block ptr boff hoff st idx msk (Z.of_nat D) r j
  = Fin (if msk r && (j <? D)%nat
         then to_R (ptr (boff + hoff + idx r * seq_stride st
                         + Z.of_nat j * head_dim_stride st))
         else 0%R).
Proof.
  intros Hf Hm. unfold load_block, tl_load.
  destruct (msk r); cbn [andb]; [| reflexivity].
  destruct (Hm eq_refl) as (i & Ei & Hi).
  destruct (Z.ltb_spec (Z.of_nat j) (Z.of_nat D)) as [Hj | Hj];
    destruct (Nat.ltb_spec j D) as [Hj' | Hj']; try lia; [| reflexivity].
  destruct (is_finite_inv _ (Hf (idx r) (Z.of_nat j) ltac:(lia) ltac:(lia)))
    as [x E].
  rewrite E. reflexivity.
Qed.

Lemma tl_dot_real (n D : nat) (a b : vec) (x y : nat -> R) :
  (D <= n)%nat ->
  (forall j, a j = Fin (if (j <? D)%nat then x j else 0%R)) ->
  (forall j, (j < D)%nat -> exists z, b j = Fin z /\ (z = y j)) ->
  (forall j, (D <= j)%nat -> exists z, b j = Fin z) ->
  tl_dot n a b = Fin (rsum D (fun j => x j * y j)%R).
Proof.
  intros Hle Ha Hb Hb'. unfold tl_dot.
  rewrite (tl_sum_fin n _
             (fun j => if (j <? D)%nat then (x j * y j)%R else 0%R)).
  - f_equal. rewrite (rsum_zero_tail D n) by
      (assumption || (intros j Hj; destruct (Nat.ltb_spec j D); [lia | reflexivity])).
    apply rsum_ext. intros j Hj.
    destruct (Nat.ltb_spec j D); [reflexivity | lia].
  - intros j _. rewrite Ha. destruct (Nat.ltb_spec j D) as [Hj | Hj].
    + destruct (Hb j Hj) as (z & -> & ->). reflexivity.
    + destruct (Hb' j Hj) as (z & ->). cbn. f_equal. lra.
Qed.

Lemma cdiv_covers (S BN : nat) :
  (0 < BN)%nat ->
  (S <= Z.to_nat ((Z.of_nat S + Z.of_nat BN - 1) / Z.of_nat BN) * BN)%nat.
Proof.
  intros HBN.
  assert (0 <= (Z.of_nat S + Z.of_nat BN - 1) / Z.of_nat BN)
    by (apply Z.div_pos; lia).
  assert (Z.of_nat S <=
          (Z.of_nat S + Z.of_nat BN - 1) / Z.of_nat BN * Z.of_nat BN).
  { pose proof (Z.mul_succ_div_gt (Z.of_nat S + Z.of_nat BN - 1)
                  (Z.of_nat BN)) as H1.
    specialize (H1 ltac:(lia)). nia. }
  nia.
Qed.

Lemma cdiv_exact (T BN : nat) :
  (0 < BN)%nat ->
  Z.to_nat ((Z.of_nat (T * BN) + Z.of_nat BN - 1) / Z.of_nat BN) = T.
Proof.
  intros HBN.
  replace (Z.of_nat (T * BN) + Z.of_nat BN - 1)
    with (Z.of_nat BN - 1 + Z.of_nat T * Z.of_nat BN) by lia.
  rewrite Z.div_add by lia.
  rewrite Z.div_small by lia. lia.
Qed.

Section ForwardReference.

Variables q_ptr k_ptr v_ptr : buf.
Variables S D : nat.
Variables q_st k_st v_st : Strides.
Variable s : R.
Variables BLOCK_SIZE_M BLOCK_SIZE_N BLOCK_SIZE_K : nat.
Variable IS_CAUSAL : bool.
Variables batch_id head_id m_id : Z.
Variables r i : nat.

Hypothesis HBN : (0 < BLOCK_SIZE_N)%nat.
Hypothesis HD : (D <= BLOCK_SIZE_K)%nat.
Hypothesis Hrow : fwd_row_indices BLOCK_SIZE_M m_id r = Z.of_nat i.
Hypothesis Hi : (i < S)%nat.
Hypothesis Hq :
  finite_slice q_ptr (batch_id * batch_stride q_st)
    (head_id * head_stride q_st) q_st (Z.of_nat S) (Z.of_nat D).
Hypothesis Hk :
  finite_slice k_ptr (batch_id * batch_stride k_st)
    (head_id * head_stride k_st) k_st (Z.of_nat S) (Z.of_nat D).
Hypothesis Hv :
  finite_slice v_ptr (batch_id * batch_stride v_st)
    (head_id * head_stride v_st) v_st (Z.of_nat S) (Z.of_nat D).

Local Notation "'Q'" :=
  (slice_R q_ptr (batch_id * batch_stride q_st) (head_id * head_stride q_st)
     q_st).
Local Notation "'K'" :=
  (slice_R k_ptr (batch_id * batch_stride k_st) (head_id * head_stride k_st)
     k_st).
Local Notation "'V'" :=
  (slice_R v_ptr (batch_id * batch_stride v_st) (head_id * head_stride v_st)
     v_st).
Local Notation "'sR'" := (ref_scores s D Q K i).
Local Notation "'scores'" :=
  (fwd_scores q_ptr k_ptr (Z.of_nat S) (Z.of_nat D) q_st k_st (Fin s)
     BLOCK_SIZE_M BLOCK_SIZE_K IS_CAUSAL batch_id head_id m_id).
Local Notation "'v_block'" :=
  (fwd_v_block v_ptr (Z.of_nat S) (Z.of_nat D) v_st batch_id head_id).
Local Notation "'step'" :=
  (fwd_step q_ptr k_ptr v_ptr (Z.of_nat S) (Z.of_nat D) q_st k_st v_st
     (Fin s) BLOCK_SIZE_M BLOCK_SIZE_N BLOCK_SIZE_K IS_CAUSAL
     batch_id head_id m_id).

Lemma fwd_q_block_real j :
  fwd_q_block q_ptr (Z.of_nat S) (Z.of_nat D) q_st BLOCK_SIZE_M
    batch_id head_id m_id r j
  = Fin (if (j <? D)%nat then Q i j else 0%R).
Proof.
  unfold fwd_q_block.
  assert (fwd_row_mask (Z.of_nat S) BLOCK_SIZE_M m_id r = true) as Em
    by (unfold fwd_row_mask; rewrite Hrow; apply Z.ltb_lt; lia).
  rewrite (load_block_real _ _ _ _ _ _ S D) by
    (assumption || (intros _; exists i; split; [exact Hrow | exact Hi])).
  rewrite Em, Hrow. reflexivity.
Qed.

(** The raw score of an in-range key position is the reference score. *)
Lemma fwd_raw_score_real (N c : nat) :
  (N + c < S)%nat ->
  FP.mul
    (tl_dot BLOCK_SIZE_K
       (fwd_q_block q_ptr (Z.of_nat S) (Z.of_nat D) q_st BLOCK_SIZE_M
          batch_id head_id m_id r)
       (load_block k_ptr (batch_id * batch_stride k_st)
          (head_id * head_stride k_st) k_st
          (fun c0 : nat => Z.of_nat N + Z.of_nat c0)
          (fun c0 : nat => Z.of_nat N + Z.of_nat c0 <? Z.of_nat S)
          (Z.of_nat D) c))
    (Fin s)
  = Fin (sR (N + c)%nat).
Proof.
  intros Hc.
  assert ((Z.of_nat N + Z.of_nat c <? Z.of_nat S) = true) as Em
    by (apply Z.ltb_lt; lia).
  rewrite (tl_dot_real BLOCK_SIZE_K D _ _ (Q i) (K (N + c)%nat)).
  - cbn [FP.mul]. unfold ref_scores. f_equal. lra.
  - exact HD.
  - apply fwd_q_block_real.
  - intros j Hj.
    rewrite (load_block_real _ _ _ _ _ _ S D) by
      (assumption || (intros _; exists (N + c)%nat; split; lia)).
    rewrite Em. cbn [andb].
    destruct (Nat.ltb_spec j D); [| lia].
    eexists. split; [reflexivity |]. unfold slice_R.
    now rewrite Nat2Z.inj_add.
  - intros j Hj.
    rewrite (load_block_real _ _ _ _ _ _ S D) by
      (assumption || (intros _; exists (N + c)%nat; split; lia)).
    eauto.
Qed.

Lemma fwd_scores_lane_noncausal (N c : nat) :
  IS_CAUSAL = false -> (N + c < S)%nat ->
  scores (Z.of_nat N) r c = lane_score S sR (N + c).
Proof.
  intros Ec Hc. unfold fwd_scores. rewrite Ec.
  rewrite fwd_raw_score_real by assumption.
  unfold lane_score. destruct (Nat.ltb_spec (N + c) S); [reflexivity | lia].
Qed.

Lemma fwd_scores_lane_causal (N c : nat) :
  IS_CAUSAL = true ->
  scores (Z.of_nat N) r c = lane_score (i + 1) sR (N + c).
Proof.
  intros Ec. unfold fwd_scores, tl_where, lane_score. rewrite Ec, Hrow.
  destruct (Z.geb_spec (Z.of_nat i) (Z.of_nat N + Z.of_nat c)) as [Hge | Hlt];
    destruct (Nat.ltb_spec (N + c) (i + 1)); try lia; [| reflexivity].
  apply fwd_raw_score_real. lia.
Qed.

Lemma fwd_v_block_real (N c j : nat) :
  v_block (Z.of_nat N) c j = Fin (zero_padded S D V (N + c)%nat j).
Proof.
  unfold fwd_v_block, zero_padded.
  rewrite (load_block_real _ _ _ _ _ _ S D).
  - destruct (Z.ltb_spec (Z.of_nat N + Z.of_nat c) (Z.of_nat S));
      destruct (Nat.ltb_spec (N + c) S); try lia; cbn [andb];
      [| reflexivity].
    destruct (j <? D)%nat; [| reflexivity].
    unfold slice_R. now rewrite Nat2Z.inj_add.
  - assumption.
  - intros H. apply Z.ltb_lt in H. exists (N + c)%nat. split; lia.
Qed.

Variable P : nat.
Hypothesis HP : (0 < P)%nat.
Hypothesis Hlanes :
  forall t c : nat,
    (t * BLOCK_SIZE_N < S)%nat -> (c < BLOCK_SIZE_N)%nat ->
    scores (Z.of_nat (t * BLOCK_SIZE_N)) r c
    = lane_score P sR (t * BLOCK_SIZE_N + c).

Lemma fwd_step_row_sums (t : nat) (st : fwd_state) :
  (t * BLOCK_SIZE_N < S)%nat ->
  (t = 0%nat /\ m_i st r = NInf /\ l_i st r = Fin 0 /\
   (forall j, acc st r j = Fin 0))
  \/ row_sums P sR (zero_padded S D V) (t * BLOCK_SIZE_N)
       (m_i st r) (l_i st r) (acc st r) ->
  row_sums P sR (zero_padded S D V) (Datatypes.S t * BLOCK_SIZE_N)
    (m_i (step st (Z.of_nat t * Z.of_nat BLOCK_SIZE_N)) r)
    (l_i (step st (Z.of_nat t * Z.of_nat BLOCK_SIZE_N)) r)
    (acc (step st (Z.of_nat t * Z.of_nat BLOCK_SIZE_N)) r).
Proof.
  intros Ht Hst.
  replace (Datatypes.S t * BLOCK_SIZE_N)%nat with (t * BLOCK_SIZE_N + BLOCK_SIZE_N)%nat
    by lia.
  rewrite <- Nat2Z.inj_mul.
  apply (online_softmax_step P sR (zero_padded S D V) (t * BLOCK_SIZE_N)
           BLOCK_SIZE_N (m_i st r) (l_i st r) (acc st r)
           (scores (Z.of_nat (t * BLOCK_SIZE_N)) r)
           (v_block (Z.of_nat (t * BLOCK_SIZE_N)))).
  - intros c Hc. now apply Hlanes.
  - intros c j _. apply fwd_v_block_real.
  - destruct Hst as [(-> & Em & El & Ea) | H]; [left | now right].
    repeat split; assumption.
Qed.

Lemma fwd_fold_row_sums (len : nat) :
  forall (t : nat) (st : fwd_state),
    (0 < len)%nat ->
    ((t + len - 1) * BLOCK_SIZE_N < S)%nat ->
    (t = 0%nat /\ m_i st r = NInf /\ l_i st r = Fin 0 /\
     (forall j, acc st r j = Fin 0))
    \/ row_sums P sR (zero_padded S D V) (t * BLOCK_SIZE_N)
         (m_i st r) (l_i st r) (acc st r) ->
    let st' :=
      fold_left step
        (map (fun t => Z.of_nat t * Z.of_nat BLOCK_SIZE_N) (seq t len)) st in
    row_sums P sR (zero_padded S D V) ((t + len) * BLOCK_SIZE_N)
      (m_i st' r) (l_i st' r) (acc st' r).
Proof.
  induction len as [| len IH]; intros t st Hlen Hlast Hst; [lia |].
  cbn [seq map fold_left].
  assert (row_sums P sR (zero_padded S D V) (Datatypes.S t * BLOCK_SIZE_N)
            (m_i (step st (Z.of_nat t * Z.of_nat BLOCK_SIZE_N)) r)
            (l_i (step st (Z.of_nat t * Z.of_nat BLOCK_SIZE_N)) r)
            (acc (step st (Z.of_nat t * Z.of_nat BLOCK_SIZE_N)) r)) as Hnext.
  { apply fwd_step_row_sums; [nia | assumption]. }
  destruct len as [| len'].
  - cbn [seq map fold_left]. now replace (t + 1)%nat with (Datatypes.S t) by lia.
  - replace (t + Datatypes.S (Datatypes.S len'))%nat
      with (Datatypes.S t + Datatypes.S len')%nat by lia.
    apply IH; [lia | | now right].
    replace (Datatypes.S t + Datatypes.S len' - 1)%nat
      with (t + Datatypes.S (Datatypes.S len') - 1)%nat by lia.
    assumption.
Qed.

Lemma row_sums_reference (N : nat) (m l : fval) (a : vec) :
  (P <= N)%nat -> (P <= S)%nat ->
  row_sums P sR (zero_padded S D V) N m l a ->
  m = Fin (rmaxn P sR) /\
  l = Fin (rsum P (ref_weight s P D Q K i)) /\
  (1 <= rsum P (ref_weight s P D Q K i))%R /\
  forall c, (c < D)%nat ->
    FP.div (a c) l = Fin (attention_ref s P D Q K V i c).
Proof.
  intros HPN HPS (M & Em & Hub & (j0 & Hj0 & Hj0P & Ej0) & El & Ea).
  assert (rmaxn P sR = M) as EM.
  { apply rmaxn_unique; [intros j Hj; apply Hub; lia | eauto]. }
  assert (rsum N (row_weight P sR M) = rsum P (ref_weight s P D Q K i))
    as EL.
  { rewrite (rsum_zero_tail P N) by
      (assumption ||
       (intros j Hj; unfold row_weight;
        destruct (Nat.ltb_spec j P); [lia | reflexivity])).
    apply rsum_ext. intros j Hj. unfold row_weight, ref_weight.
    destruct (Nat.ltb_spec j P); [| lia]. now rewrite EM. }
  assert (1 <= rsum P (ref_weight s P D Q K i))%R as HL.
  { apply Rle_trans with (ref_weight s P D Q K i j0).
    - unfold ref_weight. rewrite EM, Ej0.
      replace (M - M)%R with 0%R by lra. rewrite exp_0. lra.
    - apply rsum_ge_term; [| assumption].
      intros k _. unfold ref_weight. left. apply exp_pos. }
  split; [now rewrite EM | split; [now rewrite El, EL | split; [exact HL |]]].
  intros c Hc. rewrite Ea, El, EL. rewrite div_fin_pos by lra. f_equal.
  rewrite (rsum_zero_tail P N) by
    (assumption ||
     (intros j Hj; unfold row_weight;
      destruct (Nat.ltb_spec j P); [lia | lra])).
  unfold attention_ref, ref_softmax, Rdiv.
  rewrite Rmult_comm, rsum_scal. apply rsum_ext. intros j Hj.
  unfold row_weight, zero_padded, ref_weight.
  destruct (Nat.ltb_spec j P); [| lia].
  destruct (Nat.ltb_spec j S); [| lia].
  destruct (Nat.ltb_spec c D); [| lia].
  cbn [andb]. rewrite EM. ring.
Qed.

Lemma fwd_loop_row_sums :
  let T :=
    Z.to_nat ((Z.of_nat S + Z.of_nat BLOCK_SIZE_N - 1)
              / Z.of_nat BLOCK_SIZE_N) in
  let st :=
    fwd_loop q_ptr k_ptr v_ptr (Z.of_nat S) (Z.of_nat D) q_st k_st v_st
      (Fin s) BLOCK_SIZE_M BLOCK_SIZE_N BLOCK_SIZE_K IS_CAUSAL
      batch_id head_id m_id in
  row_sums P sR (zero_padded S D V) (T * BLOCK_SIZE_N)
    (m_i st r) (l_i st r) (acc st r).
Proof.
  intros T st. subst st. unfold fwd_loop, py_range. fold T.
  assert (Z.of_nat (T - 1) * Z.of_nat BLOCK_SIZE_N < Z.of_nat S) as Hlast.
  { subst T.
    pose proof (Z.mul_div_le (Z.of_nat S + Z.of_nat BLOCK_SIZE_N - 1)
                  (Z.of_nat BLOCK_SIZE_N) ltac:(lia)) as H1.
    assert (0 <= (Z.of_nat S + Z.of_nat BLOCK_SIZE_N - 1)
                 / Z.of_nat BLOCK_SIZE_N) by (apply Z.div_pos; lia).
    nia. }
  assert (0 < T)%nat as HT.
  { pose proof (cdiv_covers S BLOCK_SIZE_N HBN) as H. fold T in H.
    destruct T; [lia | lia]. }
  apply (fwd_fold_row_sums T 0 _ HT); [nia |].
  left. repeat split; reflexivity.
Qed.

Lemma fwd_out_reference :
  (P <= S)%nat ->
  let st :=
    fwd_loop q_ptr k_ptr v_ptr (Z.of_nat S) (Z.of_nat D) q_st k_st v_st
      (Fin s) BLOCK_SIZE_M BLOCK_SIZE_N BLOCK_SIZE_K IS_CAUSAL
      batch_id head_id m_id in
  m_i st r = Fin (rmaxn P sR) /\
  l_i st r = Fin (rsum P (ref_weight s P D Q K i)) /\
  forall c, (c < D)%nat ->
    fwd_out q_ptr k_ptr v_ptr (Z.of_nat S) (Z.of_nat D) q_st k_st v_st
      (Fin s) BLOCK_SIZE_M BLOCK_SIZE_N BLOCK_SIZE_K IS_CAUSAL
      batch_id head_id m_id r c
    = Fin (attention_ref s P D Q K V i c).
Proof.
  intros HPS st.
  pose proof (cdiv_covers S BLOCK_SIZE_N HBN) as Hcov.
  pose proof fwd_loop_row_sums as Hsums. cbv zeta in Hsums.
  apply row_sums_reference in Hsums; [| lia | exact HPS].
  destruct Hsums as (Em & El & _ & Hout).
  split; [exact Em | split; [exact El |]].
  intros c Hc. unfold fwd_out. now apply Hout.
Qed.

End ForwardReference.

(** X1: [flash_attn_v2_forward] without causal masking, when the tile size
    divides the sequence length and the feature tile covers the feature
    dimension, over finite Query, Key and Value entries: for every row in
    range, the final running maximum is the maximum of the row's scaled
    scores, the final running sum is the softmax denominator, and the
    output row is the reference softmax attention. *)
Theorem forward_is_softmax_attention
    (q_ptr k_ptr v_ptr : buf) (S D : nat) (q_st k_st v_st : Strides) (s : R)
    (BLOCK_SIZE_M BLOCK_SIZE_N BLOCK_SIZE_K : nat)
    (batch_id head_id m_id : Z) (r i T : nat)
    (HBN : (0 < BLOCK_SIZE_N)%nat)
    (HD : (D <= BLOCK_SIZE_K)%nat)
    (Hdiv : S = (T * BLOCK_SIZE_N)%nat)
    (Hrow : fwd_row_indices BLOCK_SIZE_M m_id r = Z.of_nat i)
    (Hi : (i < S)%nat)
    (Hq : finite_slice q_ptr (batch_id * batch_stride q_st)
            (head_id * head_stride q_st) q_st (Z.of_nat S) (Z.of_nat D))
    (Hk : finite_slice k_ptr (batch_id * batch_stride k_st)
            (head_id * head_stride k_st) k_st (Z.of_nat S) (Z.of_nat D))
    (Hv : finite_slice v_ptr (batch_id * batch_stride v_st)
            (head_id * head_stride v_st) v_st (Z.of_nat S) (Z.of_nat D)) :
  let Q := slice_R q_ptr (batch_id * batch_stride q_st)
             (head_id * head_stride q_st) q_st in
  let K := slice_R k_ptr (batch_id * batch_stride k_st)
             (head_id * head_stride k_st) k_st in
  let V := slice_R v_ptr (batch_id * batch_stride v_st)
             (head_id * head_stride v_st) v_st in
  let st :=
    fwd_loop q_ptr k_ptr v_ptr (Z.of_nat S) (Z.of_nat D) q_st k_st v_st
      (Fin s) BLOCK_SIZE_M BLOCK_SIZE_N BLOCK_SIZE_K false
      batch_id head_id m_id in
  m_i st r = Fin (rmaxn S (ref_scores s D Q K i)) /\
  l_i st r = Fin (rsum S (ref_weight s S D Q K i)) /\
  forall c : nat, (c < D)%nat ->
    fwd_out q_ptr k_ptr v_ptr (Z.of_nat S) (Z.of_nat D) q_st k_st v_st
      (Fin s) BLOCK_SIZE_M BLOCK_SIZE_N BLOCK_SIZE_K false
      batch_id head_id m_id r c
    = Fin (attention_ref s S D Q K V i c).
Proof.
  intros Q K V st.
  apply fwd_out_reference with (i := i) (P := S); try assumption; try lia.
  intros t c Ht Hc.
  apply fwd_scores_lane_noncausal with (BLOCK_SIZE_N := BLOCK_SIZE_N);
    try assumption; [reflexivity |].
  assert (t < T)%nat as HtT by nia.
  assert ((t + 1) * BLOCK_SIZE_N <= T * BLOCK_SIZE_N)%nat
    by (apply Nat.mul_le_mono_r; lia).
  lia.
Qed.


(** ** What the masked stores write *)

Lemma store_vec_other (n : nat) off x mask ptr (a : Z) :
  (forall r, (r < n)%nat -> mask r = true -> off r <> a) ->
  store_vec n off x mask ptr a = ptr a.
Proof.
  induction n as [| n IH]; intros H; cbn [store_vec]; [reflexivity |].
  unfold tl_store. destruct (mask n) eqn:Em.
  - unfold upd. destruct (Z.eqb_spec a (off n)) as [E | _].
    + exfalso. apply (H n); [lia | assumption | now symmetry].
    + apply IH. intros r Hr. apply H. lia.
  - apply IH. intros r Hr. apply H. lia.
Qed.

Lemma store_vec_hit (n : nat) off x mask ptr (r : nat) :
  (r < n)%nat -> mask r = true ->
  (forall r', (r < r')%nat -> (r' < n)%nat -> mask r' = true ->
     off r' <> off r) ->
  store_vec n off x mask ptr (off r) = x r.
Proof.
  induction n as [| n IH]; intros Hr Hm Hinj; [lia |]. cbn [store_vec].
  unfold tl_store. destruct (Nat.eq_dec r n) as [-> | Hne].
  - rewrite Hm. unfold upd. now rewrite Z.eqb_refl.
  - destruct (mask n) eqn:Em.
    + unfold upd. destruct (Z.eqb_spec (off r) (off n)) as [E | _].
      * exfalso. apply (Hinj n); [lia | lia | assumption | now symmetry].
      * apply IH; [lia | assumption |]. intros r' H1 H2. apply Hinj; lia.
    + apply IH; [lia | assumption |]. intros r' H1 H2. apply Hinj; lia.
Qed.

Lemma store_tile_other (n k : nat) off x mask ptr (a : Z) :
  (forall r j, (r < n)%nat -> (j < k)%nat -> mask r j = true ->
     off r j <> a) ->
  store_tile n k off x mask ptr a = ptr a.
Proof.
  induction n as [| n IH]; intros H; cbn [store_tile]; [reflexivity |].
  rewrite store_vec_other by (intros j Hj; apply H; lia).
  apply IH. intros r j Hr. apply H. lia.
Qed.

Lemma store_vec_ext (n : nat) off x y mask ptr :
  (forall r, (r < n)%nat -> mask r = true -> x r = y r) ->
  forall a, store_vec n off x mask ptr a = store_vec n off y mask ptr a.
Proof.
  induction n as [| n IH]; intros H a; cbn [store_vec]; [reflexivity |].
  unfold tl_store. destruct (mask n) eqn:Em.
  - unfold upd. destruct (a =? off n).
    + apply H; [lia | assumption].
    + apply IH. intros r Hr. apply H. lia.
  - apply IH. intros r Hr. apply H. lia.
Qed.

Lemma store_vec_ext_ptr (n : nat) off x mask p1 p2 :
  (forall a, p1 a = p2 a) ->
  forall a, store_vec n off x mask p1 a = store_vec n off x mask p2 a.
Proof.
  induction n as [| n IH]; intros H a; cbn [store_vec]; [apply H |].
  unfold tl_store. destruct (mask n); [| now apply IH].
  unfold upd. destruct (a =? off n); [reflexivity | now apply IH].
Qed.

Lemma store_tile_ext (n k : nat) off x y mask p1 p2 :
  (forall r j, (r < n)%nat -> (j < k)%nat -> mask r j = true ->
     x r j = y r j) ->
  (forall a, p1 a = p2 a) ->
  forall a, store_tile n k off x mask p1 a = store_tile n k off y mask p2 a.
Proof.
  induction n as [| n IH]; intros H Hp a; cbn [store_tile]; [apply Hp |].
  rewrite (store_vec_ext k (off n) (x n) (y n)) by (intros j Hj; apply H; lia).
  apply store_vec_ext_ptr. apply IH; [| assumption].
  intros r j Hr. apply H. lia.
Qed.


(** X4: one program of [flash_attn_v2_forward] changes the allocation of
    [o_ptr] only at the statistics offsets and the output offsets of the
    rows of its tile that lie below [seq_len], the output offsets only for
    features below [head_dim]; every other offset keeps its value.  In
    particular a row at or beyond [seq_len] is never written. *)
Theorem forward_program_frame
    (q_ptr k_ptr v_ptr o_ptr : buf) (seq_len num_heads head_dim : Z)
    (q_st k_st v_st o_st : Strides) (scale : fval)
    (BLOCK_SIZE_M BLOCK_SIZE_N BLOCK_SIZE_K : nat) (IS_CAUSAL : bool)
    (batch_id head_id m_id : Z) (a : Z) :
  let row := fun r : nat => m_id * Z.of_nat BLOCK_SIZE_M + Z.of_nat r in
  let stat := fun r : nat =>
    batch_id * (num_heads * seq_len) + head_id * seq_len + row r in
  (forall r : nat, (r < BLOCK_SIZE_M)%nat -> row r < seq_len ->
     a <> seq_len * head_dim * num_heads * head_dim + stat r /\
     a <> seq_len * head_dim * num_heads * head_dim
          + seq_len * head_dim * num_heads + stat r /\
     forall j : nat, (j < BLOCK_SIZE_K)%nat -> Z.of_nat j < head_dim ->
       a <> batch_id * batch_stride o_st + head_id * head_stride o_st
            + row r * seq_stride o_st + Z.of_nat j * head_dim_stride o_st) ->
  flash_attn_v2_forward q_ptr k_ptr v_ptr seq_len num_heads head_dim
    q_st k_st v_st o_st scale BLOCK_SIZE_M BLOCK_SIZE_N BLOCK_SIZE_K
    IS_CAUSAL batch_id head_id m_id o_ptr a
  = o_ptr a.
Proof.
  intros row stat H. subst row stat. cbv beta in H.
  unfold flash_attn_v2_forward.
  rewrite store_tile_other.
  - rewrite store_vec_other.
    + apply store_vec_other. intros r Hr Hm E.
      unfold fwd_row_mask, fwd_row_indices, fwd_start_m in Hm, E.
      apply Z.ltb_lt in Hm. destruct (H r Hr Hm) as (H1 & _).
      apply H1. unfold fwd_m_off in E. now symmetry.
    + intros r Hr Hm E.
      unfold fwd_row_mask, fwd_row_indices, fwd_start_m in Hm, E.
      apply Z.ltb_lt in Hm. destruct (H r Hr Hm) as (_ & H2 & _).
      apply H2. unfold fwd_l_off, fwd_m_off in E. now symmetry.
  - intros r j Hr Hj Hm E.
    unfold block_mask, fwd_row_mask, fwd_row_indices, fwd_start_m in Hm.
    apply andb_prop in Hm. destruct Hm as (Hm1 & Hm2).
    apply Z.ltb_lt in Hm1. apply Z.ltb_lt in Hm2.
    destruct (H r Hr Hm1) as (_ & _ & H3).
    apply (H3 j Hj Hm2).
    unfold block_offset, fwd_row_indices, fwd_start_m in E. now symmetry.
Qed.

(** X5: one program of [flash_attn_v2_backward_dq] changes the query
    gradient only at the offsets of the rows of its tile below [seq_len]
    and the features below [head_dim]. *)
Theorem dq_program_frame
    (q_ptr k_ptr v_ptr do_ptr m_ptr l_ptr d_ptr dq_ptr : buf)
    (seq_len num_heads head_dim : Z)
    (q_st k_st v_st do_st dq_st : Strides) (scale : fval)
    (BLOCK_SIZE_M BLOCK_SIZE_N BLOCK_SIZE_K : nat) (IS_CAUSAL : bool)
    (batch_id head_id m_id : Z) (a : Z) :
  (forall r j : nat,
     (r < BLOCK_SIZE_M)%nat -> (j < BLOCK_SIZE_K)%nat ->
     m_id * Z.of_nat BLOCK_SIZE_M + Z.of_nat r < seq_len ->
     Z.of_nat j < head_dim ->
     a <> batch_id * batch_stride dq_st + head_id * head_stride dq_st
          + (m_id * Z.of_nat BLOCK_SIZE_M + Z.of_nat r) * seq_stride dq_st
          + Z.of_nat j * head_dim_stride dq_st) ->
  flash_attn_v2_backward_dq q_ptr k_ptr v_ptr do_ptr m_ptr l_ptr d_ptr
    seq_len num_heads head_dim q_st k_st v_st do_st dq_st scale
    BLOCK_SIZE_M BLOCK_SIZE_N BLOCK_SIZE_K IS_CAUSAL batch_id head_id m_id
    dq_ptr a
  = dq_ptr a.
Proof.
  intros H. unfold flash_attn_v2_backward_dq.
  apply store_tile_other. intros r j Hr Hj Hm E.
  unfold block_mask, dq_row_mask, dq_row_indices in Hm.
  apply andb_prop in Hm. destruct Hm as (Hm1 & Hm2).
  apply Z.ltb_lt in Hm1. apply Z.ltb_lt in Hm2.
  apply (H r j Hr Hj Hm1 Hm2).
  unfold block_offset, dq_row_indices in E. now symmetry.
Qed.

(** X6: one program of [flash_attn_v2_backward_dkv] changes the key and
    value gradients only at the offsets of the key positions of its tile
    below [seq_len] and the features below [head_dim]. *)
Theorem dkv_program_frame
    (q_ptr k_ptr v_ptr do_ptr m_ptr d_ptr l_ptr dk_ptr dv_ptr : buf)
    (seq_len num_heads head_dim : Z)
    (q_st k_st v_st do_st dk_st dv_st : Strides) (scale : fval)
    (BLOCK_SIZE_M BLOCK_SIZE_N BLOCK_SIZE_K : nat) (IS_CAUSAL : bool)
    (batch_id head_id n_id : Z) (a : Z) :
  let res :=
    flash_attn_v2_backward_dkv q_ptr k_ptr v_ptr do_ptr m_ptr d_ptr
      seq_len num_heads head_dim q_st k_st v_st do_st dk_st dv_st scale
      BLOCK_SIZE_M BLOCK_SIZE_N BLOCK_SIZE_K IS_CAUSAL batch_id head_id n_id
      l_ptr dk_ptr dv_ptr in
  let col := fun c : nat => n_id * Z.of_nat BLOCK_SIZE_N + Z.of_nat c in
  ((forall c j : nat,
      (c < BLOCK_SIZE_N)%nat -> (j < BLOCK_SIZE_K)%nat ->
      col c < seq_len -> Z.of_nat j < head_dim ->
      a <> batch_id * batch_stride dk_st + head_id * head_stride dk_st
           + col c * seq_stride dk_st + Z.of_nat j * head_dim_stride dk_st) ->
   fst res a = dk_ptr a) /\
  ((forall c j : nat,
      (c < BLOCK_SIZE_N)%nat -> (j < BLOCK_SIZE_K)%nat ->
      col c < seq_len -> Z.of_nat j < head_dim ->
      a <> batch_id * batch_stride dv_st + head_id * head_stride dv_st
           + col c * seq_stride dv_st + Z.of_nat j * head_dim_stride dv_st) ->
   snd res a = dv_ptr a).
Proof.
  intros res col. subst res col. cbv beta.
  unfold flash_attn_v2_backward_dkv. cbn [fst snd].
  split; intros H; apply store_tile_other; intros c j Hc Hj Hm E;
    unfold block_mask, dkv_col_mask, dkv_col_indices in Hm;
    apply andb_prop in Hm; destruct Hm as (Hm1 & Hm2);
    apply Z.ltb_lt in Hm1; apply Z.ltb_lt in Hm2;
    apply (H c j Hc Hj Hm1 Hm2);
    unfold block_offset, dkv_col_indices in E; now symmetry.
Qed.

(** ** The key/value gradient when the last query tile is padded *)

Lemma add_nan_r (a : fval) : FP.add a NaN = NaN.
Proof. now destruct a. Qed.

Lemma mul_nan_l (a : fval) : FP.mul NaN a = NaN.
Proof. now destruct a. Qed.

(** A score minus the [-inf] read for a masked row exponentiates to plus
    infinity or NaN, and either one times zero is NaN. *)
Lemma exp_sub_ninf_cases (x : fval) :
  FP.exp (FP.sub x NInf) = PInf \/ FP.exp (FP.sub x NInf) = NaN.
Proof. destruct x; cbn; auto. Qed.

Lemma signed_inf_zero (b : bool) : FP.signed_inf 0 b = NaN.
Proof.
  unfold FP.signed_inf. destruct (Req_dec_T 0 0) as [_ | H];
    [reflexivity | contradiction].
Qed.

Lemma masked_weight_times_zero (x : fval) :
  FP.mul (FP.exp (FP.sub x NInf)) FP.zero = NaN.
Proof.
  destruct (exp_sub_ninf_cases x) as [-> | ->]; cbn; [| reflexivity].
  apply signed_inf_zero.
Qed.

Lemma masked_weight_not_finite (x y : fval) :
  FP.mul (FP.mul (FP.exp (FP.sub x NInf)) y) FP.zero = NaN.
Proof.
  destruct (exp_sub_ninf_cases x) as [-> | ->]; [| now rewrite mul_nan_l].
  destruct y as [z | | |]; cbn; try apply signed_inf_zero; try reflexivity.
  unfold FP.signed_inf. destruct (Req_dec_T z 0); [reflexivity |].
  destruct (Rlt_dec 0 z); cbn; apply signed_inf_zero.
Qed.

Section DkvPadded.

Variables q_ptr k_ptr v_ptr do_ptr m_ptr d_ptr : buf.
Variables seq_len num_heads head_dim : Z.
Variables q_st k_st v_st do_st : Strides.
Variable scale : fval.
Variables BLOCK_SIZE_M BLOCK_SIZE_N BLOCK_SIZE_K : nat.
Variable IS_CAUSAL : bool.
Variables batch_id head_id n_id : Z.

Local Notation "'step'" :=
  (dkv_step q_ptr k_ptr v_ptr do_ptr m_ptr d_ptr seq_len num_heads head_dim
     q_st k_st v_st do_st scale BLOCK_SIZE_M BLOCK_SIZE_N BLOCK_SIZE_K
     IS_CAUSAL batch_id head_id n_id).

(** An iteration whose query tile has a row at or beyond [seq_len] makes
    every lane of both accumulators NaN. *)
Lemma dkv_step_padded (st : dkv_state) (start_m : Z) (r0 : nat) :
  (r0 < BLOCK_SIZE_M)%nat -> seq_len <= start_m + Z.of_nat r0 ->
  forall c j,
    dk_block (step st start_m) c j = NaN /\
    dv_block (step st start_m) c j = NaN.
Proof.
  intros Hr0 Hpad c j.
  assert ((start_m + Z.of_nat r0 <? seq_len) = false) as Em
    by (apply Z.ltb_ge; lia).
  split; cbn [dkv_step dk_block dv_block].
  - rewrite (tl_sum_nan BLOCK_SIZE_M _ r0 Hr0);
      [rewrite mul_nan_l; apply add_nan_r |].
    cbv beta. unfold load_block, tl_load. rewrite !Em. cbn [andb].
    apply masked_weight_not_finite.
  - rewrite (tl_sum_nan BLOCK_SIZE_M _ r0 Hr0); [apply add_nan_r |].
    cbv beta. unfold load_block, tl_load. rewrite !Em. cbn [andb].
    apply masked_weight_times_zero.
Qed.

End DkvPadded.

(** X7: in [flash_attn_v2_backward_dkv], when the sequence length is not a
    multiple of the query tile size, the last query tile has a row at or
    beyond [seq_len]; its statistic is read as [-inf], its weight
    [exp(score + inf)] is infinite, and the product with the zero-filled
    output-gradient and Query rows is NaN.  Whatever the buffers hold,
    every lane of [dk_block] and [dv_block] is NaN when the program stores
    them. *)
Theorem dkv_padded_query_tile_gives_nan
    (q_ptr k_ptr v_ptr do_ptr m_ptr d_ptr : buf)
    (seq_len num_heads head_dim : Z) (q_st k_st v_st do_st : Strides)
    (scale : fval) (BLOCK_SIZE_M BLOCK_SIZE_N BLOCK_SIZE_K : nat)
    (IS_CAUSAL : bool) (batch_id head_id n_id : Z)
    (Hseq : 0 < seq_len)
    (HBM : (0 < BLOCK_SIZE_M)%nat)
    (Hpad : seq_len mod Z.of_nat BLOCK_SIZE_M <> 0) :
  forall c j : nat,
    dk_block
      (dkv_loop q_ptr k_ptr v_ptr do_ptr m_ptr d_ptr seq_len num_heads
         head_dim q_st k_st v_st do_st scale BLOCK_SIZE_M BLOCK_SIZE_N
         BLOCK_SIZE_K IS_CAUSAL batch_id head_id n_id) c j = NaN /\
    dv_block
      (dkv_loop q_ptr k_ptr v_ptr do_ptr m_ptr d_ptr seq_len num_heads
         head_dim q_st k_st v_st do_st scale BLOCK_SIZE_M BLOCK_SIZE_N
         BLOCK_SIZE_K IS_CAUSAL batch_id head_id n_id) c j = NaN.
Proof.
  intros c j. unfold dkv_loop, py_range.
  set (bm := Z.of_nat BLOCK_SIZE_M).
  set (q := (seq_len + bm - 1) / bm).
  assert (0 < bm) as Hbm by (subst bm; lia).
  assert (bm * q <= seq_len + bm - 1) as H1
    by (subst q; apply Z.mul_div_le; lia).
  assert (seq_len + bm - 1 < bm * Z.succ q) as H2
    by (subst q; apply Z.mul_succ_div_gt; lia).
  assert (bm * q <> seq_len) as H3.
  { intros E. apply Hpad. fold bm. rewrite <- E, Z.mul_comm.
    apply Z_mod_mult. }
  assert (1 <= q) as Hq by nia.
  destruct (Z.to_nat q) as [| T'] eqn:ET; [lia |].
  rewrite seq_S, map_app, fold_left_app. cbn [map fold_left Nat.add].
  apply dkv_step_padded with (r0 := (BLOCK_SIZE_M - 1)%nat); [lia |].
  fold bm. assert (Z.of_nat T' = q - 1) as -> by lia.
  rewrite Nat2Z.inj_sub by lia. fold bm. cbn [Z.of_nat]. nia.
Qed.

Lemma dkv_padded_query_tile_gives_nan_witness :
  0 < 3 /\ (0 < 2)%nat /\ 3 mod Z.of_nat 2 <> 0 /\
  dv_block
    (dkv_loop (const_buf (Fin 1)) (const_buf (Fin 1)) (const_buf (Fin 1))
       (const_buf (Fin 1)) (const_buf (Fin 0)) (const_buf (Fin 1)) 3 1 1
       (mkStrides 3 3 1 1) (mkStrides 3 3 1 1) (mkStrides 3 3 1 1)
       (mkStrides 3 3 1 1) (Fin 1) 2 2 1 false 0 0 0) 0%nat 0%nat = NaN.
Proof.
  split; [lia |]. split; [lia |]. split; [discriminate |].
  apply (dkv_padded_query_tile_gives_nan (const_buf (Fin 1))
           (const_buf (Fin 1)) (const_buf (Fin 1)) (const_buf (Fin 1))
           (const_buf (Fin 0)) (const_buf (Fin 1)) 3 1 1
           (mkStrides 3 3 1 1) (mkStrides 3 3 1 1) (mkStrides 3 3 1 1)
           (mkStrides 3 3 1 1) (Fin 1) 2 2 1 false 0 0 0);
    [lia | lia | discriminate].
Defined.

(** ** The grid of a launch *)

Lemma in_zrange (n x : Z) : In x (zrange n) <-> 0 <= x < n.
Proof.
  unfold zrange. rewrite in_map_iff. split.
  - intros (t & <- & Ht). apply in_seq in Ht. lia.
  - intros Hx. exists (Z.to_nat x). split; [lia |]. apply in_seq. lia.
Qed.

Lemma in_program_ids (g0 g1 g2 a b c : Z) :
  In (a, b, c) (program_ids (g0, g1, g2))
  <-> 0 <= a < g0 /\ 0 <= b < g1 /\ 0 <= c < g2.
Proof.
  unfold program_ids. rewrite in_flat_map. split.
  - intros (a' & Ha & H). apply in_flat_map in H.
    destruct H as (b' & Hb & H). apply in_map_iff in H.
    destruct H as (c' & E & Hc). injection E as -> -> ->.
    apply in_zrange in Ha, Hb, Hc. tauto.
  - intros (Ha & Hb & Hc). exists a. split; [now apply in_zrange |].
    apply in_flat_map. exists b. split; [now apply in_zrange |].
    apply in_map_iff. exists c. split; [reflexivity | now apply in_zrange].
Qed.

(** X8: for a positive tile size, the third grid dimension
    [triton.cdiv(seq_len, block_size)] of every launch is the least number
    of tiles that covers the sequence: each row below [seq_len] is the row
    of exactly one (program, lane) pair of the grid, and the last program
    has a row below [seq_len]. *)
Theorem grid_covers_each_row_once (seq_len block_size : Z)
    (Hb : 0 < block_size) (Hs : 0 <= seq_len) :
  exists g : Z,
    cdiv seq_len block_size = Ok g /\
    seq_len <= g * block_size /\
    (0 < seq_len -> (g - 1) * block_size < seq_len) /\
    forall i : Z, 0 <= i < seq_len ->
      exists (m_id : Z) (r : nat),
        In m_id (zrange g) /\ (r < Z.to_nat block_size)%nat /\
        fwd_row_indices (Z.to_nat block_size) m_id r = i /\
        forall (m' : Z) (r' : nat),
          In m' (zrange g) -> (r' < Z.to_nat block_size)%nat ->
          fwd_row_indices (Z.to_nat block_size) m' r' = i ->
          m' = m_id /\ r' = r.
Proof.
  exists ((seq_len + block_size - 1) / block_size).
  set (g := (seq_len + block_size - 1) / block_size).
  assert (block_size * g <= seq_len + block_size - 1) as H1
    by (apply Z.mul_div_le; lia).
  assert (seq_len + block_size - 1 < block_size * Z.succ g) as H2
    by (apply Z.mul_succ_div_gt; lia).
  split; [| split; [nia | split; [intros; nia |]]].
  - unfold cdiv. destruct (Z.eqb_spec block_size 0); [lia | reflexivity].
  - intros i Hi.
    exists (i / block_size), (Z.to_nat (i mod block_size)).
    pose proof (Z.mod_pos_bound i block_size Hb) as Hm.
    pose proof (Z.div_mod i block_size ltac:(lia)) as Hdm.
    assert (0 <= i / block_size) by (apply Z.div_pos; lia).
    unfold fwd_row_indices, fwd_start_m. rewrite !Z2Nat.id by lia.
    split; [apply in_zrange; nia | split; [lia | split; [lia |]]].
    intros m' r' Hm' Hr' E. apply in_zrange in Hm'.
    assert (m' = i / block_size) as ->.
    { apply Z.div_unique with (r := Z.of_nat r'); lia. }
    split; [reflexivity | lia].
Qed.

Lemma grid_covers_each_row_once_witness :
  0 < 4 /\ 0 <= 10 /\
  exists g : Z,
    cdiv 10 4 = Ok g /\ 10 <= g * 4 /\ (0 < 10 -> (g - 1) * 4 < 10).
Proof.
  split; [lia |]. split; [lia |].
  destruct (grid_covers_each_row_once 10 4) as (g & H1 & H2 & H3 & _);
    [lia | lia |].
  exists g. auto.
Defined.

(** ** When the forward call fails *)

Lemma strides4_cases (t : Tensor) :
  ((4 <= length (strides t))%nat /\ exists st, strides4 t = Ok st) \/
  ((length (strides t) < 4)%nat /\ strides4 t = Raise IndexError).
Proof.
  unfold strides4, stride.
  destruct (strides t) as [| a [| b [| c [| d l]]]]; cbn;
    try (right; split; [lia | reflexivity]).
  left. split; [lia | eauto].
Qed.

Lemma unpack4_cases (s : list Z) :
  (length s = 4%nat /\
   exists a b c d, s = [a; b; c; d] /\ unpack4 s = Ok (a, b, c, d)) \/
  (length s <> 4%nat /\ unpack4 s = Raise ValueError).
Proof.
  destruct s as [| a [| b [| c [| d [| e l]]]]]; cbn;
    try (right; split; [lia | reflexivity]).
  left. split; [reflexivity |]. exists a, b, c, d. auto.
Qed.


(** ** Empty tensors *)

Lemma program_ids_empty (g0 g1 g2 : Z) :
  g0 <= 0 \/ g1 <= 0 \/ g2 <= 0 -> program_ids (g0, g1, g2) = [].
Proof.
  intros H. destruct (program_ids (g0, g1, g2)) as [| [[a b] c] l] eqn:E;
    [reflexivity |].
  assert (In (a, b, c) (program_ids (g0, g1, g2))) as Hin
    by (rewrite E; now left).
  apply in_program_ids in Hin. lia.
Qed.

(** X10: when Query has no element along the batch, head or sequence
    dimension (and [block_size] is positive), the forward call launches no
    program: it returns normally and the output tensor still holds what
    its allocation held. *)
Theorem forward_empty_launches_nothing
    (raw : Uninit) (q k v : Tensor) (scale : fval) (causal : bool)
    (block_size batch_size num_heads seq_len head_dim : Z)
    (q_st k_st v_st : Strides)
    (Hq : shape q = [batch_size; num_heads; seq_len; head_dim])
    (Hqs : strides4 q = Ok q_st)
    (Hks : strides4 k = Ok k_st)
    (Hvs : strides4 v = Ok v_st)
    (Hb : 0 < block_size)
    (Hempty : batch_size = 0 \/ num_heads = 0 \/ seq_len = 0) :
  exists (o : Tensor) (ctx : Ctx),
    FlashAttentionV2_forward raw q k v scale causal block_size = Ok (o, ctx)
    /\ data o = raw_o raw /\ shape o = shape q.
Proof.
  unfold FlashAttentionV2_forward. rewrite Hq. cbn [unpack4 bind].
  unfold cdiv. destruct (Z.eqb_spec block_size 0); [lia |]. cbn [bind].
  destruct (run_block_k_total head_dim) as [bk ->]. cbn [bind].
  rewrite Hqs, Hks, Hvs. cbn [bind].
  replace (strides4 (torch_empty_like q (raw_o raw))) with (Ok q_st)
    by (rewrite <- Hqs; reflexivity).
  cbn [bind]. do 2 eexists. split; [reflexivity |].
  split; [| cbn; now rewrite Hq].
  unfold with_data, launch. cbn [data].
  rewrite program_ids_empty; [reflexivity |].
  destruct Hempty as [-> | [-> | ->]]; [lia | lia |].
  right. right. apply Z.lt_succ_r.
  apply Z.div_lt_upper_bound; lia.
Qed.

Lemma forward_empty_launches_nothing_witness :
  exists (o : Tensor) (ctx : Ctx),
    FlashAttentionV2_forward Inputs.raw0
      (dense (const_buf (Fin 1)) [1; 1; 0; 4])
      (dense (const_buf (Fin 1)) [1; 1; 0; 4])
      (dense (const_buf (Fin 1)) [1; 1; 0; 4]) (Fin 1) false 2
    = Ok (o, ctx)
    /\ data o = raw_o Inputs.raw0 /\ shape o = [1; 1; 0; 4].
Proof.
  apply (forward_empty_launches_nothing Inputs.raw0
           (dense (const_buf (Fin 1)) [1; 1; 0; 4])
           (dense (const_buf (Fin 1)) [1; 1; 0; 4])
           (dense (const_buf (Fin 1)) [1; 1; 0; 4]) (Fin 1) false 2
           1 1 0 4 (mkStrides 4 4 4 1) (mkStrides 4 4 4 1)
           (mkStrides 4 4 4 1));
    (reflexivity || lia || (right; right; reflexivity)).
Defined.

(** ** The forward kernel reads in-range elements only *)

Lemma load_block_agree p1 p2 boff hoff st idx msk seq_len head_dim :
  agree_slice p1 p2 boff hoff st seq_len head_dim ->
  (forall r, msk r = true -> 0 <= idx r < seq_len) ->
  forall r j,
    load_block p1 boff hoff st idx msk head_dim r j
    = load_block p2 boff hoff st idx msk head_dim r j.
Proof.
  intros Ha Hm r j. unfold load_block, tl_load.
  destruct (msk r) eqn:Em; cbn [andb]; [| reflexivity].
  destruct (Z.ltb_spec (Z.of_nat j) head_dim); [| reflexivity].
  apply Ha; [now apply Hm | lia].
Qed.

Lemma store_vec_ext2 (n : nat) off x y mask p1 p2 :
  (forall r, (r < n)%nat -> mask r = true -> x r = y r) ->
  (forall a, p1 a = p2 a) ->
  forall a, store_vec n off x mask p1 a = store_vec n off y mask p2 a.
Proof.
  intros Hx Hp a. rewrite (store_vec_ext n off x y mask p1 Hx).
  now apply store_vec_ext_ptr.
Qed.

Section ForwardReadsInRange.

Variables q1 q2 k1 k2 v1 v2 : buf.
Variables seq_len num_heads head_dim : Z.
Variables q_st k_st v_st o_st : Strides.
Variable scale : fval.
Variables BLOCK_SIZE_M BLOCK_SIZE_N BLOCK_SIZE_K : nat.
Variable IS_CAUSAL : bool.
Variables batch_id head_id m_id : Z.

Hypothesis Hmid : 0 <= m_id.
Hypothesis Hq :
  agree_slice q1 q2 (batch_id * batch_stride q_st)
    (head_id * head_stride q_st) q_st seq_len head_dim.
Hypothesis Hk :
  agree_slice k1 k2 (batch_id * batch_stride k_st)
    (head_id * head_stride k_st) k_st seq_len head_dim.
Hypothesis Hv :
  agree_slice v1 v2 (batch_id * batch_stride v_st)
    (head_id * head_stride v_st) v_st seq_len head_dim.

Local Notation "'step1'" :=
  (fwd_step q1 k1 v1 seq_len head_dim q_st k_st v_st scale
     BLOCK_SIZE_M BLOCK_SIZE_N BLOCK_SIZE_K IS_CAUSAL batch_id head_id m_id).
Local Notation "'step2'" :=
  (fwd_step q2 k2 v2 seq_len head_dim q_st k_st v_st scale
     BLOCK_SIZE_M BLOCK_SIZE_N BLOCK_SIZE_K IS_CAUSAL batch_id head_id m_id).

Lemma agree_scores start_n r c :
  0 <= start_n ->
  fwd_scores q1 k1 seq_len head_dim q_st k_st scale BLOCK_SIZE_M
    BLOCK_SIZE_K IS_CAUSAL batch_id head_id m_id start_n r c
  = fwd_scores q2 k2 seq_len head_dim q_st k_st scale BLOCK_SIZE_M
      BLOCK_SIZE_K IS_CAUSAL batch_id head_id m_id start_n r c.
Proof.
  intros Hs. unfold fwd_scores.
  assert (tl_dot BLOCK_SIZE_K
            (fwd_q_block q1 seq_len head_dim q_st BLOCK_SIZE_M batch_id
               head_id m_id r)
            (load_block k1 (batch_id * batch_stride k_st)
               (head_id * head_stride k_st) k_st
               (fun c0 : nat => start_n + Z.of_nat c0)
               (fun c0 : nat => start_n + Z.of_nat c0 <? seq_len) head_dim c)
          = tl_dot BLOCK_SIZE_K
              (fwd_q_block q2 seq_len head_dim q_st BLOCK_SIZE_M batch_id
                 head_id m_id r)
              (load_block k2 (batch_id * batch_stride k_st)
                 (head_id * head_stride k_st) k_st
                 (fun c0 : nat => start_n + Z.of_nat c0)
                 (fun c0 : nat => start_n + Z.of_nat c0 <? seq_len) head_dim
                 c)) as ->.
  { apply tl_sum_ext. intros j _. f_equal.
    - unfold fwd_q_block. apply load_block_agree with (seq_len := seq_len);
        [assumption |].
      intros r'. unfold fwd_row_mask, fwd_row_indices, fwd_start_m.
      intros H. apply Z.ltb_lt in H. nia.
    - apply load_block_agree with (seq_len := seq_len); [assumption |].
      intros c' H. apply Z.ltb_lt in H. lia. }
  reflexivity.
Qed.

Lemma agree_step st1 st2 start_n :
  0 <= start_n ->
  (forall r, m_i st1 r = m_i st2 r) -> (forall r, l_i st1 r = l_i st2 r) ->
  (forall r j, acc st1 r j = acc st2 r j) ->
  (forall r, m_i (step1 st1 start_n) r = m_i (step2 st2 start_n) r) /\
  (forall r, l_i (step1 st1 start_n) r = l_i (step2 st2 start_n) r) /\
  (forall r j, acc (step1 st1 start_n) r j = acc (step2 st2 start_n) r j).
Proof.
  intros Hs Em El Ea.
  assert (forall r, m_i (step1 st1 start_n) r = m_i (step2 st2 start_n) r)
    as Em'.
  { intros r. rewrite !fwd_step_m_i, Em. f_equal. apply tl_max_ext.
    intros c _. now apply agree_scores. }
  split; [exact Em' | split].
  - intros r. rewrite !fwd_step_l_i, Em', Em, El. f_equal.
    apply tl_sum_ext. intros c _. now rewrite agree_scores.
  - intros r j. rewrite !fwd_step_acc, Em', Em, Ea. f_equal.
    apply tl_sum_ext. intros c _. rewrite agree_scores by assumption.
    f_equal. unfold fwd_v_block.
    apply load_block_agree with (seq_len := seq_len); [assumption |].
    intros c' H. apply Z.ltb_lt in H. lia.
Qed.

Lemma agree_fold (l : list Z) :
  forall st1 st2,
    (forall x, In x l -> 0 <= x) ->
    (forall r, m_i st1 r = m_i st2 r) -> (forall r, l_i st1 r = l_i st2 r) ->
    (forall r j, acc st1 r j = acc st2 r j) ->
    (forall r, m_i (fold_left step1 l st1) r
               = m_i (fold_left step2 l st2) r) /\
    (forall r, l_i (fold_left step1 l st1) r
               = l_i (fold_left step2 l st2) r) /\
    (forall r j, acc (fold_left step1 l st1) r j
                 = acc (fold_left step2 l st2) r j).
Proof.
  induction l as [| x l IH]; intros st1 st2 Hl Em El Ea; cbn [fold_left].
  - auto.
  - destruct (agree_step st1 st2 x) as (Em' & El' & Ea');
      try assumption; [apply Hl; now left |].
    apply IH; try assumption. intros y Hy. apply Hl. now right.
Qed.

(** X11: one program of [flash_attn_v2_forward] reads the Query, Key and
    Value buffers at in-range elements only: two runs whose buffers agree
    on every element of the (batch, head) slice below [seq_len] and
    [head_dim], and differ arbitrarily elsewhere, leave the same contents
    at every offset of the output allocation. *)
Theorem forward_reads_only_in_range (o_ptr : buf) (a : Z) :
  flash_attn_v2_forward q1 k1 v1 seq_len num_heads head_dim
    q_st k_st v_st o_st scale BLOCK_SIZE_M BLOCK_SIZE_N BLOCK_SIZE_K
    IS_CAUSAL batch_id head_id m_id o_ptr a
  = flash_attn_v2_forward q2 k2 v2 seq_len num_heads head_dim
      q_st k_st v_st o_st scale BLOCK_SIZE_M BLOCK_SIZE_N BLOCK_SIZE_K
      IS_CAUSAL batch_id head_id m_id o_ptr a.
Proof.
  destruct (agree_fold (py_range seq_len (Z.of_nat BLOCK_SIZE_N))
              fwd_init fwd_init) as (Em & El & Ea); try reflexivity.
  { intros x Hx.
    apply (py_range_nonneg seq_len (Z.of_nat BLOCK_SIZE_N)); [lia | exact Hx]. }
  unfold flash_attn_v2_forward.
  apply store_tile_ext.
  - intros r j _ _ _. unfold fwd_out, fwd_loop. now rewrite Ea, El.
  - apply store_vec_ext2; [intros r _ _; apply El |].
    apply store_vec_ext2; [intros r _ _; apply Em | reflexivity].
Qed.

End ForwardReadsInRange.

(** ** A whole launch of the forward kernel *)

Lemma store_tile_hit (n k : nat) off x mask ptr (r j : nat) :
  (r < n)%nat -> (j < k)%nat -> mask r j = true ->
  (forall r' j', (r' < n)%nat -> (j' < k)%nat -> mask r' j' = true ->
     off r' j' = off r j -> r' = r /\ j' = j) ->
  store_tile n k off x mask ptr (off r j) = x r j.
Proof.
  induction n as [| n IH]; intros Hr Hj Hm Hinj; [lia |].
  cbn [store_tile]. destruct (Nat.eq_dec r n) as [-> | Hne].
  - apply (store_vec_hit k (off n) (x n) (mask n)); try assumption.
    intros j' H1 H2 Hm' E.
    destruct (Hinj n j' ltac:(lia) H2 Hm' E) as (_ & ->). lia.
  - rewrite store_vec_other.
    + apply IH; [lia | assumption | assumption |].
      intros r' j' Hr' Hj' Hm' E. apply Hinj; (lia || assumption).
    + intros j' Hj' Hm' E.
      destruct (Hinj n j' ltac:(lia) Hj' Hm' E) as (-> & _). lia.
Qed.

Lemma pid_eq_dec (p q : Z * Z * Z) : {p = q} + {p <> q}.
Proof. repeat decide equality. Qed.

(** In a sequence of programs, the value that one of them always stores at
    an offset survives when no other program of the sequence touches that
    offset. *)
Lemma launch_hit {St : Type} (prog : Z -> Z -> Z -> St -> St)
    (get : St -> fval) (x : fval) (p0 : Z * Z * Z) (l : list (Z * Z * Z)) :
  (forall s, get (let '(a, b, c) := p0 in prog a b c s) = x) ->
  (forall p s, In p l -> p <> p0 ->
     get (let '(a, b, c) := p in prog a b c s) = get s) ->
  forall s,
    In p0 l \/ get s = x ->
    get (fold_left (fun s id => let '(a, b, c) := id in prog a b c s) l s)
    = x.
Proof.
  intros Hhit. induction l as [| p l IH]; intros Hother s Hs;
    cbn [fold_left].
  - destruct Hs as [[] | Hs]. exact Hs.
  - apply IH; [intros p' s' Hp'; apply Hother; now right |].
    destruct (pid_eq_dec p p0) as [-> | Hne].
    + right. apply Hhit.
    + destruct Hs as [[E | Hin] | Hs].
      * contradiction.
      * now left.
      * right. rewrite Hother; [assumption | now left | assumption].
Qed.

Lemma radix_inj (d x c x' c' : Z) :
  0 <= c < d -> 0 <= c' < d -> x * d + c = x' * d + c' -> x = x' /\ c = c'.
Proof.
  intros Hc Hc' E.
  assert (x = x') as -> by nia. split; [reflexivity | lia].
Qed.

Section DenseForward.

Variables q_ptr k_ptr v_ptr : buf.
Variables B H : Z.
Variables S D : nat.
Variable scale : fval.
Variables BS BLOCK_SIZE_K : nat.
Variable IS_CAUSAL : bool.

Hypothesis HH : 0 < H.
Hypothesis HS : (0 < S)%nat.
Hypothesis HD : (0 < D)%nat.
Hypothesis HBS : (0 < BS)%nat.
Hypothesis HBK : (D <= BLOCK_SIZE_K)%nat.
Hypothesis HBD : B <= Z.of_nat D.

Local Notation "'st'" := (dense_strides H (Z.of_nat S) (Z.of_nat D)).
Local Notation "'off'" := (dense_offset H (Z.of_nat S) (Z.of_nat D)).
Local Notation "'prog'" :=
  (flash_attn_v2_forward q_ptr k_ptr v_ptr (Z.of_nat S) H (Z.of_nat D)
     st st st st scale BS BS BLOCK_SIZE_K IS_CAUSAL).

Lemma dense_offset_inj (b h i c b' h' i' c' : Z) :
  0 <= h < H -> 0 <= i < Z.of_nat S -> 0 <= c < Z.of_nat D ->
  0 <= h' < H -> 0 <= i' < Z.of_nat S -> 0 <= c' < Z.of_nat D ->
  off b h i c = off b' h' i' c' ->
  b = b' /\ h = h' /\ i = i' /\ c = c'.
Proof.
  intros Hh Hi Hc Hh' Hi' Hc' E. unfold dense_offset in E.
  destruct (radix_inj (Z.of_nat D)
              (b * (H * Z.of_nat S) + h * Z.of_nat S + i) c
              (b' * (H * Z.of_nat S) + h' * Z.of_nat S + i') c')
    as (E1 & Ec); [lia | lia | lia |].
  destruct (radix_inj (Z.of_nat S) (b * H + h) i (b' * H + h') i')
    as (E2 & Ei); [lia | lia | lia |].
  destruct (radix_inj H b h b' h') as (Eb & Eh); [lia | lia | lia |].
  auto.
Qed.

(** The program of the row tile that contains row [i] stores the output
    lane of [(i, c)] at the offset of element [(b, h, i, c)]. *)
Lemma dense_program_hit (b h m_id : Z) (r i c : nat) (o_ptr : buf) :
  0 <= h < H -> (r < BS)%nat -> (i < S)%nat -> (c < D)%nat ->
  m_id * Z.of_nat BS + Z.of_nat r = Z.of_nat i ->
  prog b h m_id o_ptr (off b h (Z.of_nat i) (Z.of_nat c))
  = fwd_out q_ptr k_ptr v_ptr (Z.of_nat S) (Z.of_nat D) st st st scale
      BS BS BLOCK_SIZE_K IS_CAUSAL b h m_id r c.
Proof.
  intros Hh Hr Hi Hc Hrow. unfold flash_attn_v2_forward.
  set (offs := block_offset (b * batch_stride st) (h * head_stride st) st
                 (fwd_row_indices BS m_id)).
  assert (forall r' j', offs r' j'
            = off b h (fwd_row_indices BS m_id r') (Z.of_nat j')) as Eoffs.
  { intros r' j'. subst offs. unfold block_offset, dense_offset.
    cbn [batch_stride head_stride seq_stride head_dim_stride dense_strides].
    lia. }
  assert (fwd_row_indices BS m_id r = Z.of_nat i) as Erow
    by (unfold fwd_row_indices, fwd_start_m; exact Hrow).
  replace (off b h (Z.of_nat i) (Z.of_nat c)) with (offs r c)
    by (rewrite Eoffs, Erow; reflexivity).
  apply store_tile_hit; try lia.
  - unfold block_mask, fwd_row_mask. rewrite Erow.
    apply andb_true_intro. split; apply Z.ltb_lt; lia.
  - intros r' j' Hr' Hj' Hm E. rewrite !Eoffs, Erow in E.
    unfold block_mask, fwd_row_mask in Hm. apply andb_prop in Hm.
    destruct Hm as (Hm1 & Hm2). apply Z.ltb_lt in Hm1, Hm2.
    assert (0 <= m_id) as Hmid.
    { destruct (Z.lt_ge_cases m_id 0) as [Hneg | ?]; [| assumption].
      assert (m_id * Z.of_nat BS <= -1 * Z.of_nat BS)
        by (apply Z.mul_le_mono_nonneg_r; lia).
      lia. }
    assert (0 <= fwd_row_indices BS m_id r')
      by (unfold fwd_row_indices, fwd_start_m; nia).
    apply dense_offset_inj in E; try lia.
    destruct E as (_ & _ & Ei & Ec).
    unfold fwd_row_indices, fwd_start_m in Ei. split; lia.
Qed.

(** No other program of the grid touches that offset. *)
Lemma dense_program_miss (b h b' h' m' : Z) (i c : nat) (o_ptr : buf) :
  0 <= b < B -> 0 <= h < H -> (i < S)%nat -> (c < D)%nat ->
  0 <= b' -> 0 <= h' < H -> 0 <= m' ->
  (b', h', m') <> (b, h, Z.of_nat i / Z.of_nat BS) ->
  prog b' h' m' o_ptr (off b h (Z.of_nat i) (Z.of_nat c))
  = o_ptr (off b h (Z.of_nat i) (Z.of_nat c)).
Proof.
  intros Hb Hh Hi Hc Hb' Hh' Hm' Hne. unfold flash_attn_v2_forward.
  assert (off b h (Z.of_nat i) (Z.of_nat c)
          < Z.of_nat S * Z.of_nat D * H * Z.of_nat D) as Hlt.
  { unfold dense_offset.
    set (s := Z.of_nat S) in *. set (d := Z.of_nat D) in *.
    assert (0 < s) by (subst s; lia). assert (0 < d) by (subst d; lia).
    assert (Z.of_nat i * d + Z.of_nat c < s * d).
    { assert (Z.of_nat i * d <= (s - 1) * d)
        by (apply Z.mul_le_mono_nonneg_r; subst s; lia).
      subst d. lia. }
    assert (h * (s * d) <= (H - 1) * (s * d))
      by (apply Z.mul_le_mono_nonneg_r; nia).
    assert (b * (H * s * d) <= (d - 1) * (H * s * d))
      by (apply Z.mul_le_mono_nonneg_r; nia).
    nia. }
  rewrite store_tile_other.
  - rewrite store_vec_other.
    + apply store_vec_other. intros r Hr Hm E.
      unfold fwd_row_mask, fwd_row_indices, fwd_start_m in Hm, E.
      apply Z.ltb_lt in Hm. unfold fwd_m_off in E. nia.
    + intros r Hr Hm E.
      unfold fwd_row_mask, fwd_row_indices, fwd_start_m in Hm, E.
      apply Z.ltb_lt in Hm. unfold fwd_l_off, fwd_m_off in E. nia.
  - intros r j Hr Hj Hm E.
    unfold block_mask, fwd_row_mask in Hm. apply andb_prop in Hm.
    destruct Hm as (Hm1 & Hm2). apply Z.ltb_lt in Hm1, Hm2.
    assert (0 <= fwd_row_indices BS m' r)
      by (unfold fwd_row_indices, fwd_start_m; nia).
    assert (block_offset (b' * batch_stride st) (h' * head_stride st) st
              (fwd_row_indices BS m') r j
            = off b' h' (fwd_row_indices BS m' r) (Z.of_nat j)) as Eo.
    { unfold block_offset, dense_offset.
      cbn [batch_stride head_stride seq_stride head_dim_stride
           dense_strides]. lia. }
    rewrite Eo in E. apply dense_offset_inj in E; try lia.
    destruct E as (Eb & Eh & Ei & _). apply Hne.
    unfold fwd_row_indices, fwd_start_m in Ei.
    assert (m' = Z.of_nat i / Z.of_nat BS) as ->.
    { apply Z.div_unique with (r := Z.of_nat r); lia. }
    now rewrite Eb, Eh.
Qed.

End DenseForward.

Lemma strides4_dense (b : buf) (B H S D : Z) :
  0 < H -> 0 < S -> 0 < D ->
  strides4 (dense b [B; H; S; D]) = Ok (dense_strides H S D).
Proof.
  intros HH HS HD. unfold strides4, stride, dense, dense_strides.
  cbn [strides contiguous_strides fold_right nth_error bind].
  do 2 f_equal; lia.
Qed.

Lemma run_block_k_covers (head_dim : Z) :
  0 < head_dim ->
  exists bk, run_block_k head_dim = Ok bk /\ head_dim <= bk.
Proof.
  intros Hh.
  destruct (round_block_k_spec head_dim (block_k_fuel head_dim) Hh (le_n _))
    as (p & Ep & _ & Hle & _).
  exists p. unfold run_block_k. rewrite Ep. auto.
Qed.

Lemma dense_finite_slice (p : buf) (B H : Z) (S D : nat) (b h : Z) :
  (forall a, 0 <= a < B * H * Z.of_nat S * Z.of_nat D -> FP.is_finite (p a)) ->
  0 <= b < B -> 0 <= h < H ->
  finite_slice p
    (b * batch_stride (dense_strides H (Z.of_nat S) (Z.of_nat D)))
    (h * head_stride (dense_strides H (Z.of_nat S) (Z.of_nat D)))
    (dense_strides H (Z.of_nat S) (Z.of_nat D)) (Z.of_nat S) (Z.of_nat D).
Proof.
  intros Hf Hb Hh i c Hi Hc. apply Hf.
  cbn [batch_stride head_stride seq_stride head_dim_stride dense_strides].
  set (s := Z.of_nat S) in *. set (d := Z.of_nat D) in *.
  assert (i * d + c < s * d).
  { assert (i * d <= (s - 1) * d) by (apply Z.mul_le_mono_nonneg_r; lia).
    lia. }
  assert (h * (s * d) <= (H - 1) * (s * d))
    by (apply Z.mul_le_mono_nonneg_r; nia).
  assert (b * (H * s * d) <= (B - 1) * (H * s * d))
    by (apply Z.mul_le_mono_nonneg_r; nia).
  split; [nia |]. nia.
Qed.


(** ** The query gradient over tiles *)

Section DqStep.

Variables q_ptr k_ptr v_ptr do_ptr m_ptr l_ptr d_ptr : buf.
Variables seq_len num_heads head_dim : Z.
Variables q_st k_st v_st do_st : Strides.
Variable scale : fval.
Variables BLOCK_SIZE_M BLOCK_SIZE_N BLOCK_SIZE_K : nat.
Variable IS_CAUSAL : bool.
Variables batch_id head_id m_id : Z.

Lemma dq_step_lane (dq_block : tile) (start_n : Z) (r j : nat) :
  dq_step q_ptr k_ptr v_ptr do_ptr m_ptr l_ptr d_ptr seq_len num_heads
    head_dim q_st k_st v_st do_st scale BLOCK_SIZE_M BLOCK_SIZE_N
    BLOCK_SIZE_K IS_CAUSAL batch_id head_id m_id dq_block start_n r j
  = FP.add (dq_block r j)
      (FP.mul
         (tl_sum BLOCK_SIZE_N
            (fun c =>
               FP.mul
                 (FP.mul
                    (FP.exp
                       (FP.sub
                          (fwd_scores q_ptr k_ptr seq_len head_dim q_st k_st
                             scale BLOCK_SIZE_M BLOCK_SIZE_K IS_CAUSAL
                             batch_id head_id m_id start_n r c)
                          (dq_m_i m_ptr seq_len num_heads BLOCK_SIZE_M
                             batch_id head_id m_id r)))
                    (FP.sub
                       (tl_dot BLOCK_SIZE_K
                          (dq_do_block do_ptr seq_len head_dim do_st
                             BLOCK_SIZE_M batch_id head_id m_id r)
                          (fwd_v_block v_ptr seq_len head_dim v_st batch_id
                             head_id start_n c))
                       (dq_d_i d_ptr seq_len num_heads BLOCK_SIZE_M
                          batch_id head_id m_id r)))
                 (fwd_v_block k_ptr seq_len head_dim k_st batch_id head_id
                    start_n c j)))
         scale).
Proof. reflexivity. Qed.

End DqStep.

Section DqReference.

Variables q_ptr k_ptr v_ptr do_ptr m_ptr l_ptr d_ptr : buf.
Variables S D : nat.
Variable num_heads : Z.
Variables q_st k_st v_st do_st : Strides.
Variable s : R.
Variables BLOCK_SIZE_M BLOCK_SIZE_N BLOCK_SIZE_K : nat.
Variable IS_CAUSAL : bool.
Variables batch_id head_id m_id : Z.
Variables r i : nat.
Variables mR dR : R.

Hypothesis HBN : (0 < BLOCK_SIZE_N)%nat.
Hypothesis HD : (D <= BLOCK_SIZE_K)%nat.
Hypothesis Hrow : dq_row_indices BLOCK_SIZE_M m_id r = Z.of_nat i.
Hypothesis Hi : (i < S)%nat.
Hypothesis Hq :
  finite_slice q_ptr (batch_id * batch_stride q_st)
    (head_id * head_stride q_st) q_st (Z.of_nat S) (Z.of_nat D).
Hypothesis Hk :
  finite_slice k_ptr (batch_id * batch_stride k_st)
    (head_id * head_stride k_st) k_st (Z.of_nat S) (Z.of_nat D).
Hypothesis Hv :
  finite_slice v_ptr (batch_id * batch_stride v_st)
    (head_id * head_stride v_st) v_st (Z.of_nat S) (Z.of_nat D).
Hypothesis Hdo :
  finite_slice do_ptr (batch_id * batch_stride do_st)
    (head_id * head_stride do_st) do_st (Z.of_nat S) (Z.of_nat D).
Hypothesis Hm :
  m_ptr (dq_m_offset (Z.of_nat S) num_heads batch_id head_id + Z.of_nat i)
  = Fin mR.
Hypothesis Hd :
  d_ptr (dq_m_offset (Z.of_nat S) num_heads batch_id head_id + Z.of_nat i)
  = Fin dR.

Local Notation "'Q'" :=
  (slice_R q_ptr (batch_id * batch_stride q_st) (head_id * head_stride q_st)
     q_st).
Local Notation "'K'" :=
  (slice_R k_ptr (batch_id * batch_stride k_st) (head_id * head_stride k_st)
     k_st).
Local Notation "'V'" :=
  (slice_R v_ptr (batch_id * batch_stride v_st) (head_id * head_stride v_st)
     v_st).
Local Notation "'dO'" :=
  (slice_R do_ptr (batch_id * batch_stride do_st)
     (head_id * head_stride do_st) do_st).
Local Notation "'sR'" := (ref_scores s D Q K i).
Local Notation "'scores'" :=
  (fwd_scores q_ptr k_ptr (Z.of_nat S) (Z.of_nat D) q_st k_st (Fin s)
     BLOCK_SIZE_M BLOCK_SIZE_K IS_CAUSAL batch_id head_id m_id).
Local Notation "'term'" := (dq_term IS_CAUSAL D i sR mR dR dO V K).

Lemma dq_row_mask_true :
  dq_row_mask (Z.of_nat S) BLOCK_SIZE_M m_id r = true.
Proof. unfold dq_row_mask. rewrite Hrow. apply Z.ltb_lt. lia. Qed.

Lemma dq_m_i_real :
  dq_m_i m_ptr (Z.of_nat S) num_heads BLOCK_SIZE_M batch_id head_id m_id r
  = Fin mR.
Proof.
  unfold dq_m_i, tl_load. now rewrite dq_row_mask_true, Hrow, Hm.
Qed.

Lemma dq_d_i_real :
  dq_d_i d_ptr (Z.of_nat S) num_heads BLOCK_SIZE_M batch_id head_id m_id r
  = Fin dR.
Proof.
  unfold dq_d_i, tl_load. now rewrite dq_row_mask_true, Hrow, Hd.
Qed.

Lemma dq_do_block_real j :
  dq_do_block do_ptr (Z.of_nat S) (Z.of_nat D) do_st BLOCK_SIZE_M
    batch_id head_id m_id r j
  = Fin (if (j <? D)%nat then dO i j else 0%R).
Proof.
  unfold dq_do_block.
  rewrite (load_block_real _ _ _ _ _ _ S D) by
    (assumption || (intros _; exists i; split; [exact Hrow | exact Hi])).
  rewrite dq_row_mask_true, Hrow. reflexivity.
Qed.

(** The dot product of the row of dO with a Value tile lane. *)
Lemma dq_dp_real (N c : nat) :
  tl_dot BLOCK_SIZE_K
    (dq_do_block do_ptr (Z.of_nat S) (Z.of_nat D) do_st BLOCK_SIZE_M
       batch_id head_id m_id r)
    (fwd_v_block v_ptr (Z.of_nat S) (Z.of_nat D) v_st batch_id head_id
       (Z.of_nat N) c)
  = Fin (rsum D (fun j => dO i j * zero_padded S D V (N + c)%nat j)%R).
Proof.
  apply tl_dot_real.
  - exact HD.
  - apply dq_do_block_real.
  - intros j _. eexists. split; [| reflexivity].
    eapply fwd_v_block_real; eassumption.
  - intros j _. eexists. eapply fwd_v_block_real; eassumption.
Qed.

(** Every lane of the score tile is a finite number or minus infinity. *)
Lemma dq_scores_fin_or_ninf (N c : nat) :
  fin_or_ninf (scores (Z.of_nat N) r c).
Proof.
  assert (exists x,
    FP.mul
      (tl_dot BLOCK_SIZE_K
         (fwd_q_block q_ptr (Z.of_nat S) (Z.of_nat D) q_st BLOCK_SIZE_M
            batch_id head_id m_id r)
         (fwd_v_block k_ptr (Z.of_nat S) (Z.of_nat D) k_st batch_id head_id
            (Z.of_nat N) c))
      (Fin s) = Fin x) as (x & Ex).
  { rewrite (tl_dot_real BLOCK_SIZE_K D _ _ (Q i)
               (zero_padded S D K (N + c)%nat)).
    - cbn [FP.mul]. eauto.
    - exact HD.
    - intros j. eapply fwd_q_block_real; eassumption.
    - intros j _. eexists. split; [| reflexivity].
      eapply fwd_v_block_real; eassumption.
    - intros j _. eexists. eapply fwd_v_block_real; eassumption. }
  unfold fwd_scores, fin_or_ninf, tl_where.
  change (load_block k_ptr (batch_id * batch_stride k_st)
            (head_id * head_stride k_st) k_st
            (fun c0 : nat => Z.of_nat N + Z.of_nat c0)
            (fun c0 : nat => Z.of_nat N + Z.of_nat c0 <? Z.of_nat S)
            (Z.of_nat D))
    with (fwd_v_block k_ptr (Z.of_nat S) (Z.of_nat D) k_st batch_id head_id
            (Z.of_nat N)).
  rewrite Ex.
  destruct IS_CAUSAL; [| right; exact I].
  destruct (_ >=? _); [right; exact I | left; reflexivity].
Qed.

(** One key lane of a tile contributes its term, and nothing when the
    position is past the sequence. *)
Lemma dq_lane (N c j : nat) :
  (j < D)%nat ->
  FP.mul
    (FP.mul
       (FP.exp
          (FP.sub (scores (Z.of_nat N) r c)
             (dq_m_i m_ptr (Z.of_nat S) num_heads BLOCK_SIZE_M batch_id
                head_id m_id r)))
       (FP.sub
          (tl_dot BLOCK_SIZE_K
             (dq_do_block do_ptr (Z.of_nat S) (Z.of_nat D) do_st
                BLOCK_SIZE_M batch_id head_id m_id r)
             (fwd_v_block v_ptr (Z.of_nat S) (Z.of_nat D) v_st batch_id
                head_id (Z.of_nat N) c))
          (dq_d_i d_ptr (Z.of_nat S) num_heads BLOCK_SIZE_M batch_id
             head_id m_id r)))
    (fwd_v_block k_ptr (Z.of_nat S) (Z.of_nat D) k_st batch_id head_id
       (Z.of_nat N) c j)
  = Fin (if (N + c <? S)%nat then term j (N + c)%nat else 0%R).
Proof.
  intros Hj.
  rewrite dq_m_i_real, dq_d_i_real, dq_dp_real.
  rewrite (fwd_v_block_real k_ptr S D k_st BLOCK_SIZE_N BLOCK_SIZE_K
             batch_id head_id i HBN HD Hi Hk).
  unfold zero_padded at 2.
  destruct (Nat.ltb_spec (N + c) S) as [Hc | Hc]; cbn [andb].
  - destruct (Nat.ltb_spec j D); [| lia].
    assert (rsum D (fun j0 => (dO i j0 * zero_padded S D V (N + c)%nat j0)%R)
            = rsum D (fun j0 => (dO i j0 * V (N + c)%nat j0)%R)) as Edp.
    { apply rsum_ext. intros j0 Hj0. unfold zero_padded.
      destruct (Nat.ltb_spec (N + c) S); [| lia].
      destruct (Nat.ltb_spec j0 D); [| lia]. reflexivity. }
    rewrite Edp. unfold dq_term, dq_weight.
    destruct IS_CAUSAL eqn:Ec.
    + rewrite (fwd_scores_lane_causal q_ptr k_ptr S D q_st k_st s
                 BLOCK_SIZE_M BLOCK_SIZE_N BLOCK_SIZE_K true batch_id
                 head_id m_id r i HBN HD Hrow Hi Hq Hk N c eq_refl).
      rewrite lane_weight. unfold row_weight.
      replace (N + c <? i + 1)%nat with (N + c <=? i)%nat
        by (destruct (Nat.leb_spec (N + c) i);
            destruct (Nat.ltb_spec (N + c) (i + 1)); lia || reflexivity).
      cbn [FP.sub FP.mul FP.neg FP.add]. f_equal.
    + rewrite (fwd_scores_lane_noncausal q_ptr k_ptr S D q_st k_st s
                 BLOCK_SIZE_M BLOCK_SIZE_N BLOCK_SIZE_K false batch_id
                 head_id m_id r i HBN HD Hrow Hi Hq Hk N c eq_refl Hc).
      rewrite lane_weight. unfold row_weight.
      destruct (Nat.ltb_spec (N + c) S); [| lia].
      cbn [FP.sub FP.mul FP.neg FP.add]. f_equal.
  - destruct (exp_sub_fin (scores (Z.of_nat N) r c) mR
                (dq_scores_fin_or_ninf N c)) as (x & Ex & _).
    rewrite Ex. cbn [FP.sub FP.mul FP.neg FP.add]. f_equal. ring.
Qed.

Local Notation "'padded'" :=
  (fun j col : nat => if (col <? S)%nat then term j col else 0%R).
Local Notation "'step'" :=
  (dq_step q_ptr k_ptr v_ptr do_ptr m_ptr l_ptr d_ptr (Z.of_nat S) num_heads
     (Z.of_nat D) q_st k_st v_st do_st (Fin s) BLOCK_SIZE_M BLOCK_SIZE_N
     BLOCK_SIZE_K IS_CAUSAL batch_id head_id m_id).

Lemma dq_step_sum (t : nat) (dq_block : tile) (j : nat) :
  (j < D)%nat ->
  dq_block r j = Fin (rsum (t * BLOCK_SIZE_N) (padded j) * s) ->
  step dq_block (Z.of_nat t * Z.of_nat BLOCK_SIZE_N) r j
  = Fin (rsum (Datatypes.S t * BLOCK_SIZE_N) (padded j) * s).
Proof.
  intros Hj Hdq. rewrite dq_step_lane, Hdq, <- Nat2Z.inj_mul.
  rewrite (tl_sum_fin BLOCK_SIZE_N _
             (fun c => padded j (t * BLOCK_SIZE_N + c)%nat))
    by (intros c _; now apply dq_lane).
  cbn [FP.mul FP.add]. f_equal.
  replace (Datatypes.S t * BLOCK_SIZE_N)%nat
    with (t * BLOCK_SIZE_N + BLOCK_SIZE_N)%nat by lia.
  rewrite rsum_split. ring.
Qed.

Lemma dq_fold_sum (j : nat) (len : nat) :
  forall (t : nat) (dq_block : tile),
    (j < D)%nat ->
    dq_block r j = Fin (rsum (t * BLOCK_SIZE_N) (padded j) * s) ->
    fold_left step
      (map (fun t => Z.of_nat t * Z.of_nat BLOCK_SIZE_N) (seq t len))
      dq_block r j
    = Fin (rsum ((t + len) * BLOCK_SIZE_N) (padded j) * s).
Proof.
  induction len as [| len IH]; intros t dq_block Hj Hdq.
  - cbn [seq map fold_left]. now rewrite Nat.add_0_r.
  - cbn [seq map fold_left].
    replace (t + Datatypes.S len)%nat with (Datatypes.S t + len)%nat by lia.
    apply IH; [assumption |]. now apply dq_step_sum.
Qed.

(** The row of the gradient tile when the loop over the key tiles ends. *)
Lemma dq_loop_sum (j : nat) :
  (j < D)%nat ->
  dq_loop q_ptr k_ptr v_ptr do_ptr m_ptr l_ptr d_ptr (Z.of_nat S) num_heads
    (Z.of_nat D) q_st k_st v_st do_st (Fin s) BLOCK_SIZE_M BLOCK_SIZE_N
    BLOCK_SIZE_K IS_CAUSAL batch_id head_id m_id r j
  = Fin (s * rsum S (term j)).
Proof.
  intros Hj. unfold dq_loop, py_range.
  pose proof (cdiv_covers S BLOCK_SIZE_N HBN) as Hcov.
  set (T := Z.to_nat ((Z.of_nat S + Z.of_nat BLOCK_SIZE_N - 1)
                      / Z.of_nat BLOCK_SIZE_N)) in *.
  rewrite (dq_fold_sum j T 0%nat);
    [| assumption | cbv beta; unfold FP.zero; cbn [Nat.mul rsum]; f_equal; ring].
  f_equal. cbn [Nat.add].
  rewrite (rsum_zero_tail S (T * BLOCK_SIZE_N)).
  - rewrite Rmult_comm. f_equal. apply rsum_ext. intros c Hc.
    destruct (Nat.ltb_spec c S); [reflexivity | lia].
  - lia.
  - intros c Hc. destruct (Nat.ltb_spec c S); [lia | reflexivity].
Qed.

End DqReference.


(** ** The key and value gradients over tiles *)

Section DkvStep.

Variables q_ptr k_ptr v_ptr do_ptr m_ptr d_ptr : buf.
Variables seq_len num_heads head_dim : Z.
Variables q_st k_st v_st do_st : Strides.
Variable scale : fval.
Variables BLOCK_SIZE_M BLOCK_SIZE_N BLOCK_SIZE_K : nat.
Variable IS_CAUSAL : bool.
Variables batch_id head_id n_id : Z.

Local Notation "'p_t'" :=
  (dkv_p_t k_ptr q_ptr m_ptr seq_len num_heads head_dim q_st k_st scale
     BLOCK_SIZE_N BLOCK_SIZE_K IS_CAUSAL batch_id head_id n_id).

Lemma dkv_step_dv_lane (st : dkv_state) (start_m : Z) (c j : nat) :
  dv_block
    (dkv_step q_ptr k_ptr v_ptr do_ptr m_ptr d_ptr seq_len num_heads
       head_dim q_st k_st v_st do_st scale BLOCK_SIZE_M BLOCK_SIZE_N
       BLOCK_SIZE_K IS_CAUSAL batch_id head_id n_id st start_m) c j
  = FP.add (dv_block st c j)
      (tl_sum BLOCK_SIZE_M
         (fun r =>
            FP.mul (p_t start_m c r)
              (fwd_v_block do_ptr seq_len head_dim do_st batch_id head_id
                 start_m r j))).
Proof. reflexivity. Qed.

Lemma dkv_step_dk_lane (st : dkv_state) (start_m : Z) (c j : nat) :
  dk_block
    (dkv_step q_ptr k_ptr v_ptr do_ptr m_ptr d_ptr seq_len num_heads
       head_dim q_st k_st v_st do_st scale BLOCK_SIZE_M BLOCK_SIZE_N
       BLOCK_SIZE_K IS_CAUSAL batch_id head_id n_id st start_m) c j
  = FP.add (dk_block st c j)
      (FP.mul
         (tl_sum BLOCK_SIZE_M
            (fun r =>
               FP.mul
                 (FP.mul (p_t start_m c r)
                    (FP.sub
                       (tl_dot BLOCK_SIZE_K
                          (dkv_v_block v_ptr seq_len head_dim v_st
                             BLOCK_SIZE_N batch_id head_id n_id c)
                          (fwd_v_block do_ptr seq_len head_dim do_st
                             batch_id head_id start_m r))
                       (tl_load d_ptr
                          (dkv_offset_ml seq_len num_heads batch_id head_id
                           + (start_m + Z.of_nat r))
                          (start_m + Z.of_nat r <? seq_len) FP.zero)))
                 (fwd_v_block q_ptr seq_len head_dim q_st batch_id head_id
                    start_m r j)))
         scale).
Proof. reflexivity. Qed.

End DkvStep.

Section DkvReference.

Variables q_ptr k_ptr v_ptr do_ptr m_ptr d_ptr : buf.
Variables S D : nat.
Variable num_heads : Z.
Variables q_st k_st v_st do_st : Strides.
Variable s : R.
Variables BLOCK_SIZE_M BLOCK_SIZE_N BLOCK_SIZE_K : nat.
Variable IS_CAUSAL : bool.
Variables batch_id head_id n_id : Z.
Variables c n : nat.
Variables mR dR : nat -> R.

Hypothesis HBM : (0 < BLOCK_SIZE_M)%nat.
Hypothesis HD : (D <= BLOCK_SIZE_K)%nat.
Hypothesis Hcol : dkv_col_indices BLOCK_SIZE_N n_id c = Z.of_nat n.
Hypothesis Hn : (n < S)%nat.
Hypothesis Hq :
  finite_slice q_ptr (batch_id * batch_stride q_st)
    (head_id * head_stride q_st) q_st (Z.of_nat S) (Z.of_nat D).
Hypothesis Hk :
  finite_slice k_ptr (batch_id * batch_stride k_st)
    (head_id * head_stride k_st) k_st (Z.of_nat S) (Z.of_nat D).
Hypothesis Hv :
  finite_slice v_ptr (batch_id * batch_stride v_st)
    (head_id * head_stride v_st) v_st (Z.of_nat S) (Z.of_nat D).
Hypothesis Hdo :
  finite_slice do_ptr (batch_id * batch_stride do_st)
    (head_id * head_stride do_st) do_st (Z.of_nat S) (Z.of_nat D).
Hypothesis Hm :
  forall i : nat, (i < S)%nat ->
    m_ptr (dkv_offset_ml (Z.of_nat S) num_heads batch_id head_id
           + Z.of_nat i) = Fin (mR i).
Hypothesis Hd :
  forall i : nat, (i < S)%nat ->
    d_ptr (dkv_offset_ml (Z.of_nat S) num_heads batch_id head_id
           + Z.of_nat i) = Fin (dR i).

Local Notation "'Q'" :=
  (slice_R q_ptr (batch_id * batch_stride q_st) (head_id * head_stride q_st)
     q_st).
Local Notation "'K'" :=
  (slice_R k_ptr (batch_id * batch_stride k_st) (head_id * head_stride k_st)
     k_st).
Local Notation "'V'" :=
  (slice_R v_ptr (batch_id * batch_stride v_st) (head_id * head_stride v_st)
     v_st).
Local Notation "'dO'" :=
  (slice_R do_ptr (batch_id * batch_stride do_st)
     (head_id * head_stride do_st) do_st).
Local Notation "'p_t'" :=
  (dkv_p_t k_ptr q_ptr m_ptr (Z.of_nat S) num_heads (Z.of_nat D) q_st k_st
     (Fin s) BLOCK_SIZE_N BLOCK_SIZE_K IS_CAUSAL batch_id head_id n_id).

Lemma dkv_col_mask_true :
  dkv_col_mask (Z.of_nat S) BLOCK_SIZE_N n_id c = true.
Proof. unfold dkv_col_mask. rewrite Hcol. apply Z.ltb_lt. lia. Qed.

Lemma dkv_k_block_real j :
  dkv_k_block k_ptr (Z.of_nat S) (Z.of_nat D) k_st BLOCK_SIZE_N batch_id
    head_id n_id c j
  = Fin (if (j <? D)%nat then K n j else 0%R).
Proof.
  unfold dkv_k_block.
  rewrite (load_block_real _ _ _ _ _ _ S D) by
    (assumption || (intros _; exists n; split; [exact Hcol | exact Hn])).
  rewrite dkv_col_mask_true, Hcol. reflexivity.
Qed.

Lemma dkv_v_block_real j :
  dkv_v_block v_ptr (Z.of_nat S) (Z.of_nat D) v_st BLOCK_SIZE_N batch_id
    head_id n_id c j
  = Fin (if (j <? D)%nat then V n j else 0%R).
Proof.
  unfold dkv_v_block.
  rewrite (load_block_real _ _ _ _ _ _ S D) by
    (assumption || (intros _; exists n; split; [exact Hcol | exact Hn])).
  rewrite dkv_col_mask_true, Hcol. reflexivity.
Qed.

(** A query row block read by the loop, as padded reals. *)
Lemma dkv_row_block_real (ptr : buf) (st : Strides) (N r j : nat) :
  finite_slice ptr (batch_id * batch_stride st) (head_id * head_stride st)
    st (Z.of_nat S) (Z.of_nat D) ->
  fwd_v_block ptr (Z.of_nat S) (Z.of_nat D) st batch_id head_id
    (Z.of_nat N) r j
  = Fin (zero_padded S D
           (slice_R ptr (batch_id * batch_stride st)
              (head_id * head_stride st) st) (N + r)%nat j).
Proof.
  intros Hf.
  exact (fwd_v_block_real ptr S D st BLOCK_SIZE_M BLOCK_SIZE_K batch_id
           head_id n HBM HD Hn Hf N r j).
Qed.

Lemma dkv_dot_real (a : vec) (ptr : buf) (st : Strides)
    (x : nat -> R) (N r : nat) :
  finite_slice ptr (batch_id * batch_stride st) (head_id * head_stride st)
    st (Z.of_nat S) (Z.of_nat D) ->
  (N + r < S)%nat ->
  (forall j, a j = Fin (if (j <? D)%nat then x j else 0%R)) ->
  tl_dot BLOCK_SIZE_K a
    (fwd_v_block ptr (Z.of_nat S) (Z.of_nat D) st batch_id head_id
       (Z.of_nat N) r)
  = Fin (rsum D (fun j =>
           slice_R ptr (batch_id * batch_stride st)
             (head_id * head_stride st) st (N + r)%nat j * x j)%R).
Proof.
  intros Hf Hr Ha.
  rewrite (tl_dot_real BLOCK_SIZE_K D a _ x
             (zero_padded S D
                (slice_R ptr (batch_id * batch_stride st)
                   (head_id * head_stride st) st) (N + r)%nat)).
  - f_equal. apply rsum_ext. intros j Hj. unfold zero_padded.
    destruct (Nat.ltb_spec (N + r) S); [| lia].
    destruct (Nat.ltb_spec j D); [| lia]. cbn [andb]. ring.
  - exact HD.
  - exact Ha.
  - intros j _. eexists. split; [| reflexivity].
    now apply dkv_row_block_real.
  - intros j _. eexists. now apply dkv_row_block_real.
Qed.

Lemma dkv_p_t_real (N r : nat) :
  (N + r < S)%nat ->
  p_t (Z.of_nat N) c r
  = Fin (dq_weight IS_CAUSAL (N + r)
           (ref_scores s D Q K (N + r)) (mR (N + r)) n).
Proof.
  intros Hr. unfold dkv_p_t, tl_load.
  rewrite <- Nat2Z.inj_add.
  destruct (Z.ltb_spec (Z.of_nat (N + r)) (Z.of_nat S)); [| lia].
  rewrite Hm by assumption.
  rewrite (dkv_dot_real _ q_ptr q_st (K n) N r Hq Hr dkv_k_block_real).
  rewrite Hcol. unfold dq_weight, tl_where, ref_scores.
  destruct IS_CAUSAL.
  - destruct (Z.geb_spec (Z.of_nat (N + r)) (Z.of_nat n));
      destruct (Nat.leb_spec n (N + r)); try lia;
      cbn [FP.mul FP.sub FP.neg FP.add FP.exp]; [| reflexivity].
    do 2 f_equal. ring.
  - cbn [FP.mul FP.sub FP.neg FP.add FP.exp]. do 2 f_equal. ring.
Qed.

Local Notation "'dvt'" := (dv_term IS_CAUSAL D s Q K dO mR n).
Local Notation "'dkt'" := (dk_term IS_CAUSAL D s Q K V dO mR dR n).
Local Notation "'step'" :=
  (dkv_step q_ptr k_ptr v_ptr do_ptr m_ptr d_ptr (Z.of_nat S) num_heads
     (Z.of_nat D) q_st k_st v_st do_st (Fin s) BLOCK_SIZE_M BLOCK_SIZE_N
     BLOCK_SIZE_K IS_CAUSAL batch_id head_id n_id).

Lemma dkv_dv_lane (N r j : nat) :
  (N + r < S)%nat -> (j < D)%nat ->
  FP.mul (p_t (Z.of_nat N) c r)
    (fwd_v_block do_ptr (Z.of_nat S) (Z.of_nat D) do_st batch_id head_id
       (Z.of_nat N) r j)
  = Fin (dvt j (N + r)%nat).
Proof.
  intros Hr Hj.
  rewrite dkv_p_t_real, dkv_row_block_real by assumption.
  unfold zero_padded, dv_term.
  destruct (Nat.ltb_spec (N + r) S); [| lia].
  destruct (Nat.ltb_spec j D); [| lia]. reflexivity.
Qed.

Lemma dkv_dk_lane (N r j : nat) :
  (N + r < S)%nat -> (j < D)%nat ->
  FP.mul
    (FP.mul (p_t (Z.of_nat N) c r)
       (FP.sub
          (tl_dot BLOCK_SIZE_K
             (dkv_v_block v_ptr (Z.of_nat S) (Z.of_nat D) v_st BLOCK_SIZE_N
                batch_id head_id n_id c)
             (fwd_v_block do_ptr (Z.of_nat S) (Z.of_nat D) do_st batch_id
                head_id (Z.of_nat N) r))
          (tl_load d_ptr
             (dkv_offset_ml (Z.of_nat S) num_heads batch_id head_id
              + (Z.of_nat N + Z.of_nat r))
             (Z.of_nat N + Z.of_nat r <? Z.of_nat S) FP.zero)))
    (fwd_v_block q_ptr (Z.of_nat S) (Z.of_nat D) q_st batch_id head_id
       (Z.of_nat N) r j)
  = Fin (dkt j (N + r)%nat).
Proof.
  intros Hr Hj.
  rewrite dkv_p_t_real by assumption.
  rewrite (dkv_dot_real _ do_ptr do_st (V n) N r Hdo Hr dkv_v_block_real).
  rewrite dkv_row_block_real by assumption.
  unfold tl_load. rewrite <- Nat2Z.inj_add.
  destruct (Z.ltb_spec (Z.of_nat (N + r)) (Z.of_nat S)); [| lia].
  rewrite Hd by assumption.
  unfold zero_padded, dk_term.
  destruct (Nat.ltb_spec (N + r) S); [| lia].
  destruct (Nat.ltb_spec j D); [| lia]. reflexivity.
Qed.

Variable T : nat.
Hypothesis Hdiv : S = (T * BLOCK_SIZE_M)%nat.

Lemma dkv_step_sums (t : nat) (st : dkv_state) (j : nat) :
  (t < T)%nat -> (j < D)%nat ->
  dv_block st c j = Fin (rsum (t * BLOCK_SIZE_M) (dvt j)) /\
  dk_block st c j = Fin (rsum (t * BLOCK_SIZE_M) (dkt j) * s) ->
  dv_block (step st (Z.of_nat t * Z.of_nat BLOCK_SIZE_M)) c j
  = Fin (rsum (Datatypes.S t * BLOCK_SIZE_M) (dvt j)) /\
  dk_block (step st (Z.of_nat t * Z.of_nat BLOCK_SIZE_M)) c j
  = Fin (rsum (Datatypes.S t * BLOCK_SIZE_M) (dkt j) * s).
Proof.
  intros Ht Hj (Hdv & Hdk).
  assert (forall r, (r < BLOCK_SIZE_M)%nat ->
            (t * BLOCK_SIZE_M + r < S)%nat) as Hrows.
  { intros r Hr.
    assert ((t + 1) * BLOCK_SIZE_M <= T * BLOCK_SIZE_M)%nat
      by (apply Nat.mul_le_mono_r; lia).
    lia. }
  replace (Datatypes.S t * BLOCK_SIZE_M)%nat
    with (t * BLOCK_SIZE_M + BLOCK_SIZE_M)%nat by lia.
  rewrite !rsum_split.
  rewrite dkv_step_dv_lane, dkv_step_dk_lane, Hdv, Hdk, <- Nat2Z.inj_mul.
  rewrite (tl_sum_fin BLOCK_SIZE_M _
             (fun r => dvt j (t * BLOCK_SIZE_M + r)%nat))
    by (intros r Hr; apply dkv_dv_lane; auto).
  rewrite (tl_sum_fin BLOCK_SIZE_M _
             (fun r => dkt j (t * BLOCK_SIZE_M + r)%nat))
    by (intros r Hr; apply dkv_dk_lane; auto).
  cbn [FP.mul FP.add]. split; f_equal. ring.
Qed.

Lemma dkv_fold_sums (j : nat) (len : nat) :
  forall (t : nat) (st : dkv_state),
    (t + len <= T)%nat -> (j < D)%nat ->
    dv_block st c j = Fin (rsum (t * BLOCK_SIZE_M) (dvt j)) /\
    dk_block st c j = Fin (rsum (t * BLOCK_SIZE_M) (dkt j) * s) ->
    let st' :=
      fold_left step
        (map (fun t => Z.of_nat t * Z.of_nat BLOCK_SIZE_M) (seq t len))
        st in
    dv_block st' c j = Fin (rsum ((t + len) * BLOCK_SIZE_M) (dvt j)) /\
    dk_block st' c j = Fin (rsum ((t + len) * BLOCK_SIZE_M) (dkt j) * s).
Proof.
  induction len as [| len IH]; intros t st Hlen Hj Hst.
  - cbn [seq map fold_left]. now rewrite Nat.add_0_r.
  - cbn [seq map fold_left].
    replace (t + Datatypes.S len)%nat with (Datatypes.S t + len)%nat by lia.
    apply IH; [lia | assumption |]. apply dkv_step_sums; [lia | assumption..].
Qed.

(** The gradient tiles when the loop over the query tiles ends. *)
Lemma dkv_loop_sums (j : nat) :
  (j < D)%nat ->
  let st :=
    dkv_loop q_ptr k_ptr v_ptr do_ptr m_ptr d_ptr (Z.of_nat S) num_heads
      (Z.of_nat D) q_st k_st v_st do_st (Fin s) BLOCK_SIZE_M BLOCK_SIZE_N
      BLOCK_SIZE_K IS_CAUSAL batch_id head_id n_id in
  dv_block st c j = Fin (rsum S (dvt j)) /\
  dk_block st c j = Fin (s * rsum S (dkt j)).
Proof.
  intros Hj st. subst st. unfold dkv_loop, py_range.
  assert (Z.to_nat ((Z.of_nat S + Z.of_nat BLOCK_SIZE_M - 1)
                    / Z.of_nat BLOCK_SIZE_M) = T) as ET
    by (rewrite Hdiv; apply cdiv_exact; exact HBM).
  rewrite ET.
  destruct (dkv_fold_sums j T 0%nat
              {| dk_block := fun _ _ => FP.zero;
                 dv_block := fun _ _ => FP.zero |}) as (Ev & Ek).
  - lia.
  - assumption.
  - cbn [dv_block dk_block Nat.mul rsum]. unfold FP.zero.
    split; f_equal. ring.
  - cbn [Nat.add] in Ev, Ek. rewrite <- Hdiv in Ev, Ek.
    split; [exact Ev |]. rewrite Ek. f_equal. ring.
Qed.

End DkvReference.

(** A masked tile store over consecutive rows, with unit feature stride
    and rows that do not overlap, leaves each in-range lane at its own
    address. *)
Lemma store_tile_block_hit (n k D : nat) (boff hoff : Z) (st : Strides)
    (idx : nat -> Z) (z : Z) (msk : nat -> bool) (x : tile) (ptr : buf)
    (r j : nat) :
  (forall r', idx r' = z + Z.of_nat r') ->
  head_dim_stride st = 1 ->
  Z.of_nat D <= seq_stride st ->
  (r < n)%nat -> (D <= k)%nat -> (j < D)%nat -> msk r = true ->
  store_tile n k (block_offset boff hoff st idx) x
    (block_mask msk (Z.of_nat D)) ptr
    (boff + hoff + idx r * seq_stride st + Z.of_nat j)
  = x r j.
Proof.
  intros Hidx Hhs Hss Hr HD Hj Hm.
  replace (boff + hoff + idx r * seq_stride st + Z.of_nat j)
    with (block_offset boff hoff st idx r j)
    by (unfold block_offset; rewrite Hhs; lia).
  apply store_tile_hit.
  - exact Hr.
  - lia.
  - unfold block_mask. rewrite Hm. apply Z.ltb_lt. lia.
  - intros r' j' _ _ Hm' E.
    unfold block_mask in Hm'. apply andb_prop in Hm'.
    destruct Hm' as (_ & Hj'). apply Z.ltb_lt in Hj'.
    unfold block_offset in E. rewrite Hhs, !Hidx in E.
    set (ss := seq_stride st) in *.
    assert (Z.of_nat r' = Z.of_nat r) as Er.
    { destruct (Z.lt_trichotomy (Z.of_nat r') (Z.of_nat r))
        as [Hlt | [Heq | Hgt]]; [exfalso | exact Heq | exfalso].
      - assert ((Z.of_nat r - Z.of_nat r') * ss >= 1 * ss)
          by (apply Z.le_ge, Z.mul_le_mono_nonneg_r; lia).
        lia.
      - assert ((Z.of_nat r' - Z.of_nat r) * ss >= 1 * ss)
          by (apply Z.le_ge, Z.mul_le_mono_nonneg_r; lia).
        lia. }
    split; [lia |]. rewrite Er in E. lia.
Qed.


(** ** The backward call after a forward call *)

Lemma contiguous_strides_length (s : list Z) :
  length (contiguous_strides s) = length s.
Proof.
  induction s as [| a s IH]; [reflexivity |].
  cbn [contiguous_strides length]. now rewrite IH.
Qed.

Lemma contiguous_strides_count (t : Tensor) (raw : buf) :
  length (strides (contiguous t raw)) = length (shape t).
Proof.
  unfold contiguous.
  destruct (list_eq_dec Z.eq_dec (strides t) (contiguous_strides (shape t)))
    as [E | _].
  - rewrite E. apply contiguous_strides_length.
  - apply contiguous_strides_length.
Qed.

(** What a forward call that returned has checked, and what it saved. *)
Lemma forward_ok_inv (raw : Uninit) (q k v : Tensor) (scale : fval)
    (causal : bool) (block_size : Z) (o : Tensor) (ctx : Ctx) :
  FlashAttentionV2_forward raw q k v scale causal block_size = Ok (o, ctx) ->
  (exists a b c d, unpack4 (shape q) = Ok (a, b, c, d)) /\
  block_size <> 0 /\
  (exists st, strides4 q = Ok st) /\
  (exists st, strides4 k = Ok st) /\
  (exists st, strides4 v = Ok st) /\
  saved_q ctx = q /\ saved_k ctx = k /\ saved_v ctx = v /\
  strides (saved_o ctx) = strides q /\
  ctx_block_size ctx = block_size.
Proof.
  unfold FlashAttentionV2_forward.
  destruct (unpack4_cases (shape q))
    as [(Hlen & a & b & c & d & Es & ->) | (Hlen & ->)]; cbn [bind];
    [| discriminate].
  unfold cdiv. destruct (Z.eqb_spec block_size 0) as [Hb | Hb]; cbn [bind];
    [discriminate |].
  destruct (run_block_k_total d) as [bk ->]. cbn [bind].
  assert (strides4 (torch_empty_like q (raw_o raw)) = strides4 q) as Eo
    by reflexivity.
  rewrite Eo.
  destruct (strides4_cases q) as [(Hq & sq & Eq) | (Hq & Eq)]; rewrite Eq;
    cbn [bind]; [| discriminate].
  destruct (strides4_cases k) as [(Hk & sk & Ek) | (Hk & Ek)]; rewrite Ek;
    cbn [bind]; [| discriminate].
  destruct (strides4_cases v) as [(Hv & sv & Ev) | (Hv & Ev)]; rewrite Ev;
    cbn [bind]; [| discriminate].
  intros E. injection E as <- <-. cbn.
  repeat split; eauto.
Qed.

Lemma strides4_by_strides (t t' : Tensor) :
  strides t = strides t' -> strides4 t = strides4 t'.
Proof. intros E. unfold strides4, stride. now rewrite E. Qed.


Lemma forward_is_softmax_attention_witness :
  (0 < 2)%nat /\ (1 <= 1)%nat /\ 2%nat = (1 * 2)%nat /\
  fwd_row_indices 2 0 0 = Z.of_nat 0 /\ (0 < 2)%nat /\
  finite_slice (const_buf (Fin 1)) (0 * batch_stride st_1121)
    (0 * head_stride st_1121) st_1121 (Z.of_nat 2) (Z.of_nat 1) /\
  fwd_out (const_buf (Fin 1)) (const_buf (Fin 1)) (const_buf (Fin 1))
    (Z.of_nat 2) (Z.of_nat 1) st_1121 st_1121 st_1121 (Fin 1)
    2 2 1 false 0 0 0 0%nat 0%nat
  = Fin (attention_ref 1 2 1
           (slice_R (const_buf (Fin 1)) (0 * batch_stride st_1121)
              (0 * head_stride st_1121) st_1121)
           (slice_R (const_buf (Fin 1)) (0 * batch_stride st_1121)
              (0 * head_stride st_1121) st_1121)
           (slice_R (const_buf (Fin 1)) (0 * batch_stride st_1121)
              (0 * head_stride st_1121) st_1121) 0 0).
Proof.
  assert (finite_slice (const_buf (Fin 1)) (0 * batch_stride st_1121)
            (0 * head_stride st_1121) st_1121 (Z.of_nat 2) (Z.of_nat 1))
    as Hf by (intros i c _ _; exact I).
  split; [lia |]. split; [lia |]. split; [reflexivity |].
  split; [reflexivity |]. split; [lia |]. split; [exact Hf |].
  apply (forward_is_softmax_attention (const_buf (Fin 1)) (const_buf (Fin 1))
           (const_buf (Fin 1)) 2 1 st_1121 st_1121 st_1121 1 2 2 1 0 0 0
           0 0 1); (lia || reflexivity || exact Hf).
Defined.


Lemma forward_program_frame_witness :
  flash_attn_v2_forward (const_buf (Fin 1)) (const_buf (Fin 1))
    (const_buf (Fin 1)) 2 1 1 st_1121 st_1121 st_1121 st_1121 (Fin 1)
    2 2 1 false 0 0 0 (const_buf (Fin 0)) 100
  = const_buf (Fin 0) 100.
Proof.
  apply (forward_program_frame (const_buf (Fin 1)) (const_buf (Fin 1))
           (const_buf (Fin 1)) (const_buf (Fin 0)) 2 1 1
           st_1121 st_1121 st_1121 st_1121 (Fin 1) 2 2 1 false 0 0 0 100).
  intros r Hr Hrow. unfold st_1121.
  cbn [batch_stride head_stride seq_stride head_dim_stride].
  split; [lia | split; [lia |]]. intros j Hj Hd. lia.
Defined.

Lemma dq_program_frame_witness :
  flash_attn_v2_backward_dq (const_buf (Fin 1)) (const_buf (Fin 1))
    (const_buf (Fin 1)) (const_buf (Fin 1)) (const_buf (Fin 0))
    (const_buf (Fin 2)) (const_buf (Fin 1)) 2 1 1
    st_1121 st_1121 st_1121 st_1121 st_1121 (Fin 1) 2 2 1 false 0 0 0
    (const_buf (Fin 0)) 100
  = const_buf (Fin 0) 100.
Proof.
  apply (dq_program_frame (const_buf (Fin 1)) (const_buf (Fin 1))
           (const_buf (Fin 1)) (const_buf (Fin 1)) (const_buf (Fin 0))
           (const_buf (Fin 2)) (const_buf (Fin 1)) (const_buf (Fin 0)) 2 1 1
           st_1121 st_1121 st_1121 st_1121 st_1121 (Fin 1) 2 2 1 false
           0 0 0 100).
  intros r j Hr Hj Hrow Hd. unfold st_1121.
  cbn [batch_stride head_stride seq_stride head_dim_stride]. lia.
Defined.

Lemma dkv_program_frame_witness :
  fst (flash_attn_v2_backward_dkv (const_buf (Fin 1)) (const_buf (Fin 1))
         (const_buf (Fin 1)) (const_buf (Fin 1)) (const_buf (Fin 0))
         (const_buf (Fin 1)) 2 1 1
         st_1121 st_1121 st_1121 st_1121 st_1121 st_1121 (Fin 1) 2 2 1 false
         0 0 0 (const_buf (Fin 2)) (const_buf (Fin 0)) (const_buf (Fin 0)))
    100
  = const_buf (Fin 0) 100.
Proof.
  apply (dkv_program_frame (const_buf (Fin 1)) (const_buf (Fin 1))
           (const_buf (Fin 1)) (const_buf (Fin 1)) (const_buf (Fin 0))
           (const_buf (Fin 1)) (const_buf (Fin 2)) (const_buf (Fin 0))
           (const_buf (Fin 0)) 2 1 1
           st_1121 st_1121 st_1121 st_1121 st_1121 st_1121 (Fin 1) 2 2 1
           false 0 0 0 100).
  intros c j Hc Hj Hcol Hd. unfold st_1121.
  cbn [batch_stride head_stride seq_stride head_dim_stride]. lia.
Defined.

Lemma forward_reads_only_in_range_witness :
  agree_slice (const_buf (Fin 1)) (upd (const_buf (Fin 1)) 50 NaN)
    (0 * batch_stride st_1121) (0 * head_stride st_1121) st_1121 2 1 /\
  flash_attn_v2_forward (const_buf (Fin 1)) (const_buf (Fin 1))
    (const_buf (Fin 1)) 2 1 1 st_1121 st_1121 st_1121 st_1121 (Fin 1)
    2 2 1 false 0 0 0 (const_buf (Fin 0)) 0
  = flash_attn_v2_forward (upd (const_buf (Fin 1)) 50 NaN)
      (upd (const_buf (Fin 1)) 50 NaN) (upd (const_buf (Fin 1)) 50 NaN)
      2 1 1 st_1121 st_1121 st_1121 st_1121 (Fin 1)
      2 2 1 false 0 0 0 (const_buf (Fin 0)) 0.
Proof.
  assert (agree_slice (const_buf (Fin 1)) (upd (const_buf (Fin 1)) 50 NaN)
            (0 * batch_stride st_1121) (0 * head_stride st_1121) st_1121 2 1)
    as Ha.
  { intros i c Hi Hc. unfold upd, st_1121.
    cbn [batch_stride head_stride seq_stride head_dim_stride].
    destruct (Z.eqb_spec (0 * 2 + 0 * 2 + i * 1 + c * 1) 50);
      [lia | reflexivity]. }
  split; [exact Ha |].
  apply forward_reads_only_in_range; (lia || exact Ha).
Defined.




